(** * A local-file S3 server: path mapping, bucket listing, multipart uploads

    A shallow embedding of [s3server.py] and the properties of its three
    cores: the mapping from (bucket, key) to a file path with optional
    digest sharding, the paginated listing of a bucket, and the
    reassembly of multipart uploads from parts that arrive in any order.

    Python values are modelled as follows.
    - [str] (a Python 2 byte string) is a [list ascii]; literals are
      written [b"..."].
    - [int] is [Z]; [len] results and list indices are [nat].
    - dictionaries are stdpp [gmap]s; objects shared by reference live in
      a heap indexed by locations.
    - exceptions are an outcome of a state-passing computation; the state
      survives a raised exception, as mutation does in Python. *)

From Stdlib Require Import ZArith Ascii String List Lia.
From stdpp Require Import gmap strings list fin_maps sorting.

Local Open Scope Z_scope.

(** ** Byte strings *)

Abbreviation str := (list ascii).

Definition b (s : string) : str := list_ascii_of_string s.

Definition ord (c : ascii) : Z := Z.of_N (N_of_ascii c).

Definition chr (z : Z) : ascii := ascii_of_N (Z.to_N z).

(** ** hashlib.md5 (RFC 1321)

    The digest is a library function of the Python runtime; it is
    modelled here on 32-bit words kept in [Z], every addition reduced
    with [mask32]. *)

Module MD5.

Definition mask32 (x : Z) : Z := Z.land x 0xffffffff.

Definition not32 (x : Z) : Z := Z.lxor x 0xffffffff.

Definition rotl32 (x c : Z) : Z :=
  mask32 (Z.lor (Z.shiftl x c) (Z.shiftr x (32 - c))).

Definition shifts : list Z :=
  [7; 12; 17; 22; 7; 12; 17; 22; 7; 12; 17; 22; 7; 12; 17; 22;
   5;  9; 14; 20; 5;  9; 14; 20; 5;  9; 14; 20; 5;  9; 14; 20;
   4; 11; 16; 23; 4; 11; 16; 23; 4; 11; 16; 23; 4; 11; 16; 23;
   6; 10; 15; 21; 6; 10; 15; 21; 6; 10; 15; 21; 6; 10; 15; 21].

Definition sines : list Z :=
  [0xd76aa478; 0xe8c7b756; 0x242070db; 0xc1bdceee;
   0xf57c0faf; 0x4787c62a; 0xa8304613; 0xfd469501;
   0x698098d8; 0x8b44f7af; 0xffff5bb1; 0x895cd7be;
   0x6b901122; 0xfd987193; 0xa679438e; 0x49b40821;
   0xf61e2562; 0xc040b340; 0x265e5a51; 0xe9b6c7aa;
   0xd62f105d; 0x02441453; 0xd8a1e681; 0xe7d3fbc8;
   0x21e1cde6; 0xc33707d6; 0xf4d50d87; 0x455a14ed;
   0xa9e3e905; 0xfcefa3f8; 0x676f02d9; 0x8d2a4c8a;
   0xfffa3942; 0x8771f681; 0x6d9d6122; 0xfde5380c;
   0xa4beea44; 0x4bdecfa9; 0xf6bb4b60; 0xbebfbc70;
   0x289b7ec6; 0xeaa127fa; 0xd4ef3085; 0x04881d05;
   0xd9d4d039; 0xe6db99e5; 0x1fa27cf8; 0xc4ac5665;
   0xf4292244; 0x432aff97; 0xab9423a7; 0xfc93a039;
   0x655b59c3; 0x8f0ccc92; 0xffeff47d; 0x85845dd1;
   0x6fa87e4f; 0xfe2ce6e0; 0xa3014314; 0x4e0811a1;
   0xf7537e82; 0xbd3af235; 0x2ad7d2bb; 0xeb86d391].

(** Little-endian bytes of a word, and back. *)
Definition word_bytes (w : Z) : list Z :=
  [Z.land w 0xff; Z.land (Z.shiftr w 8) 0xff;
   Z.land (Z.shiftr w 16) 0xff; Z.land (Z.shiftr w 24) 0xff].

Fixpoint words (bs : list Z) : list Z :=
  match bs with
  | b0 :: b1 :: b2 :: b3 :: rest =>
      (b0 + Z.shiftl b1 8 + Z.shiftl b2 16 + Z.shiftl b3 24) :: words rest
  | _ => []
  end.

(** The message, a one bit, zeros up to 56 modulo 64, and the bit length
    on 64 bits. *)
Definition pad (msg : list Z) : list Z :=
  let n := Z.of_nat (length msg) in
  let bits := n * 8 in
  msg ++ [0x80] ++ repeat 0 (Z.to_nat ((55 - n) mod 64))
      ++ word_bytes (mask32 bits) ++ word_bytes (mask32 (Z.shiftr bits 32)).

Fixpoint blocks (fuel : nat) (ws : list Z) : list (list Z) :=
  match fuel, ws with
  | S fuel', _ :: _ => take 16 ws :: blocks fuel' (drop 16 ws)
  | _, _ => []
  end.

Definition state : Type := Z * Z * Z * Z.

Definition round (m : list Z) (st : state) (i : Z) : state :=
  let '(a, b, c, d) := st in
  let f :=
    if i <? 16 then Z.lor (Z.land b c) (Z.land (not32 b) d)
    else if i <? 32 then Z.lor (Z.land d b) (Z.land (not32 d) c)
    else if i <? 48 then Z.lxor b (Z.lxor c d)
    else Z.lxor c (Z.lor b (not32 d)) in
  let g :=
    if i <? 16 then i
    else if i <? 32 then (5 * i + 1) mod 16
    else if i <? 48 then (3 * i + 5) mod 16
    else (7 * i) mod 16 in
  let f' := mask32 (f + a + sines !!! Z.to_nat i + m !!! Z.to_nat g) in
  (d, mask32 (b + rotl32 f' (shifts !!! Z.to_nat i)), b, c).

Definition compress (st : state) (m : list Z) : state :=
  let '(a0, b0, c0, d0) := st in
  let '(a, b, c, d) := foldl (round m) st (seqZ 0 64) in
  (mask32 (a0 + a), mask32 (b0 + b), mask32 (c0 + c), mask32 (d0 + d)).

Definition init : state := (0x67452301, 0xefcdab89, 0x98badcfe, 0x10325476).

Definition digest_words (msg : str) : state :=
  let ws := words (pad (ord <$> msg)) in
  foldl compress init (blocks (length ws) ws).

Definition hex_digit (n : Z) : ascii :=
  if n <? 10 then chr (48 + n) else chr (87 + n).

Definition hex_byte (x : Z) : str :=
  [hex_digit (Z.shiftr x 4); hex_digit (Z.land x 0xf)].

Definition hex_word (w : Z) : str :=
  hex_byte (Z.land w 0xff) ++ hex_byte (Z.land (Z.shiftr w 8) 0xff)
    ++ hex_byte (Z.land (Z.shiftr w 16) 0xff)
    ++ hex_byte (Z.land (Z.shiftr w 24) 0xff).

(** [hashlib.md5(msg).hexdigest()] *)
Definition hexdigest (msg : str) : str :=
  let '(a, b, c, d) := digest_words msg in
  hex_word a ++ hex_word b ++ hex_word c ++ hex_word d.

End MD5.

(** ** Outcomes, exceptions and the world *)

Inductive exn : Type :=
| HTTPError (status : Z)   (* web.HTTPError(status, ...) *)
| KeyError                (* d[k] or del d[k] with k absent *)
| OSError                 (* os.unlink on a path that is not there *)
| ValueError              (* I/O operation on a closed file *)
| TypeError               (* file.write(None) *)
| AttributeError          (* attribute access on None *)
| IndexError              (* list index out of range *)
| Unallocated             (* model only: a reference outside the heap *)
| OutOfFuel.              (* model only: a loop cut off by its bound *)

Inductive outcome (A : Type) : Type :=
| Return (a : A)
| Raise (e : exn).

Arguments Return {A} a.
Arguments Raise {A} e.

(** A file object opened for writing.  [f_written] is what has been
    written through the handle, in order: the content of the file as
    long as the handle is its only writer (the buffering between
    [write] and [flush] is not modelled). *)
Record PyFile : Type := mkFile {
  f_name : str;
  f_closed : bool;
  f_written : str
}.

(** class _MultipartBuffer *)
Record MultipartBuffer : Type := mkBuffer {
  data : option str;       (* None once forget_data() has run *)
  md5sum : str
}.

(** class _MultipartUploader (the locks are left out: calls are modelled
    one after the other) *)
Record MultipartUploader : Type := mkUploader {
  path : str;
  upload_id : str;
  file : PyFile;
  part_number : Z;
  buffers : gmap Z MultipartBuffer
}.

Abbreviation loc := nat (only parsing).

(** The process state: uploader objects by reference, the global
    [multipart_uploaders] dictionary, and the set of files that exist. *)
Record World : Type := mkWorld {
  heap : gmap loc MultipartUploader;
  multipart_uploaders : gmap str loc;
  fs : gset str
}.

Definition M (A : Type) : Type := World -> outcome A * World.

#[global] Instance M_ret : MRet M := fun A a w => (Return a, w).

#[global] Instance M_bind : MBind M := fun A B k m w =>
  match m w with
  | (Return a, w') => k a w'
  | (Raise e, w') => (Raise e, w')
  end.

Definition raise {A} (e : exn) : M A := fun w => (Raise e, w).

(** Reading and updating the object behind a reference. *)
Definition deref (l : loc) : M MultipartUploader :=
  fun w => match heap w !! l with
           | Some u => (Return u, w)
           | None => (Raise Unallocated, w)
           end.

Definition update (l : loc) (f : MultipartUploader -> MultipartUploader) : M unit :=
  fun w => match heap w !! l with
           | Some u =>
               (Return tt, mkWorld (<[l := f u]> (heap w)) (multipart_uploaders w) (fs w))
           | None => (Raise Unallocated, w)
           end.

Definition alloc (u : MultipartUploader) : M loc :=
  fun w => let l := fresh (dom (heap w)) in
           (Return l, mkWorld (<[l := u]> (heap w)) (multipart_uploaders w) (fs w)).

Definition set_file (f : PyFile) (u : MultipartUploader) : MultipartUploader :=
  mkUploader (path u) (upload_id u) f (part_number u) (buffers u).

Definition set_part_number (n : Z) (u : MultipartUploader) : MultipartUploader :=
  mkUploader (path u) (upload_id u) (file u) n (buffers u).

Definition set_buffers (bs : gmap Z MultipartBuffer) (u : MultipartUploader) : MultipartUploader :=
  mkUploader (path u) (upload_id u) (file u) (part_number u) bs.

(** ** Files *)

(** open(path, "w"): the file exists afterwards, empty. *)
Definition open_w (p : str) : M PyFile :=
  fun w => (Return (mkFile p false []),
            mkWorld (heap w) (multipart_uploaders w) ({[p]} ∪ fs w)).

(** os.unlink(path) *)
Definition unlink (p : str) : M unit :=
  fun w => if decide (p ∈ fs w)
           then (Return tt, mkWorld (heap w) (multipart_uploaders w) (fs w ∖ {[p]}))
           else (Raise OSError, w).

(** file.write(data) *)
Definition file_write (d : option str) (f : PyFile) : outcome PyFile :=
  if f_closed f then Raise ValueError
  else match d with
       | None => Raise TypeError
       | Some bytes => Return (mkFile (f_name f) false (f_written f ++ bytes))
       end.

(** file.flush() *)
Definition file_flush (f : PyFile) : outcome PyFile :=
  if f_closed f then Raise ValueError else Return f.

(** file.close(): closing twice is allowed. *)
Definition file_close (f : PyFile) : PyFile :=
  mkFile (f_name f) true (f_written f).

(** self.file.<op>() on the uploader behind [self]. *)
Definition on_file (self : loc) (op : PyFile -> outcome PyFile) : M unit :=
  u ← deref self;
  match op (file u) with
  | Return f' => update self (set_file f')
  | Raise e => raise e
  end.

(** ** Multipart uploads *)

(** _MultipartBuffer.__init__ *)
Definition MultipartBuffer_init (d : str) : MultipartBuffer :=
  mkBuffer (Some d) (MD5.hexdigest d).

(** _MultipartBuffer.forget_data *)
Definition forget_data (buf : MultipartBuffer) : MultipartBuffer :=
  mkBuffer None (md5sum buf).

(** _MultipartUploader.__init__ *)
Definition MultipartUploader_init (id p : str) : M loc :=
  f ← open_w p;
  alloc (mkUploader p id f 1 ∅).

(** The loop of trigger_write_completion, cut off after [fuel] rounds. *)
Fixpoint write_completion_loop (fuel : nat) (self : loc) : M unit :=
  u ← deref self;
  match buffers u !! part_number u with
  | None => mret tt
  | Some buf =>
      match fuel with
      | O => raise OutOfFuel
      | S fuel' =>
          on_file self (file_write (data buf)) ;;
          update self (fun u =>
            set_buffers (alter forget_data (part_number u) (buffers u)) u) ;;
          update self (fun u => set_part_number (part_number u + 1) u) ;;
          write_completion_loop fuel' self
      end
  end.

(** _MultipartUploader.trigger_write_completion: every round consumes a
    different key of [buffers], so their number bounds the loop. *)
Definition trigger_write_completion (self : loc) : M unit :=
  u ← deref self;
  write_completion_loop (size (buffers u)) self.

(** _MultipartUploader.write *)
Definition write (self : loc) (pn : Z) (d : str) : M unit :=
  u ← deref self;
  (if decide (pn ∈ dom (buffers u))
   then raise (HTTPError 400)
   else update self (fun u => set_buffers (<[pn := MultipartBuffer_init d]> (buffers u)) u)) ;;
  trigger_write_completion self.

(** del multipart_uploaders[upload_id] *)
Definition del_uploader (id : str) : M unit :=
  fun w => match multipart_uploaders w !! id with
           | Some _ => (Return tt, mkWorld (heap w) (delete id (multipart_uploaders w)) (fs w))
           | None => (Raise KeyError, w)
           end.

(** _MultipartUploader.close *)
Definition close (self : loc) : M unit :=
  trigger_write_completion self ;;
  on_file self file_flush ;;
  on_file self (fun f => Return (file_close f)) ;;
  u ← deref self;
  del_uploader (upload_id u).

(** _MultipartUploader.abort *)
Definition abort (self : loc) : M unit :=
  on_file self (fun f => Return (file_close f)) ;;
  u ← deref self;
  unlink (path u) ;;
  u ← deref self;
  del_uploader (upload_id u).

(** Python truth of a path argument: None and the empty string are false. *)
Definition truthy (p : option str) : bool :=
  match p with
  | Some (_ :: _) => true
  | _ => false
  end.

(** multipart_uploaders.get(upload_id) and multipart_uploaders[upload_id] = m *)
Definition lookup_uploader (id : str) : M (option loc) :=
  fun w => (Return (multipart_uploaders w !! id), w).

Definition register_uploader (id : str) (m : loc) : M unit :=
  fun w => (Return tt, mkWorld (heap w) (<[id := m]> (multipart_uploaders w)) (fs w)).

(** MultipartUploaderFactory *)
Definition MultipartUploaderFactory (id : str) (p : option str) : M (option loc) :=
  o ← lookup_uploader id;
  match o with
  | Some m => mret (Some m)
  | None =>
      if truthy p then
        m ← MultipartUploader_init id (default [] p);
        register_uploader id m;;
        mret (Some m)
      else mret None
  end.

(** ObjectHandler.put, the multipart branch (lines 259-265): the part is
    written and its digest is sent back as the ETag. *)
Definition write_part (id : str) (pn : Z) (body : str) : M str :=
  o ← MultipartUploaderFactory id None;
  match o with
  | None => raise (HTTPError 404)
  | Some object_file =>
      write object_file pn body ;;
      u ← deref object_file;
      match buffers u !! pn with
      | Some buf => mret (md5sum buf)
      | None => raise KeyError
      end
  end.

(** [object_file.buffers[pn].md5sum for pn in pns] *)
Fixpoint part_etags (u : MultipartUploader) (pns : list Z) : outcome (list (Z * str)) :=
  match pns with
  | [] => Return []
  | pn :: rest =>
      match buffers u !! pn with
      | None => Raise KeyError
      | Some buf =>
          match part_etags u rest with
          | Return l => Return ((pn, md5sum buf) :: l)
          | Raise e => Raise e
          end
      end
  end.

(** range(lo, hi) *)
Definition range (lo hi : Z) : list Z := seqZ lo (hi - lo).

(** ObjectHandler.post with an upload id (lines 313-331): the upload is
    closed and the parts [1 .. part_number - 1] are reported. *)
Definition complete_upload (id : str) : M (list (Z * str)) :=
  o ← MultipartUploaderFactory id None;
  match o with
  | None => raise (HTTPError 404)
  | Some object_file =>
      close object_file ;;
      u ← deref object_file;
      match part_etags u (range 1 (part_number u)) with
      | Return l => mret l
      | Raise e => raise e
      end
  end.

(** ObjectHandler.delete with an upload id (lines 290-300) *)
Definition abort_upload (id : str) : M unit :=
  o ← MultipartUploaderFactory id None;
  match o with
  | None => raise (HTTPError 404)
  | Some object_file => abort object_file
  end.

(** ObjectHandler.post without an upload id, from line 349 on: [gen_id]
    stands for uuid.uuid4().hex and [p] for the resolved object path. *)
Definition initiate_upload (gen_id p : str) : M str :=
  o ← MultipartUploaderFactory gen_id (Some p);
  match o with
  | None => raise AttributeError
  | Some m => u ← deref m; mret (upload_id u)
  end.

(** A sequence of part uploads to one upload id, stopping at the first
    failure; the ETags of the parts are collected. *)
Fixpoint write_parts (id : str) (calls : list (Z * str)) : M (list str) :=
  match calls with
  | [] => mret []
  | (pn, d) :: rest =>
      e ← write_part id pn d;
      es ← write_parts id rest;
      mret (e :: es)
  end.



(** ** Operations on byte strings *)

(** s.startswith(prefix) *)
Fixpoint startswith (s prefix : str) {struct prefix} : bool :=
  match prefix with
  | [] => true
  | c :: prefix' =>
      match s with
      | [] => false
      | c' :: s' => bool_decide (c' = c) && startswith s' prefix'
      end
  end.

(** The order of Python 2 on byte strings: byte by byte, a proper prefix
    first. *)
Fixpoint str_compare (x y : str) : comparison :=
  match x, y with
  | [], [] => Eq
  | [], _ :: _ => Lt
  | _ :: _, [] => Gt
  | c :: x', c' :: y' =>
      match ord c ?= ord c' with
      | Eq => str_compare x' y'
      | r => r
      end
  end.

(** x < y *)
Definition str_lt (x y : str) : bool :=
  match str_compare x y with Lt => true | _ => false end.

(** x <= y, the relation that list.sort() sorts by. *)
Definition str_le (x y : str) : Prop := str_lt y x = false.

#[global] Instance str_le_dec : RelDecision str_le.
Proof. intros x y. unfold str_le. apply _. Defined.

(** Python truth of a string: the empty string is false. *)
Definition nonempty (s : str) : bool :=
  match s with [] => false | _ :: _ => true end.

(** ** Bucket listing (BucketHandler.get) *)

(** bisect.bisect_right(a, x, lo): the loop is cut off after [fuel]
    rounds; each round shrinks [hi - lo]. *)
Fixpoint bisect_right_loop (fuel : nat) (a : list str) (x : str) (lo hi : nat)
  : outcome nat :=
  if (lo <? hi)%nat then
    match fuel with
    | O => Raise OutOfFuel
    | S fuel' =>
        let mid := ((lo + hi) / 2)%nat in
        match a !! mid with
        | None => Raise IndexError
        | Some y =>
            if str_lt x y then bisect_right_loop fuel' a x lo mid
            else bisect_right_loop fuel' a x (mid + 1)%nat hi
        end
    end
  else Return lo.

Definition bisect_right (a : list str) (x : str) (lo : nat) : outcome nat :=
  bisect_right_loop (length a) a x lo (length a).

(** bisect.bisect_left(a, x, lo) *)
Fixpoint bisect_left_loop (fuel : nat) (a : list str) (x : str) (lo hi : nat)
  : outcome nat :=
  if (lo <? hi)%nat then
    match fuel with
    | O => Raise OutOfFuel
    | S fuel' =>
        let mid := ((lo + hi) / 2)%nat in
        match a !! mid with
        | None => Raise IndexError
        | Some y =>
            if str_lt y x then bisect_left_loop fuel' a x (mid + 1)%nat hi
            else bisect_left_loop fuel' a x lo mid
        end
    end
  else Return lo.

Definition bisect_left (a : list str) (x : str) (lo : nat) : outcome nat :=
  bisect_left_loop (length a) a x lo (length a).

(** Lines 165-169: the position the scan starts from. *)
Definition start_position (object_names : list str) (prefix marker : str)
  : outcome nat :=
  let start_pos := 0%nat in
  match (if nonempty marker then bisect_right object_names marker start_pos
         else Return start_pos) with
  | Raise e => Raise e
  | Return start_pos =>
      if nonempty prefix then bisect_left object_names prefix start_pos
      else Return start_pos
  end.


(** ** os.path on POSIX

    The functions of the Python library that the path mapping calls,
    after posixpath.py. *)

Definition slash : ascii := "/"%char.

(** s.endswith(suffix) *)
Definition endswith (s suffix : str) : bool :=
  startswith (reverse s) (reverse suffix).

(** s.split('/') *)
Fixpoint split_slash (s : str) : list str :=
  match s with
  | [] => [[]]
  | c :: s' =>
      if bool_decide (c = slash) then [] :: split_slash s'
      else match split_slash s' with
           | comp :: comps => (c :: comp) :: comps
           | [] => [[c]]
           end
  end.

(** '/'.join(comps) *)
Fixpoint join_slash (comps : list str) : str :=
  match comps with
  | [] => []
  | comp :: comps' =>
      match comps' with
      | [] => comp
      | _ :: _ => comp ++ slash :: join_slash comps'
      end
  end.

(** os.path.isabs *)
Definition isabs (s : str) : bool := startswith s (b"/").

(** os.path.join(a, p), one step of its loop; os.path.join(a, p, q) is
    [join (join a p) q]. *)
Definition join (a p : str) : str :=
  if startswith p (b"/") then p
  else if negb (nonempty a) || endswith a (b"/") then a ++ p
  else a ++ b"/" ++ p.

(** The number of leading slashes that normpath keeps: POSIX allows one
    or two, three or more count as one. *)
Definition initial_slashes (path : str) : nat :=
  if startswith path (b"/") then
    if startswith path (b"//") && negb (startswith path (b"///"))
    then 2%nat else 1%nat
  else 0%nat.

(** The body of the loop of normpath over the components. *)
Definition normpath_step (slashes : nat) (new_comps : list str) (comp : str)
  : list str :=
  if bool_decide (comp = []) || bool_decide (comp = b".") then new_comps
  else if negb (bool_decide (comp = b".."))
          || (bool_decide (slashes = 0%nat) && bool_decide (new_comps = []))
          || bool_decide (last new_comps = Some (b".."))
  then new_comps ++ [comp]
  else removelast new_comps.

(** os.path.normpath *)
Definition normpath (path : str) : str :=
  if negb (nonempty path) then b"."
  else
    let slashes := initial_slashes path in
    let comps := foldl (normpath_step slashes) [] (split_slash path) in
    let path := repeat slash slashes ++ join_slash comps in
    if nonempty path then path else b".".

(** os.path.abspath, with [cwd] for os.getcwd() *)
Definition abspath (cwd path : str) : str :=
  normpath (if isabs path then path else join cwd path).

(** ** The path of an object *)

(** class S3Application: the fields set by __init__ *)
Record S3Application : Type := mkApplication {
  directory : str;
  bucket_depth : Z
}.

Definition S3Application_init (cwd root_directory : str) (depth : Z)
  : S3Application :=
  mkApplication (abspath cwd root_directory) depth.

(** BaseRequestHandler._object_path *)
Definition _object_path (cwd : str) (app : S3Application)
    (bucket object_name : str) : str :=
  if bucket_depth app <? 1 then
    abspath cwd (join (join (directory app) bucket) object_name)
  else
    let hash := MD5.hexdigest object_name in
    let path := abspath cwd (join (directory app) bucket) in
    let path :=
      foldl (fun path i => join path (take (Z.to_nat (2 * (i + 1))) hash))
            path (range 0 (bucket_depth app)) in
    join path object_name.

(** BucketHandler.get, lines 158-160: the number of characters cut from
    the front of every file path found under the bucket directory
    [path]. *)
Definition shard_skip (path : str) (depth : Z) : Z :=
  foldl (fun skip i => skip + (2 * (i + 1) + 1))
        (Z.of_nat (length path) + 1) (range 0 depth).

(** n[skip:] for a skip that is not negative *)
Definition strip_shard_prefix (cwd : str) (app : S3Application)
    (bucket n : str) : str :=
  let path := abspath cwd (join (directory app) bucket) in
  drop (Z.to_nat (shard_skip path (bucket_depth app))) n.

(** ObjectHandler.put, lines 246-253: the checks that a request passes
    before anything is written; [isdir] stands for os.path.isdir on the
    file system of the moment, and the object name is already unquoted. *)
Definition ObjectHandler_put_path (cwd : str) (isdir : str -> bool)
    (app : S3Application) (bucket object_name : str) : outcome str :=
  let bucket_dir := abspath cwd (join (directory app) bucket) in
  if negb (startswith bucket_dir (directory app)) || negb (isdir bucket_dir)
  then Raise (HTTPError 404)
  else
    let path := _object_path cwd app bucket object_name in
    if negb (startswith path bucket_dir) || isdir path
    then Raise (HTTPError 403)
    else Return path.

(** Inputs of the worked examples. *)
Definition demo_cwd : str := b"/srv".

Definition demo_app (depth : Z) : S3Application :=
  S3Application_init demo_cwd (b"/tmp/s3") depth.

Definition demo_isdir (p : str) : bool :=
  bool_decide (p ∈ [b"/tmp"; b"/tmp/s3"; b"/tmp/s3/b"; b"/tmp/s3/bc"]).
(** ** The scan of a listing (BucketHandler.get, lines 171-196) *)

(** os.stat: the fields of the result that the listing reads.
    [st_mtime] counts microseconds, the resolution of datetime. *)
Record stat_result : Type := mkStat {
  st_mtime : Z;
  st_size : Z
}.

(** datetime.datetime.utcfromtimestamp: a date is kept as its timestamp;
    datetime holds the years 1 to 9999 and raises ValueError outside. *)
Definition utcfromtimestamp (t : Z) : outcome Z :=
  if (-62135596800000000 <=? t) && (t <? 253402300800000000)
  then Return t else Raise ValueError.

(** The dictionary [c] of one key: LastModified and Size are there
    unless the request is terse. *)
Record Content : Type := mkContent {
  Key : str;
  LastModified : option Z;
  Size : option Z
}.

(** The dictionary rendered as ListBucketResult. *)
Record ListBucketResult : Type := mkListing {
  Name : str;
  Prefix : str;
  Marker : str;
  MaxKeys : Z;
  IsTruncated : bool;
  Contents : list Content
}.

(** Lines 177-186: the entry of [object_name]. [stat] stands for os.stat
    on the file system of the moment, None where it raises OSError. *)
Definition entry (cwd : str) (stat : str -> option stat_result)
    (app : S3Application) (bucket_name : str) (terse : Z) (object_name : str)
  : outcome Content :=
  let object_path := _object_path cwd app bucket_name object_name in
  let c := mkContent object_name None None in
  if terse =? 0 then
    match stat object_path with
    | None => Raise OSError
    | Some info =>
        match utcfromtimestamp (st_mtime info) with
        | Raise e => Raise e
        | Return date =>
            Return (mkContent (Key c) (Some date) (Some (st_size info)))
        end
    end
  else Return c.

(** Lines 171-188: the scan over object_names[start_pos:], as a function
    of the entries collected so far and the current marker. *)
Fixpoint scan (cwd : str) (stat : str -> option stat_result)
    (app : S3Application) (bucket_name : str) (terse : Z)
    (names : list str) (prefix : str) (max_keys : Z)
    (contents : list Content) (marker : str)
  : outcome (list Content * str * bool) :=
  match names with
  | [] => Return (contents, marker, false)
  | object_name :: rest =>
      if negb (startswith object_name prefix) then Return (contents, marker, false)
      else if Z.of_nat (length contents) >=? max_keys
      then Return (contents, marker, true)
      else
        match entry cwd stat app bucket_name terse object_name with
        | Raise e => Raise e
        | Return c =>
            scan cwd stat app bucket_name terse rest prefix max_keys
                 (contents ++ [c]) object_name
        end
  end.

(** BucketHandler.get from line 162 on: [object_names] are the keys found
    by the walk of the bucket directory, in any order. *)
Definition list_keys (cwd : str) (stat : str -> option stat_result)
    (app : S3Application) (bucket_name : str) (object_names : list str)
    (prefix marker : str) (max_keys terse : Z) : outcome ListBucketResult :=
  let object_names := merge_sort str_le object_names in
  match start_position object_names prefix marker with
  | Raise e => Raise e
  | Return start_pos =>
      match scan cwd stat app bucket_name terse (drop start_pos object_names)
                 prefix max_keys [] marker with
      | Raise e => Raise e
      | Return (contents, marker, truncated) =>
          Return (mkListing bucket_name prefix marker max_keys truncated contents)
      end
  end.

(** The bucket of the worked examples, as a walk may find it, and a file
    system that holds its files, and those of two sharded keys. *)
Definition demo_bucket : list str := [b"c"; b"a"; b"b"; b"ab"].

Definition demo_info : stat_result := mkStat 1700000000000000 3.

Definition demo_stat (p : str) : option stat_result :=
  if bool_decide (p ∈ [b"/tmp/s3/b/a"; b"/tmp/s3/b/ab"; b"/tmp/s3/b/b";
                       b"/tmp/s3/b/c"; b"/tmp/s3/b/5d/5d41/hello";
                       b"/tmp/s3/b/90/9001/abc"])
  then Some demo_info else None.

(** A listing of the bucket b of the examples, and the entry it holds
    for a key. *)
Definition demo_listing (object_names : list str) (prefix marker : str)
    (max_keys terse : Z) : outcome ListBucketResult :=
  list_keys demo_cwd demo_stat (demo_app 0) (b"b") object_names
            prefix marker max_keys terse.

Definition demo_entry (terse : Z) (k : str) : Content :=
  if terse =? 0 then mkContent k (Some 1700000000000000) (Some 3)
  else mkContent k None None.


(** ** Invariants of an upload *)

(** The world with the object at [l] replaced. *)
Definition set_obj (l : loc) (u : MultipartUploader) (w : World) : World :=
  mkWorld (<[l := u]> (heap w)) (multipart_uploaders w) (fs w).

(** What [buffers] holds for part [p] with payload [d] once the flush
    cursor is at [cursor]: the payload is dropped for the flushed parts
    [1 .. cursor - 1], the digest stays. *)
Definition buffer_at (cursor p : Z) (d : str) : MultipartBuffer :=
  mkBuffer (if bool_decide (1 ≤ p < cursor) then None else Some d)
           (MD5.hexdigest d).

(** The payload received for part [i], and the parts [1 .. k] in a row. *)
Definition part_data (recv : gmap Z str) (i : Z) : str :=
  default [] (recv !! i).

Definition parts_upto (recv : gmap Z str) (k : Z) : str :=
  mjoin (part_data recv <$> seqZ 1 k).

(** The parts still at or after the cursor. *)
Definition pending (recv : gmap Z str) (cursor : Z) : gmap Z str :=
  filter (fun kv => cursor ≤ kv.1) recv.

(** The state of an uploader that has received [recv], while its flush
    loop runs: all parts before the cursor have been received and
    written, in order. *)
Record flushing (recv : gmap Z str) (u : MultipartUploader) : Prop := {
  fl_open : f_closed (file u) = false;
  fl_cursor : 1 ≤ part_number u;
  fl_contig : forall i, 1 ≤ i < part_number u -> is_Some (recv !! i);
  fl_buffers : forall p, buffers u !! p = buffer_at (part_number u) p <$> recv !! p;
  fl_written : f_written (file u) = parts_upto recv (part_number u - 1)
}.

(** Between calls the cursor is on a part that has not been received. *)
Definition settled (recv : gmap Z str) (u : MultipartUploader) : Prop :=
  flushing recv u /\ recv !! part_number u = None.

(** A live upload [id] in the world [w]: registered, open, settled, its
    destination file in place. *)
Record session (w : World) (id : str) (recv : gmap Z str)
    (l : loc) (u : MultipartUploader) : Prop := {
  sess_registered : multipart_uploaders w !! id = Some l;
  sess_object : heap w !! l = Some u;
  sess_id : upload_id u = id;
  sess_file : path u ∈ fs w;
  sess_settled : settled recv u
}.

(** The parts received by a sequence of calls. *)
Definition received (calls : list (Z * str)) : gmap Z str :=
  list_to_map calls.

(** Initiating the upload [id] to the file [pth] and then sending the
    parts [calls], in this order. *)
Definition upload_run (id pth : str) (calls : list (Z * str)) : M (list str) :=
  initiate_upload id pth;; write_parts id calls.

(** Every part [1 .. k] is among [calls]. *)
Definition all_received (calls : list (Z * str)) (k : Z) : Prop :=
  forall i, 1 ≤ i ≤ k -> exists d, (i, d) ∈ calls.

(** [ds] lists the payloads that [calls] carry for the parts
    [1 .. length ds], in part-number order. *)
Definition payloads_in_order (calls : list (Z * str)) (ds : list str) : Prop :=
  forall n d, ds !! n = Some d -> (Z.of_nat n + 1, d) ∈ calls.

(** Inputs of the worked examples. *)
Definition empty_world : World := mkWorld ∅ ∅ ∅.

Definition demo_id : str := b"0f8fad5bd9cb469fa16570867728950e".

Definition demo_path : str := b"/tmp/s3/bucket/object".
(** ** Notions used to state the listing properties *)

(** [s] is the smallest index from [lo] on whose key satisfies [P], or
    the length of [keys] when there is none. *)
Definition first_index_from (lo : nat) (P : str -> Prop) (keys : list str)
    (s : nat) : Prop :=
  (lo ≤ s ≤ length keys)%nat
  /\ (forall j k, (lo ≤ j < s)%nat -> keys !! j = Some k -> ¬ P k)
  /\ (forall k, keys !! s = Some k -> P k).

(** The keys that a scan collects, its marker and its flag: the part of
    the scan that does not depend on the entries. Used in the proofs
    only, where [scan] is shown to collect the entries of these keys. *)
Fixpoint scan_keys (names : list str) (prefix : str) (max_keys : Z)
    (collected : list str) (marker : str) : list str * str * bool :=
  match names with
  | [] => (collected, marker, false)
  | object_name :: rest =>
      if negb (startswith object_name prefix) then (collected, marker, false)
      else if Z.of_nat (length collected) >=? max_keys then (collected, marker, true)
      else scan_keys rest prefix max_keys (collected ++ [object_name]) object_name
  end.

Definition select_keys (object_names : list str) (prefix marker : str)
    (max_keys : Z) : outcome (list str * str * bool) :=
  let object_names := merge_sort str_le object_names in
  match start_position object_names prefix marker with
  | Raise e => Raise e
  | Return start_pos =>
      Return (scan_keys (drop start_pos object_names) prefix max_keys [] marker)
  end.

(** The entries of the keys [ks], made one after the other. *)
Fixpoint entries (cwd : str) (stat : str -> option stat_result)
    (app : S3Application) (bucket_name : str) (terse : Z) (ks : list str)
  : outcome (list Content) :=
  match ks with
  | [] => Return []
  | k :: ks' =>
      match entry cwd stat app bucket_name terse k with
      | Raise e => Raise e
      | Return c =>
          match entries cwd stat app bucket_name terse ks' with
          | Raise e => Raise e
          | Return cs => Return (c :: cs)
          end
      end
  end.


(** ** Notions used to state the path properties *)

(** The directory names a path goes through once it is normalised. *)
Definition components (p : str) : list str :=
  filter (fun comp => comp ≠ []) (split_slash (normpath p)).

(** [p] lies strictly below the directory [dir]. *)
Definition descendant (dir p : str) : bool :=
  bool_decide (components dir `prefix_of` components p)
  && negb (bool_decide (components dir = components p)).

(** A path component that normpath keeps as it is. *)
Definition plain (comp : str) : Prop :=
  comp ≠ [] /\ comp ≠ b"." /\ comp ≠ b"..".

(** A key that is a relative path in normal form: no empty segment (so
    no leading, trailing or double slash) and no "." or ".." segment. *)
Definition normal_key (k : str) : Prop := Forall plain (split_slash k).

(** ** Notions used to state further properties of uploads *)

(** Every registered upload id refers to an allocated uploader, and that
    uploader carries this id. *)
Definition registry_ok (w : World) : Prop :=
  forall (id : str) (l : loc),
    multipart_uploaders w !! id = Some l ->
    exists u, heap w !! l = Some u /\ upload_id u = id.

(** [w'] comes from [w] by work on the upload [id'] whose uploader is at
    [l']: every other object and every other registry entry is as
    before, the uploader at [l'] keeps its id and its path, and the
    entry of [id'] is kept or removed. *)
Record acts_on (id' : str) (l' : loc) (w w' : World) : Prop := {
  act_heap : forall l, l ≠ l' -> heap w' !! l = heap w !! l;
  act_self : forall u', heap w' !! l' = Some u' ->
             exists u, heap w !! l' = Some u
                       /\ upload_id u' = upload_id u /\ path u' = path u;
  act_alloc : is_Some (heap w !! l') -> is_Some (heap w' !! l');
  act_registry : forall id, id ≠ id' ->
                 multipart_uploaders w' !! id = multipart_uploaders w !! id;
  act_own : multipart_uploaders w' !! id' = multipart_uploaders w !! id'
            \/ multipart_uploaders w' !! id' = None
}.

(** [w'] differs from [w] only in the state of the uploader at [l'],
    which keeps its id and its path. *)
Record touches (l' : loc) (w w' : World) : Prop := {
  t_heap : forall l, l ≠ l' -> heap w' !! l = heap w !! l;
  t_self : forall u', heap w' !! l' = Some u' ->
           exists u, heap w !! l' = Some u
                     /\ upload_id u' = upload_id u /\ path u' = path u;
  t_alloc : is_Some (heap w !! l') -> is_Some (heap w' !! l');
  t_registry : multipart_uploaders w' = multipart_uploaders w;
  t_fs : fs w' = fs w
}.

(** A second upload id for the worked examples. *)
Definition demo_id2 : str := b"7c9e6679742540de944be07fc1f90ae7".

(** ** The listing of a bucket, from the walk on *)

(** BucketHandler.get, lines 145-196: [isdir] stands for os.path.isdir,
    [stat] for os.stat, and [files] for the file paths that os.walk
    finds under the bucket directory, [os.path.join(root, file_name)]
    for every file. *)
Definition BucketHandler_get (cwd : str) (isdir : str -> bool)
    (stat : str -> option stat_result) (app : S3Application)
    (bucket_name : str) (files : list str) (prefix marker : str)
    (max_keys terse : Z) : outcome ListBucketResult :=
  let path := abspath cwd (join (directory app) bucket_name) in
  if negb (startswith path (directory app)) || negb (isdir path)
  then Raise (HTTPError 404)
  else
    let object_names := strip_shard_prefix cwd app bucket_name <$> files in
    list_keys cwd stat app bucket_name object_names prefix marker max_keys terse.

(** A key whose path, as a string, ends in the key itself at the shard
    depth [depth]: in normal form without sharding, not starting with a
    slash with sharding. *)
Definition storable_key (depth : Z) (k : str) : Prop :=
  if depth <? 1 then normal_key k else startswith k (b"/") = false.

(** A path component without a slash that normpath keeps as it is. *)
Definition clean (comp : str) : Prop :=
  plain comp /\ Forall (fun c => c ≠ slash) comp.
(** * Properties

    ** The digest on the RFC 1321 test vectors *)

Example md5_empty : MD5.hexdigest (b"") = b"d41d8cd98f00b204e9800998ecf8427e".
Proof. vm_compute. reflexivity. Qed.

Example md5_abc : MD5.hexdigest (b"abc") = b"900150983cd24fb0d6963f7d28e17f72".
Proof. vm_compute. reflexivity. Qed.

Example md5_fox :
  MD5.hexdigest (b"The quick brown fox jumps over the lazy dog")
  = b"9e107d9d372bb6826bd81d3542a419d6".
Proof. vm_compute. reflexivity. Qed.

Example md5_two_blocks :
  MD5.hexdigest (repeat "a"%char 64) = b"014842d480b571495a4a0363793f7367".
Proof. vm_compute. reflexivity. Qed.

Example md5_56 :
  MD5.hexdigest (repeat "a"%char 56) = b"3b0c8ac703f828b04c6c197006d17218".
Proof. vm_compute. reflexivity. Qed.

(** ** Multipart uploads *)

Section upload.

Implicit Types (w : World) (u : MultipartUploader) (recv : gmap Z str)
  (l : loc) (id : str) (p i k : Z) (d : str).

Lemma world_eta w : mkWorld (heap w) (multipart_uploaders w) (fs w) = w.
Proof. by destruct w. Qed.

Lemma set_obj_id l u w : heap w !! l = Some u -> set_obj l u w = w.
Proof. intros H. unfold set_obj. rewrite insert_id by done. apply world_eta. Qed.

Lemma set_obj_twice l u1 u2 w : set_obj l u2 (set_obj l u1 w) = set_obj l u2 w.
Proof. unfold set_obj; simpl. by rewrite insert_insert_eq. Qed.

Lemma heap_set_obj l u w : heap (set_obj l u w) !! l = Some u.
Proof. unfold set_obj; simpl. apply lookup_insert_eq. Qed.

Lemma deref_run l u w : heap w !! l = Some u -> deref l w = (Return u, w).
Proof. intros H. unfold deref. by rewrite H. Qed.

Lemma update_run l u f w :
  heap w !! l = Some u -> update l f w = (Return tt, set_obj l (f u) w).
Proof. intros H. unfold update. by rewrite H. Qed.

Lemma bind_run {A B} (m : M A) (k : A -> M B) w a w' :
  m w = (Return a, w') -> (m ≫= k) w = k a w'.
Proof. intros H. unfold mbind, M_bind. by rewrite H. Qed.

Lemma bind_raise {A B} (m : M A) (k : A -> M B) w e w' :
  m w = (Raise e, w') -> (m ≫= k) w = (Raise e, w').
Proof. intros H. unfold mbind, M_bind. by rewrite H. Qed.

(** One round of the flush loop. *)
Lemma write_completion_loop_round fuel l w u d :
  heap w !! l = Some u ->
  f_closed (file u) = false ->
  (exists buf, buffers u !! part_number u = Some buf /\ data buf = Some d) ->
  write_completion_loop (S fuel) l w
  = write_completion_loop fuel l
      (set_obj l (mkUploader (path u) (upload_id u)
                    (mkFile (f_name (file u)) false (f_written (file u) ++ d))
                    (part_number u + 1)
                    (alter forget_data (part_number u) (buffers u))) w).
Proof.
  intros Hl Hopen (buf & Hbuf & Hd).
  cbn [write_completion_loop].
  rewrite (bind_run _ _ _ _ _ (deref_run _ _ _ Hl)). rewrite Hbuf.
  unfold on_file at 1.
  erewrite bind_run; [|erewrite bind_run by (by apply deref_run)].
  2:{ unfold file_write. rewrite Hopen, Hd. by apply update_run. }
  erewrite bind_run by apply update_run, heap_set_obj.
  erewrite bind_run by apply update_run, heap_set_obj.
  by rewrite !set_obj_twice.
Qed.


Lemma buffer_at_next cursor p d :
  p ≠ cursor -> buffer_at (cursor + 1) p d = buffer_at cursor p d.
Proof.
  intros Hne. unfold buffer_at. f_equal.
  repeat case_bool_decide; done || lia.
Qed.

Lemma buffer_at_cursor cursor d :
  1 ≤ cursor ->
  forget_data (buffer_at cursor cursor d) = buffer_at (cursor + 1) cursor d.
Proof.
  intros Hc. unfold buffer_at, forget_data; simpl. f_equal.
  case_bool_decide; done || lia.
Qed.

Lemma parts_upto_next recv k :
  0 ≤ k -> parts_upto recv (k + 1) = parts_upto recv k ++ part_data recv (k + 1).
Proof.
  intros Hk. unfold parts_upto.
  rewrite seqZ_app by lia. rewrite fmap_app, join_app.
  rewrite (seqZ_cons (1 + k)) by lia. rewrite (seqZ_nil _ (Z.pred 1)) by lia; simpl.
  rewrite app_nil_r. by rewrite (Z.add_comm 1 k).
Qed.

Lemma parts_upto_ext recv recv' k :
  (forall i, 1 ≤ i ≤ k -> recv !! i = recv' !! i) ->
  parts_upto recv k = parts_upto recv' k.
Proof.
  intros Hagree. unfold parts_upto. f_equal.
  apply list_eq; intros n. rewrite !list_lookup_fmap.
  destruct (seqZ 1 k !! n) as [i|] eqn:Hi; [|done]; simpl.
  apply lookup_seqZ in Hi as [-> Hn].
  unfold part_data. rewrite Hagree by lia. done.
Qed.

Lemma pending_next recv cursor d :
  recv !! cursor = Some d ->
  S (size (pending recv (cursor + 1))) = size (pending recv cursor).
Proof.
  intros Hd.
  assert (pending recv (cursor + 1) = delete cursor (pending recv cursor)) as ->.
  { apply map_eq; intros j. unfold pending.
    destruct (decide (j = cursor)) as [->|Hne].
    - rewrite lookup_delete_eq. apply map_lookup_filter_None; right.
      intros x _; simpl; lia.
    - rewrite lookup_delete_ne by done. rewrite !map_lookup_filter.
      destruct (recv !! j); simpl; [|done].
      repeat case_guard; done || lia. }
  rewrite map_size_delete_Some; [|].
  - assert (size (pending recv cursor) ≠ 0)%nat; [|lia].
    apply map_size_ne_0_lookup. exists cursor.
    exists d. by apply map_lookup_filter_Some.
  - exists d. by apply map_lookup_filter_Some.
Qed.

Lemma pending_size recv cursor : (size (pending recv cursor) ≤ size recv)%nat.
Proof. apply map_subseteq_size, map_filter_subseteq. Qed.

Lemma flushing_size recv u : flushing recv u -> size (buffers u) = size recv.
Proof.
  intros [_ _ _ Hb _]. rewrite <- !size_dom. f_equal.
  apply set_eq; intros j. rewrite !elem_of_dom, Hb. apply fmap_is_Some.
Qed.

(** The flush loop ends by its own test before its bound is reached, and
    leaves the cursor on a part that has not been received. *)
Lemma write_completion_loop_settles fuel :
  forall w l u recv,
    heap w !! l = Some u ->
    flushing recv u ->
    (size (pending recv (part_number u)) ≤ fuel)%nat ->
    exists u',
      write_completion_loop fuel l w = (Return tt, set_obj l u' w)
      /\ settled recv u' /\ path u' = path u /\ upload_id u' = upload_id u.
Proof.
  induction fuel as [|fuel IH]; intros w l u recv Hl Hfl Hsize.
  - destruct (recv !! part_number u) as [d|] eqn:Hd.
    { apply pending_next in Hd. lia. }
    exists u. split_and!; [|done..].
    cbn [write_completion_loop].
    rewrite (bind_run _ _ _ _ _ (deref_run _ _ _ Hl)).
    rewrite (fl_buffers _ _ Hfl), Hd; simpl. by rewrite set_obj_id.
  - destruct (recv !! part_number u) as [d|] eqn:Hd.
    + pose proof (pending_next _ _ _ Hd) as Hnext.
      destruct Hfl as [Hopen Hc Hcontig Hbuf Hwr].
      rewrite (write_completion_loop_round _ _ _ u d); [|done..|].
      2:{ eexists. rewrite Hbuf, Hd; simpl. split; [done|].
          simpl. case_bool_decide; done || lia. }
      match goal with |- context [set_obj l ?v w] => set (u1 := v) end.
      destruct (IH (set_obj l u1 w) l u1 recv (heap_set_obj _ _ _))
        as (u' & Hrun & Hset & Hpath & Hid); [| |exists u'].
      * split; simpl; [done|lia| | |].
        -- intros i Hi. destruct (decide (i = part_number u)) as [->|].
           ++ by rewrite Hd.
           ++ apply Hcontig; lia.
        -- intros p. destruct (decide (p = part_number u)) as [->|Hne].
           ++ rewrite lookup_alter_eq, Hbuf, Hd; simpl.
              by rewrite buffer_at_cursor.
           ++ rewrite lookup_alter_ne, Hbuf by done.
              destruct (recv !! p); simpl; [|done].
              by rewrite buffer_at_next.
        -- rewrite Hwr. replace (part_number u + 1 - 1) with (part_number u - 1 + 1) by lia.
           rewrite parts_upto_next by lia. f_equal. unfold part_data.
           replace (part_number u - 1 + 1) with (part_number u) by lia.
           by rewrite Hd.
      * simpl. lia.
      * rewrite Hrun, set_obj_twice. split_and!; done.
    + exists u. split_and!; [|done..].
      cbn [write_completion_loop].
      rewrite (bind_run _ _ _ _ _ (deref_run _ _ _ Hl)).
      rewrite (fl_buffers _ _ Hfl), Hd; simpl. by rewrite set_obj_id.
Qed.

Lemma trigger_write_completion_settles w l u recv :
  heap w !! l = Some u ->
  flushing recv u ->
  exists u',
    trigger_write_completion l w = (Return tt, set_obj l u' w)
    /\ settled recv u' /\ path u' = path u /\ upload_id u' = upload_id u.
Proof.
  intros Hl Hfl. unfold trigger_write_completion.
  rewrite (bind_run _ _ _ _ _ (deref_run _ _ _ Hl)).
  apply write_completion_loop_settles; [done..|].
  rewrite (flushing_size _ _ Hfl). apply pending_size.
Qed.

(** A settled uploader is left as it is by the flush. *)
Lemma trigger_write_completion_idle w l u recv :
  heap w !! l = Some u -> settled recv u ->
  trigger_write_completion l w = (Return tt, w).
Proof.
  intros Hl [Hfl Hgap]. unfold trigger_write_completion.
  rewrite (bind_run _ _ _ _ _ (deref_run _ _ _ Hl)).
  destruct (size (buffers u)); cbn [write_completion_loop];
    rewrite (bind_run _ _ _ _ _ (deref_run _ _ _ Hl));
    by rewrite (fl_buffers _ _ Hfl), Hgap.
Qed.


(** *** [write] *)

Lemma write_duplicate w l u recv p d :
  heap w !! l = Some u -> flushing recv u -> is_Some (recv !! p) ->
  write l p d w = (Raise (HTTPError 400), w).
Proof.
  intros Hl Hfl Hp. unfold write.
  rewrite (bind_run _ _ _ _ _ (deref_run _ _ _ Hl)).
  rewrite decide_True; [done|].
  apply elem_of_dom. rewrite (fl_buffers _ _ Hfl). by apply fmap_is_Some.
Qed.

Lemma write_fresh w l u recv p d :
  heap w !! l = Some u -> settled recv u -> recv !! p = None ->
  exists u',
    write l p d w = (Return tt, set_obj l u' w)
    /\ settled (<[p := d]> recv) u'
    /\ path u' = path u /\ upload_id u' = upload_id u.
Proof.
  intros Hl [[Hopen Hc Hcontig Hbuf Hwr] Hgap] Hp. unfold write.
  rewrite (bind_run _ _ _ _ _ (deref_run _ _ _ Hl)).
  rewrite decide_False.
  2:{ rewrite elem_of_dom, Hbuf, Hp. by intros [? ?]. }
  erewrite bind_run by (by apply update_run).
  assert (¬ 1 ≤ p < part_number u) as Hout.
  { intros Hin. destruct (Hcontig p Hin) as [? ?]. congruence. }
  match goal with |- context [set_obj l ?v w] => set (u1 := v) end.
  destruct (trigger_write_completion_settles (set_obj l u1 w) l u1 (<[p := d]> recv))
    as (u' & Hrun & Hset & Hpath & Hid).
  - apply heap_set_obj.
  - split; simpl; [done..| | |].
    + intros i Hi. rewrite lookup_insert_ne by (intros ->; done).
      by apply Hcontig.
    + intros q. destruct (decide (q = p)) as [->|Hne].
      * rewrite !lookup_insert_eq; simpl. unfold MultipartBuffer_init, buffer_at.
        by rewrite bool_decide_eq_false_2.
      * rewrite !lookup_insert_ne by done. apply Hbuf.
    + rewrite Hwr. apply parts_upto_ext. intros i Hi.
      rewrite lookup_insert_ne; [done|]. intros ->. lia.
  - exists u'. rewrite Hrun, set_obj_twice. done.
Qed.

(** *** The registry *)

Lemma factory_found w id l o :
  multipart_uploaders w !! id = Some l ->
  MultipartUploaderFactory id o w = (Return (Some l), w).
Proof.
  intros H. unfold MultipartUploaderFactory.
  erewrite bind_run; [|unfold lookup_uploader; by rewrite H]. done.
Qed.

Lemma factory_missing w id :
  multipart_uploaders w !! id = None ->
  MultipartUploaderFactory id None w = (Return None, w).
Proof.
  intros H. unfold MultipartUploaderFactory.
  erewrite bind_run; [|unfold lookup_uploader; by rewrite H]. done.
Qed.

Lemma write_part_no_upload w id p d :
  multipart_uploaders w !! id = None ->
  write_part id p d w = (Raise (HTTPError 404), w).
Proof.
  intros H. unfold write_part.
  by rewrite (bind_run _ _ _ _ _ (factory_missing _ _ H)).
Qed.

Lemma session_set_obj w id recv recv' l u u' :
  session w id recv l u ->
  path u' = path u -> upload_id u' = upload_id u -> settled recv' u' ->
  session (set_obj l u' w) id recv' l u'.
Proof.
  intros [Hreg Hobj Hid Hfile _] Hpath Hid' Hset.
  split; simpl; [done|apply lookup_insert_eq|congruence|by rewrite Hpath|done].
Qed.

Lemma write_part_duplicate w id recv l u p d :
  session w id recv l u -> is_Some (recv !! p) ->
  write_part id p d w = (Raise (HTTPError 400), w).
Proof.
  intros [Hreg Hobj Hid Hfile [Hfl _]] Hp. unfold write_part.
  rewrite (bind_run _ _ _ _ _ (factory_found _ _ _ _ Hreg)).
  by erewrite bind_raise by (by eapply write_duplicate).
Qed.

Lemma write_part_fresh w id recv l u p d :
  session w id recv l u -> recv !! p = None ->
  exists u',
    write_part id p d w = (Return (MD5.hexdigest d), set_obj l u' w)
    /\ session (set_obj l u' w) id (<[p := d]> recv) l u'
    /\ path u' = path u.
Proof.
  intros Hs Hp. pose proof Hs as [Hreg Hobj Hid Hfile Hset].
  destruct (write_fresh w l u recv p d Hobj Hset Hp)
    as (u' & Hrun & Hset' & Hpath & Hid').
  exists u'. split_and!; [|by eapply session_set_obj|done].
  unfold write_part.
  rewrite (bind_run _ _ _ _ _ (factory_found _ _ _ _ Hreg)).
  rewrite (bind_run _ _ _ _ _ Hrun).
  rewrite (bind_run _ _ _ _ _ (deref_run _ _ _ (heap_set_obj _ _ _))).
  destruct Hset' as [Hfl _]. rewrite (fl_buffers _ _ Hfl), lookup_insert_eq.
  done.
Qed.

Lemma initiate_upload_session w id pth :
  multipart_uploaders w !! id = None -> pth ≠ [] ->
  exists w' l u,
    initiate_upload id pth w = (Return id, w')
    /\ session w' id ∅ l u /\ path u = pth
    /\ fs w' = {[pth]} ∪ fs w.
Proof.
  intros Hreg Hpth. destruct pth as [|c pth]; [done|].
  set (l := fresh (dom (heap w))).
  set (u := mkUploader (c :: pth) id (mkFile (c :: pth) false []) 1 ∅).
  exists (mkWorld (<[l := u]> (heap w)) (<[id := l]> (multipart_uploaders w))
                  ({[c :: pth]} ∪ fs w)), l, u.
  split_and!.
  - unfold initiate_upload, MultipartUploaderFactory, lookup_uploader,
      MultipartUploader_init, open_w, alloc, register_uploader, deref,
      mbind, M_bind, mret, M_ret.
    rewrite Hreg. cbn. fold l. rewrite lookup_insert_eq. done.
  - split; simpl.
    + apply lookup_insert_eq.
    + apply lookup_insert_eq.
    + done.
    + set_solver.
    + split; [split; simpl; try done; try lia|done].
  - done.
  - done.
Qed.


Lemma bind_inv {A B} (m : M A) (k : A -> M B) w b w' :
  (m ≫= k) w = (Return b, w') ->
  exists a w1, m w = (Return a, w1) /\ k a w1 = (Return b, w').
Proof.
  unfold mbind, M_bind. destruct (m w) as [[a|e] w1]; [eauto|done].
Qed.

(** *** Sequences of part uploads *)

Lemma write_parts_session calls :
  forall w id recv l u es w',
    session w id recv l u ->
    write_parts id calls w = (Return es, w') ->
    exists u',
      session w' id (received calls ∪ recv) l u'
      /\ path u' = path u /\ fs w' = fs w
      /\ NoDup calls.*1
      /\ (forall p, p ∈ calls.*1 -> recv !! p = None)
      /\ es = (fun c => MD5.hexdigest c.2) <$> calls.
Proof.
  induction calls as [|[p d] rest IH]; intros w id recv l u es w' Hs Hrun.
  - injection Hrun as <- <-. exists u. unfold received; simpl.
    rewrite (left_id_L ∅ (∪)). split_and!; try done; [constructor|].
    intros p Hp. by apply elem_of_nil in Hp.
  - cbn [write_parts] in Hrun.
    apply bind_inv in Hrun as (e & w1 & Hpart & Hrun).
    apply bind_inv in Hrun as (es' & w2 & Hrest & Hrun).
    injection Hrun as <- <-.
    destruct (recv !! p) as [d0|] eqn:Hp.
    { erewrite write_part_duplicate in Hpart by done. done. }
    destruct (write_part_fresh w id recv l u p d Hs Hp)
      as (u1 & Hrun1 & Hs1 & Hpath1).
    rewrite Hrun1 in Hpart. injection Hpart as <- <-.
    destruct (IH _ _ _ _ _ _ _ Hs1 Hrest)
      as (u' & Hs' & Hpath & Hfs & Hnd & Hfresh & ->).
    assert (p ∉ rest.*1) as Hnotin.
    { intros Hin. apply Hfresh in Hin. by rewrite lookup_insert_eq in Hin. }
    exists u'. split_and!.
    + unfold received in *. cbn [list_to_map]. simpl.
      rewrite <- insert_union_l, insert_union_r; [done|].
      by apply not_elem_of_list_to_map_1.
    + congruence.
    + by rewrite Hfs.
    + simpl. by constructor.
    + intros q [->|Hq]%elem_of_cons; [done|].
      specialize (Hfresh q Hq).
      rewrite lookup_insert_ne in Hfresh; [done|]. by intros ->.
    + done.
Qed.

(** Part numbers that are new and pairwise different are all accepted. *)
Lemma write_parts_accepts calls :
  forall w id recv l u,
    session w id recv l u ->
    NoDup calls.*1 ->
    (forall p, p ∈ calls.*1 -> recv !! p = None) ->
    exists w', write_parts id calls w
               = (Return ((fun c => MD5.hexdigest c.2) <$> calls), w').
Proof.
  induction calls as [|[p d] rest IH]; intros w id recv l u Hs Hnd Hfresh.
  - by exists w.
  - simpl in Hnd. apply NoDup_cons in Hnd as [Hnotin Hnd].
    destruct (write_part_fresh w id recv l u p d Hs) as (u1 & Hrun1 & Hs1 & _).
    { apply Hfresh. simpl. apply elem_of_cons; by left. }
    destruct (IH _ _ _ _ _ Hs1 Hnd) as (w' & Hrest).
    { intros q Hq. rewrite lookup_insert_ne by (by intros ->).
      apply Hfresh. simpl. apply elem_of_cons; by right. }
    exists w'. cbn [write_parts].
    rewrite (bind_run _ _ _ _ _ Hrun1), (bind_run _ _ _ _ _ Hrest). done.
Qed.

(** *** [close] and [abort] *)

Lemma set_file_same u : set_file (file u) u = u.
Proof. by destruct u. Qed.

Lemma on_file_run w l u op f' :
  heap w !! l = Some u -> op (file u) = Return f' ->
  on_file l op w = (Return tt, set_obj l (set_file f' u) w).
Proof.
  intros Hl Hop. unfold on_file.
  rewrite (bind_run _ _ _ _ _ (deref_run _ _ _ Hl)), Hop.
  by apply update_run.
Qed.

Lemma close_session w id recv l u :
  session w id recv l u ->
  close l w
  = (Return tt, mkWorld (<[l := set_file (file_close (file u)) u]> (heap w))
                        (delete id (multipart_uploaders w)) (fs w)).
Proof.
  intros [Hreg Hobj Hid Hfile Hset]. unfold close.
  rewrite (bind_run _ _ _ _ _ (trigger_write_completion_idle _ _ _ _ Hobj Hset)).
  destruct Hset as [[Hopen _ _ _ _] _].
  erewrite bind_run.
  2:{ eapply on_file_run; [done|]. unfold file_flush. by rewrite Hopen. }
  rewrite set_file_same, (set_obj_id _ _ _ Hobj).
  erewrite bind_run by (by eapply on_file_run).
  rewrite (bind_run _ _ _ _ _ (deref_run _ _ _ (heap_set_obj _ _ _))).
  unfold del_uploader; simpl. by rewrite Hid, Hreg.
Qed.

Lemma abort_session w id recv l u :
  session w id recv l u ->
  abort l w
  = (Return tt, mkWorld (<[l := set_file (file_close (file u)) u]> (heap w))
                        (delete id (multipart_uploaders w))
                        (fs w ∖ {[path u]})).
Proof.
  intros [Hreg Hobj Hid Hfile Hset]. unfold abort.
  erewrite bind_run by (by eapply on_file_run).
  rewrite (bind_run _ _ _ _ _ (deref_run _ _ _ (heap_set_obj _ _ _))).
  erewrite bind_run.
  2:{ unfold unlink; simpl. by rewrite decide_True. }
  erewrite bind_run.
  2:{ unfold deref; simpl. by rewrite lookup_insert_eq. }
  unfold del_uploader; simpl. by rewrite Hid, Hreg.
Qed.

Lemma part_etags_received recv u cursor pns :
  (forall p, buffers u !! p = buffer_at cursor p <$> recv !! p) ->
  (forall i, i ∈ pns -> is_Some (recv !! i)) ->
  part_etags u pns
  = Return ((fun i => (i, MD5.hexdigest (part_data recv i))) <$> pns).
Proof.
  intros Hfl. induction pns as [|i pns IH]; intros Hin; [done|].
  cbn [part_etags]. destruct (Hin i) as [d Hd]; [by left|].
  rewrite Hfl, Hd; simpl.
  rewrite IH by (intros j Hj; apply Hin; by right).
  unfold part_data. by rewrite Hd.
Qed.

Lemma complete_upload_session w id recv l u :
  session w id recv l u ->
  complete_upload id w
  = (Return ((fun i => (i, MD5.hexdigest (part_data recv i)))
               <$> seqZ 1 (part_number u - 1)),
     mkWorld (<[l := set_file (file_close (file u)) u]> (heap w))
             (delete id (multipart_uploaders w)) (fs w)).
Proof.
  intros Hs. pose proof Hs as [Hreg Hobj Hid Hfile [Hfl Hgap]].
  unfold complete_upload.
  rewrite (bind_run _ _ _ _ _ (factory_found _ _ _ _ Hreg)).
  rewrite (bind_run _ _ _ _ _ (close_session _ _ _ _ _ Hs)).
  erewrite bind_run.
  2:{ unfold deref; simpl. by rewrite lookup_insert_eq. }
  simpl. unfold range.
  rewrite (part_etags_received recv _ (part_number u)); [done| |].
  - apply (fl_buffers _ _ Hfl).
  - intros i [n [-> Hn]%lookup_seqZ]%list_elem_of_lookup.
    apply (fl_contig _ _ Hfl). lia.
Qed.

Lemma abort_upload_session w id recv l u :
  session w id recv l u ->
  abort_upload id w
  = (Return tt, mkWorld (<[l := set_file (file_close (file u)) u]> (heap w))
                        (delete id (multipart_uploaders w))
                        (fs w ∖ {[path u]})).
Proof.
  intros Hs. unfold abort_upload.
  rewrite (bind_run _ _ _ _ _ (factory_found _ _ _ _ (sess_registered _ _ _ _ _ Hs))).
  by eapply abort_session.
Qed.


(** *** From the invariant to the calls *)

Lemma received_lookup calls p d :
  NoDup calls.*1 -> received calls !! p = Some d <-> (p, d) ∈ calls.
Proof. intros Hnd. unfold received. symmetry. by apply elem_of_list_to_map. Qed.

Lemma received_None calls p :
  received calls !! p = None <-> p ∉ calls.*1.
Proof. unfold received. symmetry. apply not_elem_of_list_to_map. Qed.

Lemma upload_run_session w0 id pth calls etags w :
  multipart_uploaders w0 !! id = None -> pth ≠ [] ->
  upload_run id pth calls w0 = (Return etags, w) ->
  exists l u,
    session w id (received calls) l u /\ path u = pth /\ NoDup calls.*1
    /\ etags = (fun c => MD5.hexdigest c.2) <$> calls.
Proof.
  intros Hreg Hpth Hrun. unfold upload_run in Hrun.
  apply bind_inv in Hrun as (id' & w1 & Hinit & Hrun).
  destruct (initiate_upload_session w0 id pth Hreg Hpth)
    as (w1' & l & u0 & Hinit' & Hs0 & Hpath0 & _).
  rewrite Hinit' in Hinit. injection Hinit as <- <-.
  destruct (write_parts_session _ _ _ _ _ _ _ _ Hs0 Hrun)
    as (u & Hs & Hpath & _ & Hnd & _ & ->).
  rewrite (right_id_L ∅ (∪)) in Hs.
  exists l, u. split_and!; [done|congruence|done..].
Qed.

Lemma settled_all_received calls u :
  NoDup calls.*1 -> settled (received calls) u ->
  all_received calls (part_number u - 1)
  /\ (forall d, (part_number u, d) ∉ calls)
  /\ (forall k, all_received calls k -> k ≤ part_number u - 1).
Proof.
  intros Hnd [Hfl Hgap].
  assert (forall d, (part_number u, d) ∉ calls) as Hnot.
  { intros d Hin. apply received_lookup in Hin; [|done]. congruence. }
  split_and!; [|done|].
  - intros i Hi. destruct (fl_contig _ _ Hfl i) as [d Hd]; [lia|].
    exists d. by apply received_lookup.
  - intros k Hk. destruct (decide (k ≤ part_number u - 1)); [done|].
    destruct (Hk (part_number u)) as [d Hd].
    + pose proof (fl_cursor _ _ Hfl). lia.
    + by apply Hnot in Hd.
Qed.

Lemma settled_written calls u :
  NoDup calls.*1 -> settled (received calls) u ->
  exists ds,
    length ds = Z.to_nat (part_number u - 1)
    /\ payloads_in_order calls ds
    /\ f_written (file u) = mjoin ds
    /\ zip (seqZ 1 (part_number u - 1)) (MD5.hexdigest <$> ds)
       = (fun i => (i, MD5.hexdigest (part_data (received calls) i)))
           <$> seqZ 1 (part_number u - 1).
Proof.
  intros Hnd [Hfl Hgap].
  exists (part_data (received calls) <$> seqZ 1 (part_number u - 1)).
  split_and!.
  - by rewrite length_fmap, length_seqZ.
  - intros n d. rewrite list_lookup_fmap.
    destruct (seqZ 1 (part_number u - 1) !! n) as [i|] eqn:Hi; [|done].
    apply lookup_seqZ in Hi as [-> Hn]. simpl. intros [= <-].
    destruct (fl_contig _ _ Hfl (1 + Z.of_nat n)) as [d Hd]; [lia|].
    unfold part_data. rewrite Hd; simpl.
    apply received_lookup; [done|]. by rewrite Z.add_comm.
  - apply (fl_written _ _ Hfl).
  - rewrite <- list_fmap_compose.
    generalize (seqZ 1 (part_number u - 1)). intros ks.
    induction ks as [|i ks IH]; [done|]. simpl. by f_equal.
Qed.

Lemma settled_buffers calls u p d :
  NoDup calls.*1 -> settled (received calls) u -> (p, d) ∈ calls ->
  buffers u !! p
  = Some (mkBuffer (if bool_decide (1 ≤ p ≤ part_number u - 1) then None else Some d)
                   (MD5.hexdigest d)).
Proof.
  intros Hnd [Hfl _] Hin. apply received_lookup in Hin; [|done].
  rewrite (fl_buffers _ _ Hfl), Hin; simpl. unfold buffer_at. do 2 f_equal.
  repeat case_bool_decide; done || lia.
Qed.


End upload.

(** *** Ordered reassembly *)

(** C1. After an upload has been initiated and any sequence of part
    uploads has succeeded, in whatever order the part numbers came, the
    bytes written to the destination file are the payloads of the parts
    [1 .. k] in part-number order, where [k] is the largest number with
    all of [1 .. k] received (the flush cursor is at [k + 1]); every
    other received part is still in [buffers] with its payload, and the
    parts [1 .. k] have had their payload dropped after being written. *)
Theorem ordered_reassembly (w0 : World) (id pth : str)
    (calls : list (Z * str)) (etags : list str) (w : World) :
  multipart_uploaders w0 !! id = None ->
  pth ≠ [] ->
  upload_run id pth calls w0 = (Return etags, w) ->
  exists (l : loc) (u : MultipartUploader) (k : Z) (ds : list str),
    multipart_uploaders w !! id = Some l /\ heap w !! l = Some u
    /\ 0 ≤ k /\ part_number u = k + 1
    /\ all_received calls k
    /\ (forall k', all_received calls k' -> k' ≤ k)
    /\ length ds = Z.to_nat k /\ payloads_in_order calls ds
    /\ f_written (file u) = mjoin ds
    /\ f_closed (file u) = false
    /\ (forall p d, (p, d) ∈ calls -> ¬ 1 ≤ p ≤ k ->
          buffers u !! p = Some (mkBuffer (Some d) (MD5.hexdigest d)))
    /\ (forall p d, (p, d) ∈ calls -> 1 ≤ p ≤ k ->
          buffers u !! p = Some (mkBuffer None (MD5.hexdigest d))).
Proof.
  intros Hreg Hpth Hrun.
  destruct (upload_run_session _ _ _ _ _ _ Hreg Hpth Hrun)
    as (l & u & Hs & Hpath & Hnd & _).
  pose proof Hs as [Hl Hu _ _ Hset].
  destruct (settled_all_received _ _ Hnd Hset) as (Hall & _ & Hmax).
  destruct (settled_written _ _ Hnd Hset) as (ds & Hlen & Hord & Hwr & _).
  pose proof (fl_cursor _ _ (proj1 Hset)) as Hc.
  exists l, u, (part_number u - 1), ds.
  split_and!; try done; try lia.
  - apply (fl_open _ _ (proj1 Hset)).
  - intros p d Hin Hout. rewrite (settled_buffers calls u p d) by done.
    by rewrite bool_decide_eq_false_2.
  - intros p d Hin Hp. rewrite (settled_buffers calls u p d) by done.
    by rewrite bool_decide_eq_true_2.
Qed.

(** Part 2 first, then part 1: the file reads A then B. *)
Lemma ordered_reassembly_witness :
  exists (l : loc) (u : MultipartUploader) (k : Z) (ds : list str),
    let calls := [(2, b"B"); (1, b"A")] in
    let w := (upload_run demo_id demo_path calls empty_world).2 in
    multipart_uploaders w !! demo_id = Some l /\ heap w !! l = Some u
    /\ 0 ≤ k /\ part_number u = k + 1
    /\ all_received calls k
    /\ (forall k', all_received calls k' -> k' ≤ k)
    /\ length ds = Z.to_nat k /\ payloads_in_order calls ds
    /\ f_written (file u) = mjoin ds
    /\ f_closed (file u) = false
    /\ (forall p d, (p, d) ∈ calls -> ¬ 1 ≤ p ≤ k ->
          buffers u !! p = Some (mkBuffer (Some d) (MD5.hexdigest d)))
    /\ (forall p d, (p, d) ∈ calls -> 1 ≤ p ≤ k ->
          buffers u !! p = Some (mkBuffer None (MD5.hexdigest d))).
Proof.
  apply (ordered_reassembly empty_world demo_id demo_path
           [(2, b"B"); (1, b"A")]
           [MD5.hexdigest (b"B"); MD5.hexdigest (b"A")]).
  - reflexivity.
  - discriminate.
  - vm_compute. reflexivity.
Defined.

Example part_two_before_part_one :
  let w := (upload_run demo_id demo_path [(2, b"B"); (1, b"A")];;
            complete_upload demo_id) empty_world in
  w.1 = Return [(1, MD5.hexdigest (b"A")); (2, MD5.hexdigest (b"B"))]
  /\ (f_written ∘ file <$> (map_to_list (heap w.2)).*2) = [b"AB"].
Proof. vm_compute. done. Qed.

Example part_two_alone_stays_buffered :
  let w := (upload_run demo_id demo_path [(2, b"B")] empty_world).2 in
  (fun u => (f_written (file u), part_number u, data <$> buffers u !! 2))
    <$> (map_to_list (heap w)).*2
  = [([], 1, Some (Some (b"B")))].
Proof. vm_compute. done. Qed.

(** Any arrival order is accepted as long as no part number repeats. *)
Lemma any_order_accepted (w0 : World) (id pth : str) (calls : list (Z * str)) :
  multipart_uploaders w0 !! id = None -> pth ≠ [] -> NoDup calls.*1 ->
  exists w, upload_run id pth calls w0
            = (Return ((fun c => MD5.hexdigest c.2) <$> calls), w).
Proof.
  intros Hreg Hpth Hnd.
  destruct (initiate_upload_session w0 id pth Hreg Hpth)
    as (w1 & l & u0 & Hinit & Hs0 & _).
  destruct (write_parts_accepts calls _ _ _ _ _ Hs0 Hnd) as (w & Hrun).
  { intros p _. apply lookup_empty. }
  exists w. unfold upload_run. by rewrite (bind_run _ _ _ _ _ Hinit).
Qed.

(** *** Duplicate parts *)

(** C4. In an upload that has accepted [calls], a part number that was
    already accepted, flushed or not, is refused with status 400 and
    the world is left as it was, so the earlier payload is not
    overwritten; a part number seen for the first time is accepted and
    the digest of its payload is returned as the ETag. *)
Theorem part_accepted_once (w0 : World) (id pth : str)
    (calls : list (Z * str)) (etags : list str) (w : World) (p : Z) (d : str) :
  multipart_uploaders w0 !! id = None ->
  pth ≠ [] ->
  upload_run id pth calls w0 = (Return etags, w) ->
  (p ∈ calls.*1 -> write_part id p d w = (Raise (HTTPError 400), w))
  /\ (p ∉ calls.*1 ->
       exists (w' : World) (l : loc) (u : MultipartUploader) (dat : option str),
         write_part id p d w = (Return (MD5.hexdigest d), w')
         /\ multipart_uploaders w' !! id = Some l /\ heap w' !! l = Some u
         /\ buffers u !! p = Some (mkBuffer dat (MD5.hexdigest d))).
Proof.
  intros Hreg Hpth Hrun.
  destruct (upload_run_session _ _ _ _ _ _ Hreg Hpth Hrun)
    as (l & u & Hs & Hpath & Hnd & _).
  split; intros Hp.
  - eapply write_part_duplicate; [done|].
    destruct (received calls !! p) eqn:Hrecv; [done|].
    by apply received_None in Hrecv.
  - apply received_None in Hp.
    destruct (write_part_fresh w id _ l u p d Hs Hp) as (u' & Hw & Hs' & _).
    pose proof Hs' as [Hl' Hu' _ _ [Hfl _]].
    eexists _, l, u', _. split_and!; [done..|].
    by rewrite (fl_buffers _ _ Hfl), lookup_insert_eq.
Qed.

Lemma part_accepted_once_witness :
  let calls := [(2, b"B"); (1, b"A")] in
  let w := (upload_run demo_id demo_path calls empty_world).2 in
  (1 ∈ calls.*1 -> write_part demo_id 1 (b"X") w = (Raise (HTTPError 400), w))
  /\ (1 ∉ calls.*1 ->
       exists (w' : World) (l : loc) (u : MultipartUploader) (dat : option str),
         write_part demo_id 1 (b"X") w = (Return (MD5.hexdigest (b"X")), w')
         /\ multipart_uploaders w' !! demo_id = Some l /\ heap w' !! l = Some u
         /\ buffers u !! 1 = Some (mkBuffer dat (MD5.hexdigest (b"X")))).
Proof.
  apply (part_accepted_once empty_world demo_id demo_path
           [(2, b"B"); (1, b"A")]
           [MD5.hexdigest (b"B"); MD5.hexdigest (b"A")]).
  - reflexivity.
  - discriminate.
  - vm_compute. reflexivity.
Defined.

Example second_part_one_refused :
  ((upload_run demo_id demo_path [(1, b"A")];;
    write_part demo_id 1 (b"A")) empty_world).1 = Raise (HTTPError 400)
  /\ ((upload_run demo_id demo_path [(2, b"B")];;
       write_part demo_id 2 (b"X")) empty_world).1 = Raise (HTTPError 400).
Proof. vm_compute. done. Qed.

(** *** Completion *)

(** The claim of C5 fails when a gap was never filled: part 2 was
    received and buffered, yet the completion reports no part. *)
Lemma complete_omits_parts_after_gap :
  ((upload_run demo_id demo_path [(2, b"B")];;
    complete_upload demo_id) empty_world).1 = Return []
  /\ ((upload_run demo_id demo_path [(1, b"A"); (3, b"C")];;
       complete_upload demo_id) empty_world).1
     = Return [(1, MD5.hexdigest (b"A"))].
Proof. vm_compute. done. Qed.

(** C5, amended. Completing an upload that has accepted [calls] succeeds:
    the flush cursor rests on a part that is not in [buffers] (nothing
    is left to flush), the file is closed holding the payloads of the
    parts [1 .. k] in order, the upload id is no longer registered, and
    the result lists [(i, digest of part i)] for [i = 1 .. k], the
    flushed parts only. *)
Theorem complete_reports_flushed_parts (w0 : World) (id pth : str)
    (calls : list (Z * str)) (etags : list str) (w : World) :
  multipart_uploaders w0 !! id = None ->
  pth ≠ [] ->
  upload_run id pth calls w0 = (Return etags, w) ->
  exists (l : loc) (u : MultipartUploader) (k : Z) (ds : list str) (w' : World),
    complete_upload id w
      = (Return (zip (seqZ 1 k) (MD5.hexdigest <$> ds)), w')
    /\ multipart_uploaders w !! id = Some l
    /\ multipart_uploaders w' = delete id (multipart_uploaders w)
    /\ fs w' = fs w
    /\ heap w' !! l = Some u
    /\ f_closed (file u) = true
    /\ f_written (file u) = mjoin ds
    /\ part_number u = k + 1 /\ buffers u !! (k + 1) = None
    /\ length ds = Z.to_nat k /\ payloads_in_order calls ds
    /\ all_received calls k /\ (forall k', all_received calls k' -> k' ≤ k).
Proof.
  intros Hreg Hpth Hrun.
  destruct (upload_run_session _ _ _ _ _ _ Hreg Hpth Hrun)
    as (l & u & Hs & Hpath & Hnd & _).
  pose proof Hs as [Hl Hu _ _ Hset].
  destruct (settled_all_received _ _ Hnd Hset) as (Hall & _ & Hmax).
  destruct (settled_written _ _ Hnd Hset) as (ds & Hlen & Hord & Hwr & Hzip).
  eexists l, _, (part_number u - 1), ds, _.
  split_and!.
  - rewrite (complete_upload_session _ _ _ _ _ Hs), Hzip. reflexivity.
  - done.
  - done.
  - done.
  - simpl. apply lookup_insert_eq.
  - done.
  - done.
  - simpl. lia.
  - simpl. replace (part_number u - 1 + 1) with (part_number u) by lia.
    destruct Hset as [Hfl Hgap]. by rewrite (fl_buffers _ _ Hfl), Hgap.
  - done.
  - done.
  - done.
  - done.
Qed.

Lemma complete_reports_flushed_parts_witness :
  let calls := [(3, b"C"); (1, b"A")] in
  let w := (upload_run demo_id demo_path calls empty_world).2 in
  exists (l : loc) (u : MultipartUploader) (k : Z) (ds : list str) (w' : World),
    complete_upload demo_id w
      = (Return (zip (seqZ 1 k) (MD5.hexdigest <$> ds)), w')
    /\ multipart_uploaders w !! demo_id = Some l
    /\ multipart_uploaders w' = delete demo_id (multipart_uploaders w)
    /\ fs w' = fs w
    /\ heap w' !! l = Some u
    /\ f_closed (file u) = true
    /\ f_written (file u) = mjoin ds
    /\ part_number u = k + 1 /\ buffers u !! (k + 1) = None
    /\ length ds = Z.to_nat k /\ payloads_in_order calls ds
    /\ all_received calls k /\ (forall k', all_received calls k' -> k' ≤ k).
Proof.
  apply (complete_reports_flushed_parts empty_world demo_id demo_path
           [(3, b"C"); (1, b"A")]
           [MD5.hexdigest (b"C"); MD5.hexdigest (b"A")]).
  - reflexivity.
  - discriminate.
  - vm_compute. reflexivity.
Defined.

(** *** Abort *)


(** An upload that was initiated and has accepted [calls] (none at all
    included), with no other request in between: its file is in place,
    and aborting it succeeds. *)
Corollary abort_after_parts (w0 : World) (id pth : str)
    (calls : list (Z * str)) (etags : list str) (w : World) :
  multipart_uploaders w0 !! id = None ->
  pth ≠ [] ->
  upload_run id pth calls w0 = (Return etags, w) ->
  exists (l : loc) (u : MultipartUploader) (w' : World),
    abort_upload id w = (Return tt, w')
    /\ multipart_uploaders w !! id = Some l
    /\ pth ∈ fs w
    /\ heap w' !! l = Some u /\ f_closed (file u) = true
    /\ (pth ∉ fs w')
    /\ multipart_uploaders w' !! id = None
    /\ (forall p d, write_part id p d w' = (Raise (HTTPError 404), w')).
Proof.
  intros Hreg Hpth Hrun.
  destruct (upload_run_session _ _ _ _ _ _ Hreg Hpth Hrun)
    as (l & u & Hs & Hpath & Hnd & _).
  pose proof Hs as [Hl Hu _ Hfile _].
  eexists l, _, _. split_and!.
  - by eapply abort_upload_session.
  - done.
  - by rewrite <- Hpath.
  - simpl. apply lookup_insert_eq.
  - done.
  - simpl. rewrite Hpath. apply not_elem_of_difference. right. by apply elem_of_singleton.
  - simpl. apply lookup_delete_eq.
  - intros p d. apply write_part_no_upload. simpl. apply lookup_delete_eq.
Qed.




Example abort_with_parts_buffered :
  ((upload_run demo_id demo_path [(1, b"A"); (3, b"C")];;
    abort_upload demo_id;;
    write_part demo_id 2 (b"B")) empty_world).1 = Raise (HTTPError 404).
Proof. vm_compute. done. Qed.

(** *** Leaving the registry *)

(** The claim of C9 fails: removing an id that is not registered raises
    KeyError. *)
Lemma del_uploader_absent_raises :
  del_uploader demo_id empty_world = (Raise KeyError, empty_world).
Proof. reflexivity. Qed.

(** C9, amended. The removal step of [close] and [abort] deletes the
    entry of a registered id and returns; on an id that is not
    registered it raises KeyError and leaves the world as it was. *)
Theorem del_uploader_spec (w : World) (id : str) :
  match multipart_uploaders w !! id with
  | Some _ =>
      exists w', del_uploader id w = (Return tt, w')
                 /\ multipart_uploaders w' = delete id (multipart_uploaders w)
                 /\ heap w' = heap w /\ fs w' = fs w
  | None => del_uploader id w = (Raise KeyError, w)
  end.
Proof.
  unfold del_uploader. destruct (multipart_uploaders w !! id); [|done].
  by eexists.
Qed.

(** The error reaches the caller of [close] and of [abort]: an uploader
    whose id has left the registry has its file closed (and removed, for
    [abort]) and then fails. *)
Lemma close_unregistered_raises (w : World) (l : loc) (u : MultipartUploader)
    (recv : gmap Z str) :
  heap w !! l = Some u -> settled recv u ->
  multipart_uploaders w !! upload_id u = None ->
  close l w = (Raise KeyError, set_obj l (set_file (file_close (file u)) u) w).
Proof.
  intros Hobj Hset Hreg. unfold close.
  rewrite (bind_run _ _ _ _ _ (trigger_write_completion_idle _ _ _ _ Hobj Hset)).
  destruct Hset as [[Hopen _ _ _ _] _].
  erewrite bind_run.
  2:{ eapply on_file_run; [done|]. unfold file_flush. by rewrite Hopen. }
  rewrite set_file_same, (set_obj_id _ _ _ Hobj).
  erewrite bind_run by (by eapply on_file_run).
  rewrite (bind_run _ _ _ _ _ (deref_run _ _ _ (heap_set_obj _ _ _))).
  unfold del_uploader; simpl. by rewrite Hreg.
Qed.

Lemma abort_unregistered_raises (w : World) (l : loc) (u : MultipartUploader) :
  heap w !! l = Some u -> path u ∈ fs w ->
  multipart_uploaders w !! upload_id u = None ->
  (abort l w).1 = Raise KeyError.
Proof.
  intros Hobj Hfile Hreg. unfold abort.
  erewrite bind_run by (by eapply on_file_run).
  rewrite (bind_run _ _ _ _ _ (deref_run _ _ _ (heap_set_obj _ _ _))).
  erewrite bind_run.
  2:{ unfold unlink; simpl. by rewrite decide_True. }
  erewrite bind_run.
  2:{ unfold deref; simpl. by rewrite lookup_insert_eq. }
  unfold del_uploader; simpl. by rewrite Hreg.
Qed.

(** *** Part numbers below one *)

(** The claim of C10 fails for a part number that was already received:
    the second upload of part 0 is refused like any other duplicate. *)
Lemma nonpositive_duplicate_refused :
  ((upload_run demo_id demo_path [(0, b"A")];;
    write_part demo_id 0 (b"B")) empty_world).1 = Raise (HTTPError 400).
Proof. vm_compute. done. Qed.

(** C10, amended. In an upload that has accepted [calls1], a part number
    [p <= 0] not received before is accepted and the digest of its
    payload is returned. Whatever parts [calls2] are accepted afterwards,
    the payload of [p] stays in [buffers] (the flush drops the payload
    of what it writes), the cursor is above [p], and the file holds
    payloads of parts of [calls1] and [calls2] only; completing the
    upload leaves the payload of [p] in [buffers], writes nothing more
    and does not report [p]. *)
Theorem nonpositive_part_never_flushed (w0 : World) (id pth : str)
    (calls1 : list (Z * str)) (etags1 : list str) (w1 : World)
    (p : Z) (d : str) :
  multipart_uploaders w0 !! id = None ->
  pth ≠ [] ->
  upload_run id pth calls1 w0 = (Return etags1, w1) ->
  p ≤ 0 ->
  p ∉ calls1.*1 ->
  exists w1' : World,
    write_part id p d w1 = (Return (MD5.hexdigest d), w1')
    /\ forall (calls2 : list (Z * str)) (etags2 : list str) (w2 : World),
         write_parts id calls2 w1' = (Return etags2, w2) ->
         exists (l : loc) (u : MultipartUploader) (ds : list str),
           multipart_uploaders w2 !! id = Some l /\ heap w2 !! l = Some u
           /\ buffers u !! p = Some (mkBuffer (Some d) (MD5.hexdigest d))
           /\ p < part_number u
           /\ payloads_in_order (calls1 ++ calls2) ds
           /\ f_written (file u) = mjoin ds
           /\ exists (result : list (Z * str)) (w3 : World) (u3 : MultipartUploader),
                complete_upload id w2 = (Return result, w3)
                /\ heap w3 !! l = Some u3
                /\ f_written (file u3) = mjoin ds
                /\ buffers u3 !! p = Some (mkBuffer (Some d) (MD5.hexdigest d))
                /\ p ∉ result.*1.
Proof.
  intros Hreg Hpth Hrun Hp Hfresh.
  destruct (upload_run_session _ _ _ _ _ _ Hreg Hpth Hrun)
    as (l & u1 & Hs1 & Hpath1 & Hnd1 & _).
  apply received_None in Hfresh.
  destruct (write_part_fresh w1 id _ l u1 p d Hs1 Hfresh) as (u1' & Hw & Hs1' & _).
  eexists. split; [exact Hw|].
  intros calls2 etags2 w2 Hrun2.
  destruct (write_parts_session _ _ _ _ _ _ _ _ Hs1' Hrun2)
    as (u & Hs & _ & _ & Hnd2 & Hfresh2 & _).
  set (calls := calls2 ++ (p, d) :: calls1).
  assert (received calls2 ∪ <[p:=d]> (received calls1) = received calls) as Hrecv.
  { unfold received, calls. by rewrite list_to_map_app. }
  rewrite Hrecv in Hs.
  assert (NoDup calls.*1) as Hnd.
  { unfold calls. rewrite fmap_app. apply NoDup_app. split_and!; [done| |].
    - intros q Hq Hq'. apply Hfresh2 in Hq.
      apply elem_of_cons in Hq' as [->|Hq'].
      + by rewrite lookup_insert_eq in Hq.
      + rewrite lookup_insert_ne in Hq.
        * by apply received_None in Hq.
        * intros ->. by apply received_None in Hfresh.
    - simpl. apply NoDup_cons. split; [|done]. by apply received_None. }
  pose proof Hs as [Hl Hu _ _ Hset].
  destruct (settled_written _ _ Hnd Hset) as (ds & Hlen & Hord & Hwr & Hzip).
  pose proof (fl_cursor _ _ (proj1 Hset)) as Hc.
  assert ((p, d) ∈ calls) as Hin.
  { unfold calls. apply elem_of_app. right. by left. }
  assert (buffers u !! p = Some (mkBuffer (Some d) (MD5.hexdigest d))) as Hbuf.
  { rewrite (settled_buffers calls u p d) by done.
    rewrite bool_decide_eq_false_2; [done|lia]. }
  exists l, u, ds. split_and!; try done; try lia.
  - intros n d' Hn. apply Hord in Hn. unfold calls in Hn.
    apply elem_of_app in Hn as [Hn|Hn]; apply elem_of_app; [by right|].
    apply elem_of_cons in Hn as [[= ? ?]|Hn]; [lia|by left].
  - eexists _, _, _. rewrite (complete_upload_session _ _ _ _ _ Hs).
    split_and!; [reflexivity|simpl; apply lookup_insert_eq|done..|].
    rewrite <- list_fmap_compose.
    intros [n [i [Hi [-> _]%lookup_seqZ]]%list_lookup_fmap_Some]%list_elem_of_lookup.
    simpl in Hi. lia.
Qed.

Lemma nonpositive_part_never_flushed_witness :
  let w1 := (upload_run demo_id demo_path [(2, b"B")] empty_world).2 in
  exists w1' : World,
    write_part demo_id 0 (b"Z") w1 = (Return (MD5.hexdigest (b"Z")), w1')
    /\ forall (calls2 : list (Z * str)) (etags2 : list str) (w2 : World),
         write_parts demo_id calls2 w1' = (Return etags2, w2) ->
         exists (l : loc) (u : MultipartUploader) (ds : list str),
           multipart_uploaders w2 !! demo_id = Some l /\ heap w2 !! l = Some u
           /\ buffers u !! 0 = Some (mkBuffer (Some (b"Z")) (MD5.hexdigest (b"Z")))
           /\ 0 < part_number u
           /\ payloads_in_order ([(2, b"B")] ++ calls2) ds
           /\ f_written (file u) = mjoin ds
           /\ exists (result : list (Z * str)) (w3 : World) (u3 : MultipartUploader),
                complete_upload demo_id w2 = (Return result, w3)
                /\ heap w3 !! l = Some u3
                /\ f_written (file u3) = mjoin ds
                /\ buffers u3 !! 0 = Some (mkBuffer (Some (b"Z")) (MD5.hexdigest (b"Z")))
                /\ 0 ∉ result.*1.
Proof.
  apply (nonpositive_part_never_flushed empty_world demo_id demo_path
           [(2, b"B")] [MD5.hexdigest (b"B")]).
  - reflexivity.
  - discriminate.
  - vm_compute. reflexivity.
  - lia.
  - vm_compute. intros H. repeat (apply elem_of_cons in H as [H|H]; [discriminate H|]).
    by apply elem_of_nil in H.
Defined.

Example part_zero_is_lost :
  let w := (upload_run demo_id demo_path [(0, b"Z"); (1, b"A"); (-1, b"Y")];;
            complete_upload demo_id) empty_world in
  w.1 = Return [(1, MD5.hexdigest (b"A"))]
  /\ (f_written ∘ file <$> (map_to_list (heap w.2)).*2) = [b"A"].
Proof. vm_compute. done. Qed.

(** ** The order on byte strings *)

Lemma ord_inj (c c' : ascii) : ord c = ord c' -> c = c'.
Proof.
  unfold ord. intros H. apply N2Z.inj in H.
  rewrite <- (ascii_N_embedding c), <- (ascii_N_embedding c'). by rewrite H.
Qed.

Lemma str_compare_refl (x : str) : str_compare x x = Eq.
Proof. induction x as [|c x IH]; [done|]. simpl. by rewrite Z.compare_refl. Qed.

Lemma str_compare_eq (x y : str) : str_compare x y = Eq -> x = y.
Proof.
  revert y. induction x as [|c x IH]; intros [|c' y]; simpl; try done.
  destruct (ord c ?= ord c') eqn:Hc; try done.
  intros H. apply Z.compare_eq in Hc. f_equal; [by apply ord_inj|by apply IH].
Qed.

Lemma str_compare_antisym (x y : str) :
  str_compare y x = CompOpp (str_compare x y).
Proof.
  revert y. induction x as [|c x IH]; intros [|c' y]; simpl; try done.
  rewrite (Z.compare_antisym (ord c) (ord c')).
  destruct (ord c ?= ord c'); simpl; [apply IH|done..].
Qed.

Lemma str_compare_lt_trans (x y z : str) :
  str_compare x y = Lt -> str_compare y z = Lt -> str_compare x z = Lt.
Proof.
  revert y z. induction x as [|c x IH]; intros [|c' y] [|c'' z]; simpl; try done.
  destruct (ord c ?= ord c') eqn:H1; try done;
    destruct (ord c' ?= ord c'') eqn:H2; try done; intros Hx Hy.
  - apply Z.compare_eq in H1, H2. rewrite H1, H2, Z.compare_refl. eauto.
  - apply Z.compare_eq in H1. by rewrite H1, H2.
  - apply Z.compare_eq in H2. by rewrite <- H2, H1.
  - rewrite Z.compare_lt_iff in H1, H2.
    assert ((ord c ?= ord c'') = Lt) as -> by (apply Z.compare_lt_iff; lia). done.
Qed.

Lemma str_lt_spec (x y : str) : str_lt x y = true <-> str_compare x y = Lt.
Proof. unfold str_lt. by destruct (str_compare x y). Qed.

Lemma str_le_spec (x y : str) : str_le x y <-> str_compare x y ≠ Gt.
Proof.
  unfold str_le, str_lt. rewrite (str_compare_antisym x y).
  by destruct (str_compare x y).
Qed.

Lemma str_lt_le (x y : str) : str_lt x y = true -> str_le x y.
Proof. rewrite str_lt_spec, str_le_spec. by intros ->. Qed.

Lemma str_lt_irrefl (x : str) : str_lt x x = false.
Proof. unfold str_lt. by rewrite str_compare_refl. Qed.

#[global] Instance str_le_refl : Reflexive str_le.
Proof. intros x. apply str_lt_irrefl. Qed.

#[global] Instance str_le_trans : Transitive str_le.
Proof.
  intros x y z. rewrite !str_le_spec. intros Hxy Hyz Hxz.
  rewrite (str_compare_antisym z x) in Hxz.
  destruct (str_compare z x) eqn:Hzx; try done.
  destruct (str_compare x y) eqn:H1; try done.
  - apply str_compare_eq in H1 as ->.
    rewrite (str_compare_antisym z y), Hzx in Hyz. done.
  - pose proof (str_compare_lt_trans _ _ _ Hzx H1) as Hzy.
    rewrite (str_compare_antisym z y), Hzy in Hyz. done.
Qed.

#[global] Instance str_le_total : Total str_le.
Proof.
  intros x y. rewrite !str_le_spec, (str_compare_antisym x y).
  destruct (str_compare x y); simpl; auto.
Qed.

#[global] Instance str_le_antisym : AntiSymm (=) str_le.
Proof.
  intros x y. rewrite !str_le_spec, (str_compare_antisym x y).
  destruct (str_compare x y) eqn:H; simpl; try done.
  intros _ _. by apply str_compare_eq.
Qed.

(** [x < y] and [y <= z] give [x < z]; [x <= y] and [y < z] too. *)
Lemma str_lt_le_trans (x y z : str) :
  str_lt x y = true -> str_le y z -> str_lt x z = true.
Proof.
  intros Hxy Hyz. destruct (str_lt x z) eqn:Hxz; [done|].
  assert (str_le z x) as Hzx by done.
  assert (str_le y x) as Hyx by (by etrans).
  unfold str_le in Hyx. congruence.
Qed.

Lemma str_le_lt_trans (x y z : str) :
  str_le x y -> str_lt y z = true -> str_lt x z = true.
Proof.
  intros Hxy Hyz. destruct (str_lt x z) eqn:Hxz; [done|].
  assert (str_le z x) as Hzx by done.
  assert (str_le z y) as Hzy by (by etrans).
  unfold str_le in Hzy. congruence.
Qed.

(** ** Bucket listing *)

Lemma sorted_lookup_le (a : list str) (i j : nat) (x y : str) :
  StronglySorted str_le a ->
  (i ≤ j)%nat -> a !! i = Some x -> a !! j = Some y -> str_le x y.
Proof.
  intros Ha. revert i j.
  induction Ha as [|z l Hl IH Hz]; intros i j Hij Hi Hj; [done|].
  destruct i as [|i], j as [|j]; simpl in *; try lia.
  - injection Hi as <-. injection Hj as <-. reflexivity.
  - injection Hi as <-. rewrite Forall_forall in Hz.
    apply Hz. by eapply list_elem_of_lookup_2.
  - apply (IH i j); [lia|done..].
Qed.

Section bisect.

Variable a : list str.
Hypothesis a_sorted : StronglySorted str_le a.

(** The two binary searches return, within their bound, the boundary
    between the keys that fail the test and the keys that pass it. *)
Lemma bisect_right_loop_spec (x : str) (fuel : nat) :
  forall lo hi : nat,
    (lo ≤ hi ≤ length a)%nat -> (hi - lo ≤ fuel)%nat ->
    exists s : nat,
      bisect_right_loop fuel a x lo hi = Return s
      /\ (lo ≤ s ≤ hi)%nat
      /\ (forall j k, (lo ≤ j < s)%nat -> a !! j = Some k -> str_lt x k = false)
      /\ (forall j k, (s ≤ j < hi)%nat -> a !! j = Some k -> str_lt x k = true).
Proof using a_sorted.
  induction fuel as [|fuel IH]; intros lo hi Hb Hf.
  - exists lo. simpl. rewrite (proj2 (Nat.ltb_ge lo hi)) by lia.
    split; [done|]; split; [lia|]; split; intros; lia.
  - cbn [bisect_right_loop]. destruct (lo <? hi)%nat eqn:Hlt.
    2:{ apply Nat.ltb_ge in Hlt. exists lo. split; [done|]; split; [lia|]; split; intros; lia. }
    apply Nat.ltb_lt in Hlt. cbv zeta.
    set (mid := ((lo + hi) / 2)%nat).
    assert (lo ≤ mid < hi)%nat as Hmid.
    { unfold mid. split.
      - apply Nat.div_le_lower_bound; lia.
      - apply Nat.Div0.div_lt_upper_bound; lia. }
    destruct (lookup_lt_is_Some_2 a mid) as [y Hy]; [lia|]. rewrite Hy.
    destruct (str_lt x y) eqn:Hxy.
    + destruct (IH lo mid) as (s & -> & Hs & Hlow & Hhigh); [lia..|].
      exists s. split; [done|]. split; [lia|]. split; [done|].
      intros j k Hj Hk. destruct (decide (j < mid)%nat); [apply (Hhigh j k); [lia|done]|].
      eapply str_lt_le_trans; [done|]. eapply (sorted_lookup_le a mid j); [done|lia|done..].
    + destruct (IH (mid + 1)%nat hi) as (s & -> & Hs & Hlow & Hhigh); [lia..|].
      exists s. split; [done|]. split; [lia|]. split; [|done].
      intros j k Hj Hk. destruct (decide (mid + 1 ≤ j)%nat); [apply (Hlow j k); [lia|done]|].
      assert (str_le k x) as Hkx; [|done].
      etrans; [eapply (sorted_lookup_le a j mid); [done|lia|done..]|done].
Qed.

Lemma bisect_left_loop_spec (x : str) (fuel : nat) :
  forall lo hi : nat,
    (lo ≤ hi ≤ length a)%nat -> (hi - lo ≤ fuel)%nat ->
    exists s : nat,
      bisect_left_loop fuel a x lo hi = Return s
      /\ (lo ≤ s ≤ hi)%nat
      /\ (forall j k, (lo ≤ j < s)%nat -> a !! j = Some k -> str_lt k x = true)
      /\ (forall j k, (s ≤ j < hi)%nat -> a !! j = Some k -> str_lt k x = false).
Proof using a_sorted.
  induction fuel as [|fuel IH]; intros lo hi Hb Hf.
  - exists lo. simpl. rewrite (proj2 (Nat.ltb_ge lo hi)) by lia.
    split; [done|]; split; [lia|]; split; intros; lia.
  - cbn [bisect_left_loop]. destruct (lo <? hi)%nat eqn:Hlt.
    2:{ apply Nat.ltb_ge in Hlt. exists lo. split; [done|]; split; [lia|]; split; intros; lia. }
    apply Nat.ltb_lt in Hlt. cbv zeta.
    set (mid := ((lo + hi) / 2)%nat).
    assert (lo ≤ mid < hi)%nat as Hmid.
    { unfold mid. split.
      - apply Nat.div_le_lower_bound; lia.
      - apply Nat.Div0.div_lt_upper_bound; lia. }
    destruct (lookup_lt_is_Some_2 a mid) as [y Hy]; [lia|]. rewrite Hy.
    destruct (str_lt y x) eqn:Hyx.
    + destruct (IH (mid + 1)%nat hi) as (s & -> & Hs & Hlow & Hhigh); [lia..|].
      exists s. split; [done|]. split; [lia|]. split; [|done].
      intros j k Hj Hk. destruct (decide (mid + 1 ≤ j)%nat); [apply (Hlow j k); [lia|done]|].
      eapply str_le_lt_trans; [|done]. eapply (sorted_lookup_le a j mid); [done|lia|done..].
    + destruct (IH lo mid) as (s & -> & Hs & Hlow & Hhigh); [lia..|].
      exists s. split; [done|]. split; [lia|]. split; [done|].
      intros j k Hj Hk. destruct (decide (j < mid)%nat); [apply (Hhigh j k); [lia|done]|].
      assert (str_le x k) as Hxk; [|done].
      etrans; [|eapply (sorted_lookup_le a mid j); [done|lia|done..]]. done.
Qed.

Lemma bisect_right_spec (x : str) (lo : nat) :
  (lo ≤ length a)%nat ->
  exists s : nat,
    bisect_right a x lo = Return s
    /\ first_index_from lo (fun k => str_lt x k = true) a s
    /\ (forall j k, (s ≤ j)%nat -> a !! j = Some k -> str_lt x k = true).
Proof using a_sorted.
  intros Hlo.
  destruct (bisect_right_loop_spec x (length a) lo (length a))
    as (s & Hrun & Hs & Hlow & Hhigh); [lia..|].
  exists s. split; [done|]. split.
  - split; [lia|]. split.
    + intros j k Hj Hk. rewrite (Hlow j k Hj Hk). done.
    + intros k Hk. apply (Hhigh s); [|done].
      apply lookup_lt_Some in Hk. lia.
  - intros j k Hj Hk. apply (Hhigh j); [|done].
    apply lookup_lt_Some in Hk. lia.
Qed.

Lemma bisect_left_spec (x : str) (lo : nat) :
  (lo ≤ length a)%nat ->
  exists s : nat,
    bisect_left a x lo = Return s
    /\ first_index_from lo (str_le x) a s
    /\ (forall j k, (s ≤ j)%nat -> a !! j = Some k -> str_le x k).
Proof using a_sorted.
  intros Hlo.
  destruct (bisect_left_loop_spec x (length a) lo (length a))
    as (s & Hrun & Hs & Hlow & Hhigh); [lia..|].
  exists s. split; [done|]. split.
  - split; [lia|]. split.
    + intros j k Hj Hk. unfold str_le. rewrite (Hlow j k Hj Hk). done.
    + intros k Hk. apply (Hhigh s); [|done].
      apply lookup_lt_Some in Hk. lia.
  - intros j k Hj Hk. apply (Hhigh j); [|done].
    apply lookup_lt_Some in Hk. lia.
Qed.

End bisect.

Lemma start_position_sorted (keys : list str) (prefix marker : str) :
  StronglySorted str_le keys ->
  exists s1 s2 : nat,
    start_position keys prefix marker = Return s2
    /\ (if nonempty marker
        then first_index_from 0 (fun k => str_lt marker k = true) keys s1
        else s1 = 0%nat)
    /\ (if nonempty prefix
        then first_index_from s1 (str_le prefix) keys s2
        else s2 = s1)
    /\ (s1 ≤ s2 ≤ length keys)%nat.
Proof.
  intros Hsorted. unfold start_position.
  assert (exists s1 : nat,
    (if nonempty marker then bisect_right keys marker 0 else Return 0%nat) = Return s1
    /\ (if nonempty marker
        then first_index_from 0 (fun k => str_lt marker k = true) keys s1
        else s1 = 0%nat)
    /\ (s1 ≤ length keys)%nat) as (s1 & -> & Hs1 & Hlen).
  { destruct (nonempty marker).
    - destruct (bisect_right_spec keys Hsorted marker 0) as (s1 & Hrun & Hfirst & _); [lia|].
      exists s1. split_and!; [done..|]. destruct Hfirst as [? _]. lia.
    - exists 0%nat. split_and!; [done..|lia]. }
  destruct (nonempty prefix).
  - destruct (bisect_left_spec keys Hsorted prefix s1 Hlen) as (s2 & Hrun & Hfirst & _).
    exists s1, s2. split_and!; [done..| |]; destruct Hfirst as [? _]; lia.
  - exists s1, s1. split_and!; [done..|lia|lia].
Qed.

(** C7. On a sorted key sequence the scan starts at the smallest index
    whose key is above the marker (at 0 for an empty marker) and, for a
    non-empty prefix, moves forward from there to the smallest index
    whose key is at least the prefix; where no such key exists the index
    is the length of the sequence. In the bucket with the keys a, ab, b
    and c, marker a lists ab, b, c, and prefix a lists a, ab without
    truncation, for a terse request and for one that is not. *)
Theorem scan_start_position (keys : list str) (prefix marker : str) :
  StronglySorted str_le keys ->
  (exists s1 s2 : nat,
     start_position keys prefix marker = Return s2
     /\ (if nonempty marker
         then first_index_from 0 (fun k => str_lt marker k = true) keys s1
         else s1 = 0%nat)
     /\ (if nonempty prefix
         then first_index_from s1 (str_le prefix) keys s2
         else s2 = s1)
     /\ (s1 ≤ s2 ≤ length keys)%nat)
  /\ (forall terse,
        demo_listing demo_bucket (b"") (b"a") 50 terse
        = Return (mkListing (b"b") (b"") (b"c") 50 false
                            (demo_entry terse <$> [b"ab"; b"b"; b"c"])))
  /\ (forall terse,
        demo_listing demo_bucket (b"a") (b"") 50 terse
        = Return (mkListing (b"b") (b"a") (b"ab") 50 false
                            (demo_entry terse <$> [b"a"; b"ab"]))).
Proof.
  intros Hsorted. split; [by apply start_position_sorted|].
  split; intros [|p|p]; vm_compute; reflexivity.
Qed.

Lemma scan_start_position_witness :
  let keys := [b"a"; b"ab"; b"b"; b"c"] in
  (exists s1 s2 : nat,
     start_position keys (b"b") (b"a") = Return s2
     /\ (if nonempty (b"a")
         then first_index_from 0 (fun k => str_lt (b"a") k = true) keys s1
         else s1 = 0%nat)
     /\ (if nonempty (b"b")
         then first_index_from s1 (str_le (b"b")) keys s2
         else s2 = s1)
     /\ (s1 ≤ s2 ≤ length keys)%nat)
  /\ (forall terse,
        demo_listing demo_bucket (b"") (b"a") 50 terse
        = Return (mkListing (b"b") (b"") (b"c") 50 false
                            (demo_entry terse <$> [b"ab"; b"b"; b"c"])))
  /\ (forall terse,
        demo_listing demo_bucket (b"a") (b"") 50 terse
        = Return (mkListing (b"b") (b"a") (b"ab") 50 false
                            (demo_entry terse <$> [b"a"; b"ab"]))).
Proof.
  apply (scan_start_position [b"a"; b"ab"; b"b"; b"c"] (b"b") (b"a")).
  repeat (constructor; [|repeat constructor; vm_compute; reflexivity]).
  constructor.
Defined.

Example start_positions :
  start_position [b"a"; b"ab"; b"b"; b"c"] (b"") (b"a") = Return 1%nat
  /\ start_position [b"a"; b"ab"; b"b"; b"c"] (b"b") (b"a") = Return 2%nat
  /\ start_position [b"a"; b"ab"; b"b"; b"c"] (b"a") (b"b") = Return 3%nat
  /\ start_position [b"a"; b"ab"; b"b"; b"c"] (b"") (b"zz") = Return 4%nat.
Proof. vm_compute. done. Qed.

(** *** The keys that the scan collects *)

Lemma last_cons_default (k : str) (l : list str) :
  last (k :: l) = Some (default k (last l)).
Proof.
  revert k. induction l as [|k' l IH]; intros k; [done|].
  change (last (k :: k' :: l)) with (last (k' :: l)). by rewrite IH.
Qed.

Lemma scan_spec (names : list str) (prefix : str) (max_keys : Z) :
  forall (collected : list str) (marker : str),
  exists (n : nat) (t : bool),
    scan_keys names prefix max_keys collected marker
    = (collected ++ take n names, default marker (last (take n names)), t)
    /\ (n ≤ length names)%nat
    /\ Forall (fun k => startswith k prefix = true) (take n names)
    /\ (n = 0%nat \/ Z.of_nat (length collected + n) ≤ max_keys)
    /\ match names !! n with
       | None => t = false
       | Some k =>
           if startswith k prefix
           then t = true /\ max_keys ≤ Z.of_nat (length collected + n)
           else t = false
       end.
Proof.
  induction names as [|k rest IH]; intros contents marker.
  - exists 0%nat, false. simpl. rewrite app_nil_r.
    split_and!; [done|lia|constructor|by left|done].
  - cbn [scan_keys]. destruct (startswith k prefix) eqn:Hk; simpl.
    2:{ exists 0%nat, false. simpl. rewrite app_nil_r, Hk.
        split_and!; [done|lia|constructor|by left|done]. }
    destruct (Z.of_nat (length contents) >=? max_keys) eqn:Hcount.
    { apply Z.geb_le in Hcount.
      exists 0%nat, true. simpl. rewrite app_nil_r, Hk.
      split; [done|]. split; [lia|]. split; [constructor|].
      split; [by left|]. split; [done|lia]. }
    assert (Z.of_nat (length contents) < max_keys) as Hlt.
    { destruct (Z.geb_spec (Z.of_nat (length contents)) max_keys); [done|lia]. }
    destruct (IH (contents ++ [k]) k) as (n & t & Hrun & Hn & Hall & Hmax & Hnext).
    exists (S n), t. rewrite Hrun. rewrite length_app in *. simpl in *.
    split; [|split; [|split; [|split]]].
    + rewrite <- app_assoc. simpl. rewrite last_cons_default. done.
    + lia.
    + by constructor.
    + right. lia.
    + destruct (rest !! n) as [k'|]; [|done].
      destruct (startswith k' prefix); [|done]. split; [tauto|lia].
Qed.

(** *** The entries *)

Lemma entry_key cwd stat app bucket terse (k : str) (c : Content) :
  entry cwd stat app bucket terse k = Return c -> Key c = k.
Proof.
  unfold entry. destruct (terse =? 0); [|by intros [= <-]].
  destruct (stat _) as [info|]; [|done].
  destruct (utcfromtimestamp _); [|done]. by intros [= <-].
Qed.

Lemma entry_terse cwd stat app bucket terse (k : str) :
  terse ≠ 0 ->
  entry cwd stat app bucket terse k = Return (mkContent k None None).
Proof.
  intros Ht. unfold entry. by rewrite (proj2 (Z.eqb_neq _ _) Ht).
Qed.

Lemma entry_raises cwd stat app bucket terse (k : str) (e : exn) :
  entry cwd stat app bucket terse k = Raise e ->
  terse = 0 /\ (e = OSError \/ e = ValueError).
Proof.
  unfold entry. destruct (Z.eqb_spec terse 0) as [->|_]; [|done].
  destruct (stat _) as [info|]; [|intros [= <-]; by auto].
  unfold utcfromtimestamp. destruct (_ && _); [done|].
  intros [= <-]. by auto.
Qed.

Lemma entries_Return cwd stat app bucket terse (ks : list str) (es : list Content) :
  entries cwd stat app bucket terse ks = Return es <->
  Forall2 (fun k c => entry cwd stat app bucket terse k = Return c) ks es.
Proof.
  revert es. induction ks as [|k ks IH]; intros es; cbn [entries].
  - split; [intros [= <-]; constructor|by intros ->%Forall2_nil_inv_l].
  - split.
    + destruct (entry _ _ _ _ _ k) as [c|] eqn:Hc; [|done].
      destruct (entries _ _ _ _ _ ks) as [cs|] eqn:Hcs; [|done].
      intros [= <-]. constructor; [done|]. by apply IH.
    + intros (c & cs & Hc & Hcs & ->)%Forall2_cons_inv_l.
      apply IH in Hcs. by rewrite Hc, Hcs.
Qed.

Lemma entries_Raise cwd stat app bucket terse (ks : list str) (e : exn) :
  entries cwd stat app bucket terse ks = Raise e ->
  exists k, k ∈ ks /\ entry cwd stat app bucket terse k = Raise e.
Proof.
  induction ks as [|k ks IH]; cbn [entries]; [done|].
  destruct (entry _ _ _ _ _ k) as [c|e'] eqn:Hc.
  - destruct (entries _ _ _ _ _ ks) as [cs|e'']; [done|].
    intros [= <-]. destruct IH as (k' & Hk' & He); [done|].
    exists k'. split; [by apply list_elem_of_further|done].
  - intros [= <-]. exists k. split; [apply list_elem_of_here|done].
Qed.

Lemma entries_keys cwd stat app bucket terse (ks : list str) (es : list Content) :
  entries cwd stat app bucket terse ks = Return es -> Key <$> es = ks.
Proof.
  rewrite entries_Return. induction 1 as [|k c ks es Hc _ IH]; [done|].
  rewrite fmap_cons, IH. f_equal. by eapply entry_key.
Qed.

Lemma entries_app cwd stat ap bucket terse (xs ys : list str) :
  entries cwd stat ap bucket terse (xs ++ ys)
  = match entries cwd stat ap bucket terse xs with
    | Raise e => Raise e
    | Return a =>
        match entries cwd stat ap bucket terse ys with
        | Raise e => Raise e
        | Return c => Return (a ++ c)
        end
    end.
Proof.
  induction xs as [|x xs IH]; cbn [entries app].
  - by destruct (entries _ _ _ _ _ ys).
  - destruct (entry _ _ _ _ _ x); [|done]. rewrite IH.
    destruct (entries _ _ _ _ _ xs); [|done].
    by destruct (entries _ _ _ _ _ ys).
Qed.

(** The scan collects the entries of the keys of [scan_keys], one after
    the other, and stops at the first entry that raises. *)
Lemma scan_entries cwd stat app bucket terse (names : list str) (prefix : str)
    (max_keys : Z) :
  forall (contents : list Content) (marker : str),
    scan cwd stat app bucket terse names prefix max_keys contents marker
    = let '(ks, m, t) :=
        scan_keys names prefix max_keys (Key <$> contents) marker in
      match entries cwd stat app bucket terse (drop (length contents) ks) with
      | Raise e => Raise e
      | Return es => Return (contents ++ es, m, t)
      end.
Proof.
  assert (forall contents : list Content,
            drop (length contents) (Key <$> contents) = []) as Hdrop.
  { intros contents. apply drop_ge. by rewrite length_fmap. }
  induction names as [|k rest IH]; intros contents marker.
  - cbn [scan scan_keys]. rewrite Hdrop. cbn [entries]. by rewrite app_nil_r.
  - cbn [scan scan_keys]. destruct (startswith k prefix) eqn:Hk; cbn [negb].
    2:{ rewrite Hdrop. cbn [entries]. by rewrite app_nil_r. }
    rewrite length_fmap.
    destruct (Z.of_nat (length contents) >=? max_keys).
    { rewrite Hdrop. cbn [entries]. by rewrite app_nil_r. }
    destruct (scan_spec rest prefix max_keys ((Key <$> contents) ++ [k]) k)
      as (n & t & Hrun & _).
    rewrite Hrun.
    assert (drop (length contents) (((Key <$> contents) ++ [k]) ++ take n rest)
            = k :: take n rest) as ->.
    { rewrite <- app_assoc. rewrite drop_app_length'; [done|by rewrite length_fmap]. }
    cbn [entries].
    destruct (entry cwd stat app bucket terse k) as [c|e] eqn:Hc; [|done].
    rewrite IH, fmap_app. cbn [fmap list_fmap]. rewrite (entry_key _ _ _ _ _ _ _ Hc).
    rewrite Hrun.
    rewrite drop_app_length'; [|rewrite !length_app, length_fmap; done].
    destruct (entries _ _ _ _ _ (take n rest)); [|done].
    by rewrite <- app_assoc.
Qed.

(** A listing selects its keys and then makes their entries. *)
Lemma list_keys_select cwd stat app bucket (object_names : list str)
    (prefix marker : str) (max_keys terse : Z) :
  list_keys cwd stat app bucket object_names prefix marker max_keys terse
  = match select_keys object_names prefix marker max_keys with
    | Raise e => Raise e
    | Return (ks, m, t) =>
        match entries cwd stat app bucket terse ks with
        | Raise e => Raise e
        | Return es => Return (mkListing bucket prefix m max_keys t es)
        end
    end.
Proof.
  unfold list_keys, select_keys.
  destruct (start_position _ prefix marker) as [s|]; [|done].
  rewrite scan_entries. cbn [fmap list_fmap length].
  destruct (scan_keys _ _ _ _ _) as [[ks m] t]. rewrite drop_0.
  by destruct (entries _ _ _ _ _ ks).
Qed.

(** What a listing selects, in terms of the sorted keys. *)
Lemma select_keys_shape (object_names : list str) (prefix marker : str)
    (max_keys : Z) :
  let keys := merge_sort str_le object_names in
  exists (s n : nat) (t : bool),
    start_position keys prefix marker = Return s
    /\ select_keys object_names prefix marker max_keys
       = Return (take n (drop s keys),
                 default marker (last (take n (drop s keys))), t)
    /\ (s + n ≤ length keys)%nat
    /\ Forall (fun k => startswith k prefix = true) (take n (drop s keys))
    /\ (n = 0%nat \/ Z.of_nat n ≤ max_keys)
    /\ match keys !! (s + n)%nat with
       | None => t = false
       | Some k =>
           if startswith k prefix
           then t = true /\ max_keys ≤ Z.of_nat n
           else t = false
       end.
Proof.
  intros keys.
  destruct (start_position_sorted keys prefix marker) as (s1 & s & Hstart & _ & _ & Hs).
  { apply StronglySorted_merge_sort; apply _. }
  destruct (scan_spec (drop s keys) prefix max_keys [] marker)
    as (n & t & Hscan & Hn & Hall & Hmax & Hnext).
  exists s, n, t. rewrite length_drop in Hn. rewrite lookup_drop in Hnext.
  split; [done|]. split.
  { unfold select_keys. fold keys. by rewrite Hstart, Hscan. }
  split; [lia|]. split; [done|]. split; [done|]. done.
Qed.

(** The claim of C6 fails where the keys run out, or stop matching the
    prefix, just as their number reaches max_keys: one key was asked
    for and one was collected, yet the listing is not truncated. *)
Lemma count_reached_not_truncated :
  (forall terse,
     demo_listing [b"a"] (b"") (b"") 1 terse
     = Return (mkListing (b"b") (b"") (b"a") 1 false [demo_entry terse (b"a")]))
  /\ (forall terse,
        demo_listing [b"a"; b"b"] (b"a") (b"") 1 terse
        = Return (mkListing (b"b") (b"a") (b"a") 1 false [demo_entry terse (b"a")])).
Proof. split; intros [|p|p]; vm_compute; reflexivity. Qed.

(** C6, amended. The listing collects the keys from the start position
    on, one by one, and stops at the first key that does not start with
    the prefix (not truncated), or at the first key that does while
    max_keys keys or more are already collected (truncated), or when the
    keys run out (not truncated); it never collects more than max_keys
    keys. When it returns, Contents holds the entries of the collected
    keys, and the marker it reports is the last collected key, or the
    marker it was given when it collected none. It returns unless the
    entry of a collected key raises, which a terse request never does;
    then the listing raises the same. In the bucket with the keys a, ab,
    b and c, max_keys 1 lists a, truncated, with marker a. *)
Theorem listing_scan (cwd : str) (stat : str -> option stat_result)
    (app : S3Application) (bucket_name : str) (object_names : list str)
    (prefix marker : str) (max_keys terse : Z) :
  (exists (s n : nat) (t : bool),
     let keys := merge_sort str_le object_names in
     let collected := take n (drop s keys) in
     start_position keys prefix marker = Return s
     /\ length collected = n
     /\ Forall (fun k => startswith k prefix = true) collected
     /\ (n = 0%nat \/ Z.of_nat n ≤ max_keys)
     /\ match drop s keys !! n with
        | None => t = false
        | Some k =>
            if startswith k prefix
            then t = true /\ max_keys ≤ Z.of_nat n
            else t = false
        end
     /\ match list_keys cwd stat app bucket_name object_names
                        prefix marker max_keys terse with
        | Return r =>
            Name r = bucket_name /\ Prefix r = prefix /\ MaxKeys r = max_keys
            /\ Key <$> Contents r = collected
            /\ Forall2 (fun k c => entry cwd stat app bucket_name terse k = Return c)
                       collected (Contents r)
            /\ Marker r = default marker (last collected)
            /\ IsTruncated r = t
        | Raise e =>
            terse = 0
            /\ exists k, k ∈ collected
                 /\ entry cwd stat app bucket_name terse k = Raise e
        end)
  /\ (forall terse',
        demo_listing demo_bucket (b"") (b"") 1 terse'
        = Return (mkListing (b"b") (b"") (b"a") 1 true [demo_entry terse' (b"a")])).
Proof.
  split; [|intros [|p|p]; vm_compute; reflexivity].
  destruct (select_keys_shape object_names prefix marker max_keys)
    as (s & n & t & Hstart & Hsel & Hn & Hall & Hmax & Hnext).
  exists s, n, t. cbv zeta.
  split; [done|]. split; [rewrite length_take, length_drop; lia|].
  split; [done|]. split; [done|]. split; [by rewrite lookup_drop|].
  rewrite list_keys_select, Hsel.
  destruct (entries _ _ _ _ _ _) as [es|e] eqn:Hes.
  - cbn [Name Prefix MaxKeys Contents Marker IsTruncated].
    split; [done|]. split; [done|]. split; [done|].
    split; [by eapply entries_keys|]. split; [by apply entries_Return|]. done.
  - destruct (entries_Raise _ _ _ _ _ _ _ Hes) as (k & Hk & He).
    split; [by eapply entry_raises|]. by exists k.
Qed.

Example list_prefix_a :
  demo_listing demo_bucket (b"a") (b"") 50 0
  = Return (mkListing (b"b") (b"a") (b"ab") 50 false
              [mkContent (b"a") (Some 1700000000000000) (Some 3);
               mkContent (b"ab") (Some 1700000000000000) (Some 3)]).
Proof. vm_compute. reflexivity. Qed.

Example list_max_keys_0 :
  demo_listing demo_bucket (b"") (b"x") 0 1
  = Return (mkListing (b"b") (b"") (b"x") 0 false [])
  /\ demo_listing demo_bucket (b"") (b"a") 0 1
     = Return (mkListing (b"b") (b"") (b"a") 0 true []).
Proof. vm_compute. done. Qed.

(** A key whose file is not there: the listing raises unless the
    request is terse. *)
Example list_missing_file :
  demo_listing [b"a"; b"zz"] (b"") (b"") 50 0 = Raise OSError
  /\ demo_listing [b"a"; b"zz"] (b"") (b"") 1 0
     = Return (mkListing (b"b") (b"") (b"a") 1 true
                 [mkContent (b"a") (Some 1700000000000000) (Some 3)])
  /\ demo_listing [b"a"; b"zz"] (b"") (b"") 50 1
     = Return (mkListing (b"b") (b"") (b"zz") 50 false
                 [mkContent (b"a") None None; mkContent (b"zz") None None]).
Proof. vm_compute. done. Qed.

(** ** The path of an object *)

Example object_path_flat :
  _object_path demo_cwd (demo_app 0) (b"b") (b"dir/hello")
  = b"/tmp/s3/b/dir/hello".
Proof. vm_compute. reflexivity. Qed.

Example object_path_sharded :
  _object_path demo_cwd (demo_app 2) (b"b") (b"hello")
  = b"/tmp/s3/b/5d/5d41/hello".
Proof. vm_compute. reflexivity. Qed.

Example normpath_examples :
  normpath (b"/tmp//s3/./b/../c/") = b"/tmp/s3/c"
  /\ normpath (b"//a/b") = b"//a/b"
  /\ normpath (b"///a/b") = b"/a/b"
  /\ normpath (b"/..") = b"/"
  /\ normpath (b"a/../../b") = b"../b"
  /\ normpath (b"") = b".".
Proof. vm_compute. done. Qed.

Example strip_examples :
  strip_shard_prefix demo_cwd (demo_app 2) (b"b") (b"/tmp/s3/b/5d/5d41/hello") = b"hello"
  /\ strip_shard_prefix demo_cwd (demo_app 0) (b"b") (b"/tmp/s3/b/dir/hello") = b"dir/hello".
Proof. vm_compute. done. Qed.

Example put_examples :
  ObjectHandler_put_path demo_cwd demo_isdir (demo_app 0) (b"b") (b"../../etc/passwd")
    = Raise (HTTPError 403)
  /\ ObjectHandler_put_path demo_cwd demo_isdir (demo_app 0) (b"b") (b"../bc/x")
    = Return (b"/tmp/s3/bc/x")
  /\ ObjectHandler_put_path demo_cwd demo_isdir (demo_app 1) (b"b") (b"../../etc/passwd")
    = Return (b"/tmp/s3/b/42/../../etc/passwd")
  /\ descendant (b"/tmp/s3/b") (b"/tmp/s3/b/42/../../etc/passwd") = false
  /\ descendant (b"/tmp/s3/b") (b"/tmp/s3/bc/x") = false
  /\ descendant (b"/tmp/s3/b") (b"/tmp/s3/b/x/y") = true.
Proof. vm_compute. done. Qed.

(** *** Byte-string facts *)

Lemma startswith_app (p s : str) : startswith (p ++ s) p = true.
Proof.
  induction p as [|c p IH]; [by destruct s|].
  simpl. by rewrite bool_decide_eq_true_2, IH.
Qed.

Lemma endswith_slash (s : str) :
  endswith s (b"/") = bool_decide (last s = Some slash).
Proof.
  unfold endswith. destruct s as [|c s] using rev_ind; [done|].
  rewrite reverse_snoc, last_snoc. simpl.
  rewrite andb_true_r. destruct (decide (c = slash)) as [->|Hne].
  - by rewrite !bool_decide_eq_true_2.
  - rewrite !bool_decide_eq_false_2; [done|congruence|done].
Qed.

Lemma startswith_slash (s : str) :
  startswith s (b"/") = bool_decide (head s = Some slash).
Proof.
  destruct s as [|c s]; [done|]. simpl. rewrite andb_true_r.
  destruct (decide (c = slash)) as [->|Hne].
  - by rewrite !bool_decide_eq_true_2.
  - rewrite !bool_decide_eq_false_2; [done|congruence|done].
Qed.

Lemma join_relative (a p : str) :
  a ≠ [] -> last a ≠ Some slash -> head p ≠ Some slash ->
  join a p = a ++ b"/" ++ p.
Proof.
  intros Ha Hlast Hhead. unfold join.
  rewrite startswith_slash, bool_decide_eq_false_2 by done.
  rewrite endswith_slash, bool_decide_eq_false_2 by done.
  by destruct a.
Qed.

Lemma normpath_nonempty (p : str) : normpath p ≠ [].
Proof.
  unfold normpath. destruct (nonempty p); simpl; [|done].
  match goal with |- context [nonempty ?x] => destruct x eqn:E end; done.
Qed.

(** *** The digest in hexadecimal *)

Lemma hexdigest_length (msg : str) : length (MD5.hexdigest msg) = 32%nat.
Proof.
  unfold MD5.hexdigest. destruct (MD5.digest_words msg) as [[[a0 b0] c0] d0].
  reflexivity.
Qed.

Lemma hex_digit_not_slash (n : Z) : 0 ≤ n < 16 -> MD5.hex_digit n ≠ slash.
Proof.
  intros Hn.
  assert (n ∈ seqZ 0 16) as Hin.
  { apply list_elem_of_lookup. exists (Z.to_nat n). apply lookup_seqZ. lia. }
  clear Hn. vm_compute in Hin.
  repeat (apply elem_of_cons in Hin as [->|Hin]; [by vm_compute|]).
  by apply elem_of_nil in Hin.
Qed.

Lemma hex_byte_not_slash (x : Z) :
  0 ≤ x < 256 -> Forall (fun c => c ≠ slash) (MD5.hex_byte x).
Proof.
  intros Hx. unfold MD5.hex_byte.
  repeat constructor; apply hex_digit_not_slash.
  - rewrite Z.shiftr_div_pow2 by lia. change (2 ^ 4) with 16.
    split; [apply Z.div_pos; lia|apply Z.div_lt_upper_bound; lia].
  - change 15 with (Z.ones 4). rewrite Z.land_ones by lia.
    apply Z.mod_pos_bound. lia.
Qed.

Lemma land_255_range (w : Z) : 0 ≤ Z.land w 255 < 256.
Proof.
  change 255 with (Z.ones 8). rewrite Z.land_ones by lia.
  apply Z.mod_pos_bound. lia.
Qed.

Lemma hexdigest_not_slash (msg : str) :
  Forall (fun c => c ≠ slash) (MD5.hexdigest msg).
Proof.
  unfold MD5.hexdigest. destruct (MD5.digest_words msg) as [[[a0 b0] c0] d0].
  unfold MD5.hex_word.
  repeat (apply Forall_app; split); apply hex_byte_not_slash, land_255_range.
Qed.

(** *** Sharded paths *)

Lemma last_not_slash (comp : str) :
  Forall (fun c => c ≠ slash) comp -> last comp ≠ Some slash.
Proof.
  intros Hall Hlast. apply last_Some_elem_of in Hlast.
  rewrite Forall_forall in Hall. by apply (Hall slash).
Qed.

Lemma head_not_slash (comp : str) :
  Forall (fun c => c ≠ slash) comp -> head comp ≠ Some slash.
Proof. destruct comp as [|c comp]; [done|]. intros Hall [= ->]. by inv Hall. Qed.

(** The loop over the shard levels appends one "/" and one digest prefix
    per level; the loop that computes the skip counts their lengths. *)
Lemma shard_fold (h : str) (ks : list Z) :
  Forall (fun c => c ≠ slash) h ->
  (forall i, i ∈ ks -> 0 ≤ i /\ 2 * (i + 1) ≤ Z.of_nat (length h)) ->
  forall (p : str) (skip : Z),
    p ≠ [] -> last p ≠ Some slash ->
    exists shards : str,
      foldl (fun path i => join path (take (Z.to_nat (2 * (i + 1))) h)) p ks
      = p ++ shards
      /\ foldl (fun skip i => skip + (2 * (i + 1) + 1)) skip ks
         = skip + Z.of_nat (length shards)
      /\ last (p ++ shards) ≠ Some slash.
Proof.
  intros Hh. induction ks as [|i ks IH]; intros Hks p skip Hp Hlast.
  - exists []. simpl. rewrite app_nil_r. split_and!; [done|lia|done].
  - destruct (Hks i) as [Hi Hlen]; [by left|].
    set (comp := take (Z.to_nat (2 * (i + 1))) h).
    assert (Forall (fun c => c ≠ slash) comp) as Hcomp by (by apply Forall_take).
    assert (length comp = Z.to_nat (2 * (i + 1))) as Hclen.
    { unfold comp. rewrite length_take. lia. }
    assert (comp ≠ []) as Hne.
    { intros Heq. rewrite Heq in Hclen. simpl in Hclen. lia. }
    destruct (IH (fun j Hj => Hks j (list_elem_of_further _ _ _ Hj))
                (p ++ b"/" ++ comp) (skip + (2 * (i + 1) + 1)))
      as (shards & Hpath & Hskip & Hlast').
    + by destruct p.
    + rewrite app_assoc, last_app.
      destruct (last comp) eqn:Hl; [|by apply last_None in Hl].
      rewrite <- Hl. by apply last_not_slash.
    + exists (b"/" ++ comp ++ shards). cbn [foldl]. fold comp.
      rewrite (join_relative p comp Hp Hlast (head_not_slash _ Hcomp)).
      rewrite Hpath, Hskip. split_and!.
      * by rewrite <- !app_assoc.
      * rewrite !length_app, Hclen. simpl. lia.
      * by rewrite <- !app_assoc in Hlast'.
Qed.

Lemma object_path_sharded_shape (cwd : str) (app : S3Application) (bucket k : str) :
  let bucket_dir := abspath cwd (join (directory app) bucket) in
  1 ≤ bucket_depth app ≤ 16 ->
  endswith bucket_dir (b"/") = false ->
  startswith k (b"/") = false ->
  exists shards : str,
    _object_path cwd app bucket k = bucket_dir ++ shards ++ b"/" ++ k
    /\ shard_skip bucket_dir (bucket_depth app)
       = Z.of_nat (length (bucket_dir ++ shards ++ b"/")).
Proof.
  intros bucket_dir Hdepth Hend Hkey.
  rewrite endswith_slash in Hend. apply bool_decide_eq_false in Hend.
  rewrite startswith_slash in Hkey. apply bool_decide_eq_false in Hkey.
  destruct (shard_fold (MD5.hexdigest k) (range 0 (bucket_depth app))
              (hexdigest_not_slash k)) with (p := bucket_dir)
      (skip := Z.of_nat (length bucket_dir) + 1)
    as (shards & Hpath & Hskip & Hlast); [|apply normpath_nonempty|done|].
  { intros i [n [-> Hn]%lookup_seqZ]%list_elem_of_lookup.
    rewrite hexdigest_length. lia. }
  exists shards. unfold _object_path, shard_skip.
  rewrite (proj2 (Z.ltb_ge _ _)) by lia. cbv zeta. fold bucket_dir.
  rewrite Hpath, Hskip. split.
  - rewrite join_relative; [by rewrite <- app_assoc| |done..].
    pose proof (normpath_nonempty (if isabs (join (directory app) bucket)
      then join (directory app) bucket else join cwd (join (directory app) bucket))).
    fold (abspath cwd (join (directory app) bucket)) in H. fold bucket_dir in H.
    by destruct bucket_dir.
  - rewrite !length_app. simpl. lia.
Qed.

(** *** Flat paths *)

Lemma split_slash_cons (s : str) : exists comp comps, split_slash s = comp :: comps.
Proof.
  induction s as [|c s (comp & comps & IH)]; simpl; [by eexists _, _|].
  case_bool_decide; [by eexists _, _|]. rewrite IH. by eexists _, _.
Qed.

Lemma split_slash_app (x y : str) :
  split_slash (x ++ slash :: y) = split_slash x ++ split_slash y.
Proof.
  induction x as [|c x IH]; simpl.
  - done.
  - case_bool_decide; [by rewrite IH|].
    rewrite IH. by destruct (split_slash_cons x) as (comp & comps & ->).
Qed.

Lemma join_slash_split (k : str) : join_slash (split_slash k) = k.
Proof.
  induction k as [|c k IH]; [done|]. simpl.
  destruct (split_slash_cons k) as (comp & comps & Hk). rewrite Hk in *.
  case_bool_decide as Hc.
  - subst c. cbn [join_slash]. cbn [join_slash] in IH. by rewrite IH.
  - cbn [join_slash] in *. destruct comps; by rewrite <- IH.
Qed.

Lemma join_slash_app (cs ks : list str) :
  cs ≠ [] -> ks ≠ [] ->
  join_slash (cs ++ ks) = join_slash cs ++ slash :: join_slash ks.
Proof.
  intros Hcs Hks. induction cs as [|comp cs IH]; [done|].
  destruct cs as [|comp' cs].
  - simpl. by destruct ks.
  - change ((comp :: comp' :: cs) ++ ks) with (comp :: (comp' :: cs) ++ ks).
    cbn [join_slash app]. cbn [join_slash app] in IH.
    rewrite IH by done. by rewrite <- app_assoc.
Qed.

Lemma normpath_step_plain (n : nat) (acc : list str) (ks : list str) :
  Forall plain ks -> foldl (normpath_step n) acc ks = acc ++ ks.
Proof.
  intros Hks. revert acc.
  induction Hks as [|comp ks (Hne & Hdot & Hdotdot) _ IH]; intros acc; simpl.
  - by rewrite app_nil_r.
  - rewrite IH. unfold normpath_step.
    rewrite !bool_decide_eq_false_2 by done. simpl.
    by rewrite <- app_assoc.
Qed.

Lemma normpath_step_empty (n : nat) (acc : list str) :
  normpath_step n acc [] = acc.
Proof. done. Qed.

Lemma normal_key_head (k : str) : normal_key k -> exists c k', k = c :: k' /\ c ≠ slash.
Proof.
  unfold normal_key. destruct k as [|c k']; simpl.
  - intros H. inv H. by destruct H2 as [? _].
  - case_bool_decide as Hc; [|by eexists _, _].
    intros H. inv H. by destruct H2 as [? _].
Qed.

(** The leading slashes are decided by the first three characters. *)
Lemma initial_slashes_app_sep (J k : str) :
  head J = Some slash -> last J ≠ Some slash ->
  initial_slashes (J ++ slash :: k) = initial_slashes J.
Proof.
  destruct J as [|c0 [|c1 [|c2 J]]]; simpl; try done.
  intros [= ->] Hlast. unfold initial_slashes; simpl.
  rewrite (bool_decide_eq_false_2 (c1 = "/"%char)); [done|].
  intros ->. done.
Qed.

Lemma initial_slashes_app_rel (J : str) (c : ascii) (k : str) :
  head J = Some slash -> c ≠ slash ->
  initial_slashes (J ++ c :: k) = initial_slashes J.
Proof.
  destruct J as [|c0 [|c1 [|c2 J]]]; simpl; try done.
  - intros [= ->] Hc. unfold initial_slashes; simpl.
    by rewrite (bool_decide_eq_false_2 (c = "/"%char)).
  - intros [= ->] Hc. unfold initial_slashes; simpl.
    rewrite (bool_decide_eq_false_2 (c = "/"%char)) by done.
    by rewrite !andb_false_r, !andb_true_r.
Qed.

Lemma last_repeat_slash (n : nat) :
  n ≠ 0%nat -> last (repeat slash n) = Some slash.
Proof.
  intros Hn. destruct n as [|n]; [done|].
  induction n as [|n IH]; [done|]. by rewrite <- IH.
Qed.

Lemma initial_slashes_absolute (J : str) :
  head J = Some slash -> initial_slashes J ≠ 0%nat.
Proof.
  destruct J as [|c J]; [done|]. intros [= ->]. unfold initial_slashes; simpl.
  by destruct (_ && _).
Qed.

(** Appending a key in normal form to an absolute path, with os.path.join,
    and normalising the result only normalises the path. *)
Lemma normpath_join_normal (J k : str) :
  head J = Some slash -> normal_key k ->
  last (normpath J) ≠ Some slash ->
  normpath (join J k) = normpath J ++ slash :: k.
Proof.
  intros HJ Hk Hlast.
  destruct (normal_key_head k Hk) as (c & k' & -> & Hc).
  set (k := c :: k') in *.
  assert (J ≠ []) as HJne by (by destruct J).
  assert (exists J', join J k = J' ++ slash :: k
            /\ initial_slashes (join J k) = initial_slashes J
            /\ foldl (normpath_step (initial_slashes J)) [] (split_slash J')
               = foldl (normpath_step (initial_slashes J)) [] (split_slash J))
    as (J' & HJ' & Hsl & Hfold).
  { destruct (decide (last J = Some slash)) as [Hend|Hend].
    - destruct J as [|cl J' _] using rev_ind; [done|].
      rewrite last_snoc in Hend. injection Hend as ->.
      assert (join (J' ++ [slash]) k = J' ++ slash :: k) as Hjoin.
      { unfold join.
        rewrite startswith_slash, bool_decide_eq_false_2 by (by intros [= ?]).
        rewrite endswith_slash, last_snoc, bool_decide_eq_true_2 by done.
        rewrite orb_true_r. by rewrite <- app_assoc. }
      exists J'. split; [done|]. split.
      + rewrite Hjoin. replace (J' ++ slash :: k) with ((J' ++ [slash]) ++ c :: k')
          by (by rewrite <- app_assoc).
        by apply initial_slashes_app_rel.
      + rewrite (split_slash_app J' []). simpl. by rewrite foldl_app.
    - assert (join J k = J ++ slash :: k) as Hjoin.
      { apply join_relative; [done..|]. by intros [= ?]. }
      exists J. split; [done|]. split; [|done].
      rewrite Hjoin. by apply initial_slashes_app_sep. }
  rewrite HJ' in Hsl |- *. unfold normpath at 1.
  assert (nonempty (J' ++ slash :: k) = true) as -> by (by destruct J').
  cbn [negb]. cbv zeta. rewrite Hsl, split_slash_app, foldl_app, Hfold.
  rewrite normpath_step_plain by done.
  unfold normpath in Hlast |- *.
  assert (nonempty J = true) as HJt by (by destruct J).
  rewrite HJt in Hlast |- *. cbn [negb] in Hlast |- *. cbv zeta in Hlast |- *.
  set (cs := foldl (normpath_step (initial_slashes J)) [] (split_slash J)) in *.
  pose proof (initial_slashes_absolute J HJ) as Hn.
  assert (forall x, nonempty (repeat slash (initial_slashes J) ++ x) = true) as Hrep.
  { intros x. by destruct (initial_slashes J). }
  rewrite Hrep in Hlast |- *. rewrite Hrep.
  destruct (decide (cs = [])) as [Hcs|Hcs].
  { exfalso. apply Hlast. rewrite Hcs; simpl. rewrite app_nil_r.
    by apply last_repeat_slash. }
  rewrite join_slash_app; [|done|by destruct (split_slash_cons k) as (? & ? & ->)].
  by rewrite join_slash_split, <- app_assoc.
Qed.

(** *** Absolute paths *)

Lemma join_absolute (a p : str) : isabs a = true -> isabs (join a p) = true.
Proof.
  unfold isabs, join. intros Ha.
  destruct (startswith p (b"/")) eqn:Hp; [done|].
  destruct a as [|c a]; [done|].
  destruct (negb (nonempty (c :: a)) || endswith (c :: a) (b"/")); exact Ha.
Qed.

Lemma abspath_absolute (cwd p : str) : isabs p = true -> abspath cwd p = normpath p.
Proof. unfold abspath. by intros ->. Qed.

Lemma isabs_head (p : str) : isabs p = true -> head p = Some slash.
Proof. unfold isabs. rewrite startswith_slash. apply bool_decide_eq_true. Qed.

Lemma normpath_absolute (p : str) : isabs p = true -> isabs (normpath p) = true.
Proof.
  intros Hp. pose proof (initial_slashes_absolute p (isabs_head p Hp)) as Hn.
  unfold normpath. destruct p as [|c p]; [done|]. cbn [nonempty negb]. cbv zeta.
  destruct (initial_slashes (c :: p)) as [|n]; [done|]. done.
Qed.

(** The directory set by __init__ is absolute when the working directory
    is, as os.getcwd() always is. *)
Lemma S3Application_init_absolute (cwd root : str) (depth : Z) :
  isabs cwd = true -> isabs (directory (S3Application_init cwd root depth)) = true.
Proof.
  intros Hcwd. simpl. unfold abspath. apply normpath_absolute.
  destruct (isabs root) eqn:Hroot; [done|]. by apply join_absolute.
Qed.

(** *** The round trip *)

(** The claim of C3 fails for a key that normpath rewrites: without
    sharding the path itself is rewritten; with sharding the path keeps
    the key, but the file it names is found by the walk under its
    normalised name, which is cut to another key, or cut short. It
    fails too for a key that starts with a slash, and beyond 16 shard
    levels, where the digest has no more characters to give. *)
Lemma round_trip_fails :
  strip_shard_prefix demo_cwd (demo_app 0) (b"b")
      (_object_path demo_cwd (demo_app 0) (b"b") (b"a//b")) = b"a/b"
  /\ strip_shard_prefix demo_cwd (demo_app 1) (b"b")
      (normpath (_object_path demo_cwd (demo_app 1) (b"b") (b"a//b"))) = b"a/b"
  /\ normpath (_object_path demo_cwd (demo_app 2) (b"b") (b"../x//hello"))
     = b"/tmp/s3/b/fa/x/hello"
  /\ strip_shard_prefix demo_cwd (demo_app 2) (b"b")
      (normpath (_object_path demo_cwd (demo_app 2) (b"b") (b"../x//hello")))
     = b"lo"
  /\ strip_shard_prefix demo_cwd (demo_app 1) (b"b")
      (_object_path demo_cwd (demo_app 1) (b"b") (b"/etc/passwd")) = []
  /\ strip_shard_prefix demo_cwd (demo_app 17) (b"b")
      (_object_path demo_cwd (demo_app 17) (b"b") (b"hello")) = b"llo".
Proof. vm_compute. done. Qed.

Example root_bucket_directory :
  let app := mkApplication (b"/") 0 in
  strip_shard_prefix demo_cwd app (b".")
      (_object_path demo_cwd app (b".") (b"tmp/x")) = b"mp/x".
Proof. vm_compute. reflexivity. Qed.

(** *** Keys that leave the bucket *)

(** C2 fails on the code. With one shard level the key ../../etc/passwd
    passes the checks of put: the path is not normalised after the key
    is joined, so it still starts with the bucket directory, although it
    names /tmp/s3/etc/passwd. Without sharding the key ../bc/x passes
    them too: /tmp/s3/bc/x starts with the characters of /tmp/s3/b. In
    neither case is the path below the bucket directory. *)
Theorem put_accepts_key_outside_bucket :
  ObjectHandler_put_path demo_cwd demo_isdir (demo_app 1) (b"b") (b"../../etc/passwd")
    = Return (b"/tmp/s3/b/42/../../etc/passwd")
  /\ normpath (b"/tmp/s3/b/42/../../etc/passwd") = b"/tmp/s3/etc/passwd"
  /\ descendant (b"/tmp/s3/b") (b"/tmp/s3/b/42/../../etc/passwd") = false
  /\ ObjectHandler_put_path demo_cwd demo_isdir (demo_app 0) (b"b") (b"../bc/x")
    = Return (b"/tmp/s3/bc/x")
  /\ descendant (b"/tmp/s3/b") (b"/tmp/s3/bc/x") = false.
Proof. vm_compute. done. Qed.

(** ** Further properties of uploads *)

Lemma bind_cases {A B} (m : M A) (k : A -> M B) (w : World)
    (o : outcome B) (w' : World) :
  (m ≫= k) w = (o, w') ->
  (exists e, m w = (Raise e, w') /\ o = Raise e)
  \/ (exists a w1, m w = (Return a, w1) /\ k a w1 = (o, w')).
Proof.
  unfold mbind, M_bind. destruct (m w) as [[a|e] w1].
  - intros H. right. by exists a, w1.
  - intros [= <- <-]. left. by exists e.
Qed.

(** *** Work on one uploader *)

#[global] Instance acts_on_refl (id' : str) (l' : loc) : Reflexive (acts_on id' l').
Proof. intros w. split; [done|by eauto|done|done|by left]. Qed.

#[global] Instance acts_on_trans (id' : str) (l' : loc) : Transitive (acts_on id' l').
Proof.
  intros w1 w2 w3 [Hh1 Hs1 Ha1 Hr1 Ho1] [Hh2 Hs2 Ha2 Hr2 Ho2]. split.
  - intros l Hl. by rewrite Hh2, Hh1.
  - intros u3 Hu3. destruct (Hs2 u3 Hu3) as (u2 & Hu2 & Hid2 & Hp2).
    destruct (Hs1 u2 Hu2) as (u1 & Hu1 & Hid1 & Hp1).
    exists u1. split_and!; [done|congruence..].
  - auto.
  - intros id Hid. by rewrite Hr2, Hr1.
  - destruct Ho2 as [Ho2|Ho2]; [|by right]. rewrite Ho2. done.
Qed.

#[global] Instance touches_refl (l' : loc) : Reflexive (touches l').
Proof. intros w. split; [done|by eauto|done..]. Qed.

#[global] Instance touches_trans (l' : loc) : Transitive (touches l').
Proof.
  intros w1 w2 w3 [Hh1 Hs1 Ha1 Hr1 Hf1] [Hh2 Hs2 Ha2 Hr2 Hf2]. split.
  - intros l Hl. by rewrite Hh2, Hh1.
  - intros u3 Hu3. destruct (Hs2 u3 Hu3) as (u2 & Hu2 & Hid2 & Hp2).
    destruct (Hs1 u2 Hu2) as (u1 & Hu1 & Hid1 & Hp1).
    exists u1. split_and!; [done|congruence..].
  - auto.
  - congruence.
  - congruence.
Qed.

Lemma touches_acts_on (id' : str) (l' : loc) (w w' : World) :
  touches l' w w' -> acts_on id' l' w w'.
Proof.
  intros [Hh Hs Ha Hr Hf]. split; [done..| |].
  - intros id _. by rewrite Hr.
  - left. by rewrite Hr.
Qed.

Lemma deref_cases (l : loc) (w : World) (o : outcome MultipartUploader) (w' : World) :
  deref l w = (o, w') ->
  w' = w /\ ((exists u, heap w !! l = Some u /\ o = Return u)
            \/ (heap w !! l = None /\ o = Raise Unallocated)).
Proof.
  unfold deref. destruct (heap w !! l) as [u|] eqn:Hu; intros [= <- <-].
  - split; [done|]. left. by exists u.
  - split; [done|]. by right.
Qed.

Lemma update_acts (l : loc) (f : MultipartUploader -> MultipartUploader)
    (w : World) (o : outcome unit) (w' : World) :
  (forall u, upload_id (f u) = upload_id u /\ path (f u) = path u) ->
  update l f w = (o, w') -> touches l w w'.
Proof.
  intros Hf. unfold update. destruct (heap w !! l) as [u|] eqn:Hu; intros [= <- <-].
  - split; simpl.
    + intros l0 Hl0. by rewrite lookup_insert_ne.
    + intros u'. rewrite lookup_insert_eq. intros [= <-].
      exists u. destruct (Hf u). done.
    + intros _. by rewrite lookup_insert_eq.
    + done.
    + done.
  - reflexivity.
Qed.

Ltac update_acts_tac :=
  eapply update_acts; [|eassumption]; intros; split; reflexivity.

Lemma on_file_acts (l : loc) (op : PyFile -> outcome PyFile)
    (w : World) (o : outcome unit) (w' : World) :
  on_file l op w = (o, w') -> touches l w w'.
Proof.
  unfold on_file. intros H.
  apply bind_cases in H as [(e & H & _)|(u & w1 & H & Hk)];
    apply deref_cases in H as [-> _]; [reflexivity|].
  destruct (op (file u)).
  - update_acts_tac.
  - injection Hk as <- <-. reflexivity.
Qed.

Lemma write_completion_loop_acts (l : loc) (fuel : nat) :
  forall (w : World) (o : outcome unit) (w' : World),
    write_completion_loop fuel l w = (o, w') -> touches l w w'.
Proof.
  induction fuel as [|fuel IH]; intros w o w' H; cbn [write_completion_loop] in H;
    apply bind_cases in H as [(e & H & _)|(u & w1 & H & Hk)];
    apply deref_cases in H as [-> _]; try reflexivity;
    destruct (buffers u !! part_number u);
    try (injection Hk as <- <-; reflexivity).
  apply bind_cases in Hk as [(e & H & _)|([] & w1 & H & Hk)];
    [by eapply on_file_acts|].
  etrans; [by eapply on_file_acts|].
  apply bind_cases in Hk as [(e & H2 & _)|([] & w2 & H2 & Hk)];
    [update_acts_tac|].
  etrans; [update_acts_tac|].
  apply bind_cases in Hk as [(e & H3 & _)|([] & w3 & H3 & Hk)];
    [update_acts_tac|].
  etrans; [update_acts_tac|]. by eapply IH.
Qed.

Lemma trigger_write_completion_acts (l : loc)
    (w : World) (o : outcome unit) (w' : World) :
  trigger_write_completion l w = (o, w') -> touches l w w'.
Proof.
  unfold trigger_write_completion. intros H.
  apply bind_cases in H as [(e & H & _)|(u & w1 & H & Hk)];
    apply deref_cases in H as [-> _]; [reflexivity|].
  by eapply write_completion_loop_acts.
Qed.

Lemma write_acts (l : loc) (p : Z) (d : str)
    (w : World) (o : outcome unit) (w' : World) :
  write l p d w = (o, w') -> touches l w w'.
Proof.
  unfold write. intros H.
  apply bind_cases in H as [(e & H & _)|(u & w1 & H & Hk)];
    apply deref_cases in H as [-> _]; [reflexivity|].
  apply bind_cases in Hk as [(e & H & _)|([] & w1 & H & Hk)].
  - destruct (decide _); [by injection H as <- <-|update_acts_tac].
  - etrans; [|by eapply trigger_write_completion_acts].
    destruct (decide _); [done|update_acts_tac].
Qed.

(** *** The handlers *)

Lemma factory_lookup_only (id : str) (w : World) :
  MultipartUploaderFactory id None w = (Return (multipart_uploaders w !! id), w).
Proof.
  unfold MultipartUploaderFactory, lookup_uploader, mbind, M_bind.
  by destruct (multipart_uploaders w !! id).
Qed.

Lemma write_part_frame (id' : str) (p : Z) (d : str)
    (w : World) (o : outcome str) (w' : World) :
  write_part id' p d w = (o, w') ->
  match multipart_uploaders w !! id' with
  | None => w' = w
  | Some l' => touches l' w w'
  end.
Proof.
  unfold write_part. intros H.
  erewrite bind_run in H by apply factory_lookup_only.
  destruct (multipart_uploaders w !! id') as [l'|]; [|by injection H as <- <-].
  apply bind_cases in H as [(e & H & _)|([] & w1 & H & Hk)];
    [by eapply write_acts|].
  apply write_acts in H.
  apply bind_cases in Hk as [(e & H2 & _)|(u & w2 & H2 & Hk)];
    apply deref_cases in H2 as [-> _]; [done|].
  destruct (buffers u !! p); by injection Hk as <- <-.
Qed.

Lemma del_uploader_acts (id' : str) (l' : loc)
    (w : World) (o : outcome unit) (w' : World) :
  del_uploader id' w = (o, w') -> acts_on id' l' w w' /\ fs w' = fs w.
Proof.
  unfold del_uploader. destruct (multipart_uploaders w !! id'); intros [= <- <-].
  - split; [|done]. split; simpl; [done|by eauto|done| |].
    + intros id Hid. by rewrite lookup_delete_ne.
    + right. apply lookup_delete_eq.
  - split; [reflexivity|done].
Qed.

Lemma touches_id (id' : str) (l' : loc) (w w' : World) (u' : MultipartUploader) :
  registry_ok w -> multipart_uploaders w !! id' = Some l' ->
  touches l' w w' -> heap w' !! l' = Some u' -> upload_id u' = id'.
Proof.
  intros Hok Hreg Ht Hu'. destruct (t_self _ _ _ Ht u' Hu') as (u & Hu & Hid & _).
  destruct (Hok id' l' Hreg) as (u0 & Hu0 & Hid0). congruence.
Qed.

Lemma close_frame (id' : str) (l' : loc)
    (w : World) (o : outcome unit) (w' : World) :
  registry_ok w -> multipart_uploaders w !! id' = Some l' ->
  close l' w = (o, w') -> acts_on id' l' w w' /\ fs w' = fs w.
Proof.
  intros Hok Hreg H. unfold close in H.
  apply bind_cases in H as [(e & H & _)|([] & w1 & H & Hk)];
    apply trigger_write_completion_acts in H;
    [split; [by apply touches_acts_on|by destruct H]|].
  apply bind_cases in Hk as [(e & H2 & _)|([] & w2 & H2 & Hk)];
    apply on_file_acts in H2; pose proof (transitivity H H2) as H12;
    [split; [by apply touches_acts_on|by destruct H12]|].
  apply bind_cases in Hk as [(e & H3 & _)|([] & w3 & H3 & Hk)];
    apply on_file_acts in H3; pose proof (transitivity H12 H3) as H13;
    [split; [by apply touches_acts_on|by destruct H13]|].
  apply bind_cases in Hk as [(e & H4 & _)|(u & w4 & H4 & Hk)];
    apply deref_cases in H4 as [-> H4];
    [split; [by apply touches_acts_on|by destruct H13]|].
  destruct H4 as [(u4 & Hu4 & [= <-])|[_ ?]]; [|done].
  rewrite (touches_id id' l' w w3 u) in Hk by done.
  apply (del_uploader_acts id' l') in Hk as [Hact Hfs].
  split; [|destruct H13; congruence].
  etrans; [by apply touches_acts_on|done].
Qed.

Lemma unlink_acts (id' : str) (l' : loc) (pth : str)
    (w : World) (o : outcome unit) (w' : World) :
  unlink pth w = (o, w') -> acts_on id' l' w w' /\ fs w' ⊆ fs w.
Proof.
  unfold unlink. destruct (decide (pth ∈ fs w)); intros [= <- <-].
  - split; [|simpl; by apply subseteq_difference_l]. split; simpl; [done|by eauto|done|done|by left].
  - split; [reflexivity|done].
Qed.

Lemma abort_frame (id' : str) (l' : loc)
    (w : World) (o : outcome unit) (w' : World) :
  registry_ok w -> multipart_uploaders w !! id' = Some l' ->
  abort l' w = (o, w') -> acts_on id' l' w w' /\ fs w' ⊆ fs w.
Proof.
  intros Hok Hreg H. unfold abort in H.
  apply bind_cases in H as [(e & H & _)|([] & w1 & H & Hk)];
    apply on_file_acts in H;
    [split; [by apply touches_acts_on|by destruct H as [_ _ _ _ ->]]|].
  apply bind_cases in Hk as [(e & H2 & _)|(u & w2 & H2 & Hk)];
    apply deref_cases in H2 as [-> _];
    [split; [by apply touches_acts_on|by destruct H as [_ _ _ _ ->]]|].
  assert (fs w1 = fs w) as Hfs1 by (by destruct H).
  apply bind_cases in Hk as [(e & H3 & _)|([] & w3 & H3 & Hk)];
    apply (unlink_acts id' l') in H3 as [H3 Hfs3];
    [split; [etrans; [by apply touches_acts_on|done]|by rewrite <- Hfs1]|].
  apply bind_cases in Hk as [(e & H4 & _)|(u4 & w4 & H4 & Hk)];
    apply deref_cases in H4 as [-> H4];
    [split; [etrans; [by apply touches_acts_on|done]|by rewrite <- Hfs1]|].
  destruct H4 as [(u5 & Hu5 & [= <-])|[_ ?]]; [|done].
  assert (upload_id u4 = id') as Hid4.
  { destruct (act_self _ _ _ _ H3 u4 Hu5) as (u1 & Hu1 & Hid1 & _).
    rewrite Hid1. by eapply (touches_id id' l' w w1). }
  rewrite Hid4 in Hk.
  apply (del_uploader_acts id' l') in Hk as [Hact Hfs].
  split; [|rewrite Hfs, <- Hfs1; done].
  etrans; [by apply touches_acts_on|]. etrans; done.
Qed.

Lemma complete_upload_frame (id' : str)
    (w : World) (o : outcome (list (Z * str))) (w' : World) :
  registry_ok w -> complete_upload id' w = (o, w') ->
  match multipart_uploaders w !! id' with
  | None => w' = w
  | Some l' => acts_on id' l' w w' /\ fs w' = fs w
  end.
Proof.
  intros Hok H. unfold complete_upload in H.
  erewrite bind_run in H by apply factory_lookup_only.
  destruct (multipart_uploaders w !! id') as [l'|] eqn:Hreg;
    [|by injection H as <- <-].
  apply bind_cases in H as [(e & H & _)|([] & w1 & H & Hk)];
    [by eapply close_frame|].
  apply (close_frame id' l' w _ _ Hok Hreg) in H.
  apply bind_cases in Hk as [(e & H2 & _)|(u & w2 & H2 & Hk)];
    apply deref_cases in H2 as [-> _]; [done|].
  destruct (part_etags u _); by injection Hk as <- <-.
Qed.

Lemma abort_upload_frame (id' : str)
    (w : World) (o : outcome unit) (w' : World) :
  registry_ok w -> abort_upload id' w = (o, w') ->
  match multipart_uploaders w !! id' with
  | None => w' = w
  | Some l' => acts_on id' l' w w' /\ fs w' ⊆ fs w
  end.
Proof.
  intros Hok H. unfold abort_upload in H.
  erewrite bind_run in H by apply factory_lookup_only.
  destruct (multipart_uploaders w !! id') as [l'|] eqn:Hreg;
    [|by injection H as <- <-].
  by eapply abort_frame.
Qed.

(** Initiating leaves the world as it is when the id is taken or the
    path is empty, and otherwise adds one uploader at a fresh location. *)
Lemma initiate_upload_cases (id' pth : str) (w : World) :
  initiate_upload id' pth w
  = match multipart_uploaders w !! id' with
    | Some l' =>
        match heap w !! l' with
        | Some u => (Return (upload_id u), w)
        | None => (Raise Unallocated, w)
        end
    | None =>
        match pth with
        | [] => (Raise AttributeError, w)
        | _ :: _ =>
            (Return id',
             mkWorld (<[fresh (dom (heap w)) :=
                          mkUploader pth id' (mkFile pth false []) 1 ∅]> (heap w))
                     (<[id' := fresh (dom (heap w))]> (multipart_uploaders w))
                     ({[pth]} ∪ fs w))
        end
    end.
Proof.
  unfold initiate_upload, MultipartUploaderFactory, lookup_uploader,
    MultipartUploader_init, open_w, alloc, register_uploader, deref,
    mbind, M_bind, mret, M_ret.
  destruct (multipart_uploaders w !! id') as [l'|];
    [by destruct (heap w !! l')|].
  destruct pth as [|c pth]; [done|]. cbn. by rewrite lookup_insert_eq.
Qed.

Lemma acts_on_registry_ok (id' : str) (l' : loc) (w w' : World) :
  registry_ok w -> multipart_uploaders w !! id' = Some l' ->
  acts_on id' l' w w' -> registry_ok w'.
Proof.
  intros Hok Hreg [Hheap Hself Halloc Hother Hown] id l Hl.
  destruct (decide (id = id')) as [->|Hne].
  - destruct Hown as [Hown|Hown]; rewrite Hown in Hl; [|done].
    rewrite Hreg in Hl. injection Hl as <-.
    destruct (Hok id' l' Hreg) as (u & Hu & Hid).
    destruct Halloc as [u' Hu']; [by eexists|].
    exists u'. split; [done|].
    destruct (Hself u' Hu') as (u0 & Hu0 & Hid0 & _). congruence.
  - rewrite Hother in Hl by done.
    destruct (Hok id l Hl) as (u & Hu & Hid).
    exists u. split; [|done]. rewrite Hheap; [done|].
    intros ->. destruct (Hok id' l' Hreg) as (u0 & Hu0 & Hid0). congruence.
Qed.

Lemma acts_on_other (id id' : str) (l l' : loc) (w w' : World) :
  registry_ok w -> multipart_uploaders w !! id = Some l ->
  multipart_uploaders w !! id' = Some l' -> id' ≠ id ->
  acts_on id' l' w w' ->
  multipart_uploaders w' !! id = Some l /\ heap w' !! l = heap w !! l.
Proof.
  intros Hok Hreg Hreg' Hne [Hheap _ _ Hother _]. split.
  - by rewrite Hother.
  - apply Hheap. intros ->.
    destruct (Hok id l' Hreg) as (u & Hu & Hid).
    destruct (Hok id' l' Hreg') as (u0 & Hu0 & Hid0). congruence.
Qed.

(** *** The registry invariant *)

Lemma registry_ok_empty : registry_ok empty_world.
Proof. intros id l H. done. Qed.

Lemma registry_ok_initiate (w : World) (id pth : str) :
  registry_ok w -> registry_ok (initiate_upload id pth w).2.
Proof.
  intros Hok. rewrite initiate_upload_cases.
  destruct (multipart_uploaders w !! id) as [l'|] eqn:Hreg.
  { by destruct (heap w !! l'). }
  destruct pth as [|c pth]; [done|].
  intros id0 l0. simpl. destruct (decide (id0 = id)) as [->|Hne].
  - rewrite lookup_insert_eq. intros [= <-]. rewrite lookup_insert_eq. by eexists.
  - rewrite lookup_insert_ne by done. intros Hl0.
    destruct (Hok id0 l0 Hl0) as (u & Hu & Hid). exists u. split; [|done].
    rewrite lookup_insert_ne; [done|]. intros <-.
    apply (is_fresh (dom (heap w))). apply elem_of_dom. by eexists.
Qed.

Lemma registry_ok_write_part (w : World) (id : str) (p : Z) (d : str) :
  registry_ok w -> registry_ok (write_part id p d w).2.
Proof.
  intros Hok. destruct (write_part id p d w) as [o w'] eqn:H.
  apply write_part_frame in H. simpl.
  destruct (multipart_uploaders w !! id) as [l'|] eqn:Hreg; [|by subst].
  eapply acts_on_registry_ok; [done..|]. by apply touches_acts_on.
Qed.

Lemma registry_ok_complete (w : World) (id : str) :
  registry_ok w -> registry_ok (complete_upload id w).2.
Proof.
  intros Hok. destruct (complete_upload id w) as [o w'] eqn:H.
  apply complete_upload_frame in H; [|done]. simpl.
  destruct (multipart_uploaders w !! id) as [l'|] eqn:Hreg; [|by subst].
  eapply acts_on_registry_ok; [done..|]. by destruct H.
Qed.

Lemma registry_ok_abort (w : World) (id : str) :
  registry_ok w -> registry_ok (abort_upload id w).2.
Proof.
  intros Hok. destruct (abort_upload id w) as [o w'] eqn:H.
  apply abort_upload_frame in H; [|done]. simpl.
  destruct (multipart_uploaders w !! id) as [l'|] eqn:Hreg; [|by subst].
  eapply acts_on_registry_ok; [done..|]. by destruct H.
Qed.

(** X1. Every registered upload id refers to an allocated uploader that
    carries this id, hence no two ids share an uploader. The four
    handlers keep this, whether they return or raise. *)
Theorem registry_ok_preserved (w : World) (id pth : str) (p : Z) (d : str) :
  registry_ok w ->
  registry_ok (initiate_upload id pth w).2
  /\ registry_ok (write_part id p d w).2
  /\ registry_ok (complete_upload id w).2
  /\ registry_ok (abort_upload id w).2
  /\ (forall (id1 id2 : str) (l : loc),
        multipart_uploaders w !! id1 = Some l ->
        multipart_uploaders w !! id2 = Some l -> id1 = id2).
Proof.
  intros Hok. split_and!.
  - by apply registry_ok_initiate.
  - by apply registry_ok_write_part.
  - by apply registry_ok_complete.
  - by apply registry_ok_abort.
  - intros id1 id2 l H1 H2.
    destruct (Hok id1 l H1) as (u1 & Hu1 & <-).
    destruct (Hok id2 l H2) as (u2 & Hu2 & <-). congruence.
Qed.

Lemma registry_ok_preserved_witness :
  let w := (initiate_upload demo_id demo_path empty_world).2 in
  registry_ok (initiate_upload demo_id demo_path w).2
  /\ registry_ok (write_part demo_id 3 (b"C") w).2
  /\ registry_ok (complete_upload demo_id w).2
  /\ registry_ok (abort_upload demo_id w).2
  /\ (forall (id1 id2 : str) (l : loc),
        multipart_uploaders w !! id1 = Some l ->
        multipart_uploaders w !! id2 = Some l -> id1 = id2).
Proof.
  apply (registry_ok_preserved
           (initiate_upload demo_id demo_path empty_world).2
           demo_id demo_path 3 (b"C")).
  apply registry_ok_initiate. intros id l H. vm_compute in H. discriminate.
Defined.

(** *** Uploads do not disturb each other *)

(** X2. In a world that satisfies the registry invariant, a request for
    another upload id, whatever its outcome, leaves a registered upload
    registered and its uploader (cursor, buffers, file handle) exactly
    as it was; part uploads and completions also leave the set of files
    as it was. *)
Theorem uploads_independent (w : World) (id id' : str) (l : loc)
    (p : Z) (d pth : str) :
  registry_ok w ->
  multipart_uploaders w !! id = Some l ->
  id' ≠ id ->
  let same := fun w' : World =>
    multipart_uploaders w' !! id = Some l /\ heap w' !! l = heap w !! l in
  same (write_part id' p d w).2
  /\ same (complete_upload id' w).2
  /\ same (abort_upload id' w).2
  /\ same (initiate_upload id' pth w).2
  /\ fs (write_part id' p d w).2 = fs w
  /\ fs (complete_upload id' w).2 = fs w.
Proof.
  intros Hok Hreg Hne same. unfold same.
  destruct (write_part id' p d w) as [o1 w1] eqn:H1.
  destruct (complete_upload id' w) as [o2 w2] eqn:H2.
  destruct (abort_upload id' w) as [o3 w3] eqn:H3.
  apply write_part_frame in H1.
  apply complete_upload_frame in H2; [|done].
  apply abort_upload_frame in H3; [|done].
  rewrite initiate_upload_cases. simpl.
  destruct (multipart_uploaders w !! id') as [l'|] eqn:Hreg'.
  - destruct H2 as [H2 Hfs2], H3 as [H3 _].
    pose proof (touches_acts_on id' l' w w1 H1) as H1'.
    split; [by eapply acts_on_other|].
    split; [by eapply acts_on_other|].
    split; [by eapply acts_on_other|].
    split; [by destruct (heap w !! l')|].
    split; [by destruct H1|done].
  - subst w1 w2 w3. do 3 (split; [done|]). split; [|done].
    destruct pth as [|c pth]; [done|]. simpl.
    rewrite lookup_insert_ne by done. split; [done|].
    apply lookup_insert_ne. intros <-.
    destruct (Hok id _ Hreg) as (u & Hu & _).
    apply (is_fresh (dom (heap w))). apply elem_of_dom. by eexists.
Qed.

Lemma uploads_independent_witness :
  let w := (initiate_upload demo_id demo_path;;
            initiate_upload demo_id2 demo_path) empty_world in
  let same := fun w' : World =>
    multipart_uploaders w' !! demo_id = Some 0%nat
    /\ heap w' !! 0%nat = heap w.2 !! 0%nat in
  same (write_part demo_id2 1 (b"A") w.2).2
  /\ same (complete_upload demo_id2 w.2).2
  /\ same (abort_upload demo_id2 w.2).2
  /\ same (initiate_upload demo_id2 demo_path w.2).2
  /\ fs (write_part demo_id2 1 (b"A") w.2).2 = fs w.2
  /\ fs (complete_upload demo_id2 w.2).2 = fs w.2.
Proof.
  apply (uploads_independent
           ((initiate_upload demo_id demo_path;;
             initiate_upload demo_id2 demo_path) empty_world).2
           demo_id demo_id2 0%nat 1 (b"A") demo_path).
  - replace ((initiate_upload demo_id demo_path;;
              initiate_upload demo_id2 demo_path) empty_world).2
      with (initiate_upload demo_id2 demo_path
              (initiate_upload demo_id demo_path empty_world).2).2
      by (vm_compute; reflexivity).
    do 2 apply registry_ok_initiate. intros id l H. vm_compute in H. discriminate.
  - vm_compute. reflexivity.
  - discriminate.
Defined.

(** *** After completion *)

(** X3. A completed upload is gone: every later part upload, completion
    or abort for its id is answered with status 404 and changes
    nothing, and the destination file stays in place. *)
Theorem completed_upload_is_gone (w0 : World) (id pth : str)
    (calls : list (Z * str)) (etags : list str) (w : World) :
  multipart_uploaders w0 !! id = None ->
  pth ≠ [] ->
  upload_run id pth calls w0 = (Return etags, w) ->
  let w' := (complete_upload id w).2 in
  (forall p d, write_part id p d w' = (Raise (HTTPError 404), w'))
  /\ complete_upload id w' = (Raise (HTTPError 404), w')
  /\ abort_upload id w' = (Raise (HTTPError 404), w')
  /\ pth ∈ fs w'.
Proof.
  intros Hreg Hpth Hrun.
  destruct (upload_run_session _ _ _ _ _ _ Hreg Hpth Hrun)
    as (l & u & Hs & Hpath & Hnd & _).
  rewrite (complete_upload_session _ _ _ _ _ Hs). cbn [snd]. cbv zeta.
  match goal with |- context [write_part _ _ _ ?w1] => set (w' := w1) end.
  assert (multipart_uploaders w' !! id = None) as Hgone by apply lookup_delete_eq.
  split_and!.
  - intros p d. by apply write_part_no_upload.
  - unfold complete_upload. by rewrite (bind_run _ _ _ _ _ (factory_missing _ _ Hgone)).
  - unfold abort_upload. by rewrite (bind_run _ _ _ _ _ (factory_missing _ _ Hgone)).
  - simpl. rewrite <- Hpath. apply (sess_file _ _ _ _ _ Hs).
Qed.

Lemma completed_upload_is_gone_witness :
  let w := (upload_run demo_id demo_path [(2, b"B"); (1, b"A")] empty_world).2 in
  let w' := (complete_upload demo_id w).2 in
  (forall p d, write_part demo_id p d w' = (Raise (HTTPError 404), w'))
  /\ complete_upload demo_id w' = (Raise (HTTPError 404), w')
  /\ abort_upload demo_id w' = (Raise (HTTPError 404), w')
  /\ demo_path ∈ fs w'.
Proof.
  apply (completed_upload_is_gone empty_world demo_id demo_path
           [(2, b"B"); (1, b"A")]
           [MD5.hexdigest (b"B"); MD5.hexdigest (b"A")]).
  - reflexivity.
  - discriminate.
  - vm_compute. reflexivity.
Defined.

(** *** Abort without the file *)

(** X4. When the destination file of a registered upload is no longer
    there (another upload to the same path was aborted, say), abort
    closes the handle, raises OSError at the unlink and never reaches
    the removal from the registry: the id stays registered, and a
    second abort fails in the same way. *)
Theorem abort_without_file_keeps_registration (w : World) (id : str)
    (l : loc) (u : MultipartUploader) :
  multipart_uploaders w !! id = Some l ->
  heap w !! l = Some u ->
  path u ∉ fs w ->
  let w' := set_obj l (set_file (file_close (file u)) u) w in
  abort_upload id w = (Raise OSError, w')
  /\ multipart_uploaders w' !! id = Some l
  /\ abort_upload id w' = (Raise OSError, w').
Proof.
  intros Hreg Hu Hfile w'.
  assert (forall w1 u1, multipart_uploaders w1 !! id = Some l ->
            heap w1 !! l = Some u1 -> path u1 ∉ fs w1 ->
            abort_upload id w1
            = (Raise OSError, set_obj l (set_file (file_close (file u1)) u1) w1))
    as Habort.
  { intros w1 u1 Hreg1 Hu1 Hfile1. unfold abort_upload.
    rewrite (bind_run _ _ _ _ _ (factory_found _ _ _ _ Hreg1)). unfold abort.
    erewrite bind_run by (by eapply on_file_run).
    rewrite (bind_run _ _ _ _ _ (deref_run _ _ _ (heap_set_obj _ _ _))).
    erewrite bind_raise; [done|]. unfold unlink; simpl. by rewrite decide_False. }
  split_and!.
  - by apply Habort.
  - done.
  - rewrite (Habort w' (set_file (file_close (file u)) u)); try done.
    + unfold w'. by rewrite set_obj_twice.
    + apply heap_set_obj.
Qed.

Lemma abort_without_file_keeps_registration_witness :
  let w := (initiate_upload demo_id demo_path;;
            initiate_upload demo_id2 demo_path;;
            abort_upload demo_id) empty_world in
  let u := mkUploader demo_path demo_id2 (mkFile demo_path false []) 1 ∅ in
  let w' := set_obj 1%nat (set_file (file_close (file u)) u) w.2 in
  abort_upload demo_id2 w.2 = (Raise OSError, w')
  /\ multipart_uploaders w' !! demo_id2 = Some 1%nat
  /\ abort_upload demo_id2 w' = (Raise OSError, w').
Proof.
  apply (abort_without_file_keeps_registration
           ((initiate_upload demo_id demo_path;;
             initiate_upload demo_id2 demo_path;;
             abort_upload demo_id) empty_world).2
           demo_id2 1%nat
           (mkUploader demo_path demo_id2 (mkFile demo_path false []) 1 ∅)).
  - vm_compute. reflexivity.
  - vm_compute. reflexivity.
  - vm_compute. intros H. discriminate H.
Defined.

(** *** The file only grows *)

Lemma parts_upto_app (recv : gmap Z str) (a c : Z) :
  0 ≤ a -> 0 ≤ c ->
  parts_upto recv (a + c)
  = parts_upto recv a ++ mjoin (part_data recv <$> seqZ (1 + a) c).
Proof.
  intros Ha Hc. unfold parts_upto.
  by rewrite seqZ_app, fmap_app, join_app by lia.
Qed.

Lemma settled_cursor_mono (recv recv' : gmap Z str) (u u' : MultipartUploader) :
  settled recv u -> settled recv' u' -> recv ⊆ recv' ->
  part_number u ≤ part_number u'.
Proof.
  intros [Hfl _] [Hfl' Hgap'] Hsub.
  destruct (decide (part_number u ≤ part_number u')) as [|Hlt]; [done|].
  destruct (fl_contig _ _ Hfl (part_number u')) as [d Hd].
  { pose proof (fl_cursor _ _ Hfl'). lia. }
  eapply lookup_weaken in Hd; [|done]. congruence.
Qed.

Lemma settled_cursor_stays (recv recv' : gmap Z str) (u u' : MultipartUploader) :
  settled recv u -> settled recv' u' -> recv' !! part_number u = None ->
  part_number u' ≤ part_number u.
Proof.
  intros [Hfl _] [Hfl' _] Hnone.
  destruct (decide (part_number u' ≤ part_number u)) as [|Hlt]; [done|].
  destruct (fl_contig _ _ Hfl' (part_number u)) as [d Hd].
  { pose proof (fl_cursor _ _ Hfl). lia. }
  congruence.
Qed.

(** X5. An accepted part never rewrites what is in the file: the content
    after the upload is the content before followed by a tail, and the
    cursor does not move back. A part that is not the next expected one
    writes nothing and leaves the cursor; the next expected part is
    written at once, first in the tail, and moves the cursor on. *)
Theorem file_grows_by_appending (w0 : World) (id pth : str)
    (calls : list (Z * str)) (etags : list str) (w : World) (p : Z) (d : str) :
  multipart_uploaders w0 !! id = None ->
  pth ≠ [] ->
  upload_run id pth calls w0 = (Return etags, w) ->
  p ∉ calls.*1 ->
  exists (l : loc) (u u' : MultipartUploader) (w' : World) (tail : str),
    multipart_uploaders w !! id = Some l /\ heap w !! l = Some u
    /\ write_part id p d w = (Return (MD5.hexdigest d), w')
    /\ heap w' !! l = Some u'
    /\ f_written (file u') = f_written (file u) ++ tail
    /\ part_number u ≤ part_number u'
    /\ (p ≠ part_number u -> tail = [] /\ part_number u' = part_number u)
    /\ (p = part_number u ->
        d `prefix_of` tail /\ part_number u < part_number u').
Proof.
  intros Hreg Hpth Hrun Hp.
  destruct (upload_run_session _ _ _ _ _ _ Hreg Hpth Hrun)
    as (l & u & Hs & Hpath & Hnd & _).
  apply received_None in Hp. set (recv := received calls) in *.
  destruct (write_part_fresh w id recv l u p d Hs Hp) as (u' & Hw & Hs' & _).
  pose proof Hs as [Hl Hu _ _ Hset]. pose proof Hs' as [_ Hu' _ _ Hset'].
  pose proof (settled_cursor_mono recv (<[p:=d]> recv) u u' Hset Hset') as Hmono.
  specialize (Hmono (insert_subseteq _ _ _ Hp)).
  destruct Hset as [Hfl Hgap], Hset' as [Hfl' Hgap'].
  pose proof (fl_cursor _ _ Hfl) as Hc.
  exists l, u, u', (set_obj l u' w),
    (mjoin (part_data (<[p:=d]> recv) <$> seqZ (part_number u)
              (part_number u' - part_number u))).
  split; [done|]. split; [done|]. split; [done|]. split; [done|].
  split; [|split; [done|split]].
  - rewrite (fl_written _ _ Hfl'), (fl_written _ _ Hfl).
    replace (part_number u' - 1)
      with ((part_number u - 1) + (part_number u' - part_number u)) by lia.
    rewrite parts_upto_app by lia.
    replace (1 + (part_number u - 1)) with (part_number u) by lia.
    f_equal. apply parts_upto_ext. intros i Hi.
    rewrite lookup_insert_ne; [done|]. intros <-.
    destruct (fl_contig _ _ Hfl p) as [? ?]; [lia|congruence].
  - intros Hne.
    assert (part_number u' = part_number u) as Heq.
    { apply Z.le_antisymm; [|done].
      apply (settled_cursor_stays recv (<[p:=d]> recv) u u'); [done..|].
      by rewrite lookup_insert_ne. }
    rewrite Heq, Z.sub_diag, seqZ_nil by lia. done.
  - intros ->.
    assert (part_number u < part_number u') as Hlt.
    { destruct (decide (part_number u' = part_number u)) as [Heq|]; [|lia].
      rewrite Heq, lookup_insert_eq in Hgap'. done. }
    split; [|done]. rewrite seqZ_cons by lia. simpl.
    unfold part_data at 1. rewrite lookup_insert_eq. simpl.
    by apply prefix_app_r.
Qed.

Lemma file_grows_by_appending_witness :
  let w := (upload_run demo_id demo_path [(3, b"C"); (2, b"B")] empty_world).2 in
  exists (l : loc) (u u' : MultipartUploader) (w' : World) (tail : str),
    multipart_uploaders w !! demo_id = Some l /\ heap w !! l = Some u
    /\ write_part demo_id 1 (b"A") w = (Return (MD5.hexdigest (b"A")), w')
    /\ heap w' !! l = Some u'
    /\ f_written (file u') = f_written (file u) ++ tail
    /\ part_number u ≤ part_number u'
    /\ (1 ≠ part_number u -> tail = [] /\ part_number u' = part_number u)
    /\ (1 = part_number u ->
        b"A" `prefix_of` tail /\ part_number u < part_number u').
Proof.
  apply (file_grows_by_appending empty_world demo_id demo_path
           [(3, b"C"); (2, b"B")]
           [MD5.hexdigest (b"C"); MD5.hexdigest (b"B")]).
  - reflexivity.
  - discriminate.
  - vm_compute. reflexivity.
  - vm_compute. intros H.
    repeat (apply elem_of_cons in H as [H|H]; [discriminate H|]).
    by apply elem_of_nil in H.
Defined.

(** *** All parts, in any order *)

(** X6. When the parts 1 to n of an upload arrive in any order, each
    once and nothing else, all are accepted and completion succeeds:
    the file is closed holding the n payloads in part-number order, the
    completion reports the digests of all n parts in order, no payload
    is left in memory, and the upload id is released. *)
Theorem all_parts_in_any_order (w0 : World) (id pth : str)
    (payload : Z -> str) (n : nat) (calls : list (Z * str)) :
  multipart_uploaders w0 !! id = None ->
  pth ≠ [] ->
  calls ≡ₚ (fun i => (i, payload i)) <$> seqZ 1 (Z.of_nat n) ->
  exists (l : loc) (u : MultipartUploader) (w' : World),
    (upload_run id pth calls;; complete_upload id) w0
    = (Return ((fun i => (i, MD5.hexdigest (payload i))) <$> seqZ 1 (Z.of_nat n)), w')
    /\ heap w' !! l = Some u
    /\ f_closed (file u) = true
    /\ f_written (file u) = mjoin (payload <$> seqZ 1 (Z.of_nat n))
    /\ (forall q buf, buffers u !! q = Some buf -> data buf = None)
    /\ multipart_uploaders w' !! id = None.
Proof.
  intros Hreg Hpth Hperm.
  assert (calls.*1 ≡ₚ seqZ 1 (Z.of_nat n)) as Hkeys.
  { rewrite Hperm, <- list_fmap_compose. by rewrite list_fmap_id. }
  assert (NoDup calls.*1) as Hnd by (rewrite Hkeys; apply NoDup_seqZ).
  assert (forall i d, (i, d) ∈ calls <-> 1 ≤ i ≤ Z.of_nat n /\ d = payload i) as Hin.
  { intros i d. rewrite Hperm, list_elem_of_fmap. split.
    - intros (j & [= -> ->] & [k [-> Hk]%lookup_seqZ]%list_elem_of_lookup).
      split; [lia|done].
    - intros [Hi ->]. exists i. split; [done|].
      apply list_elem_of_lookup. exists (Z.to_nat (i - 1)).
      apply lookup_seqZ. lia. }
  destruct (any_order_accepted w0 id pth calls Hreg Hpth Hnd) as (w & Hrun).
  destruct (upload_run_session _ _ _ _ _ _ Hreg Hpth Hrun)
    as (l & u & Hs & Hpath & _ & _).
  pose proof Hs as [_ _ _ _ [Hfl Hgap]].
  pose proof (fl_cursor _ _ Hfl) as Hc.
  assert (part_number u = Z.of_nat n + 1) as Hpn.
  { apply Z.le_antisymm.
    - destruct (decide (part_number u ≤ Z.of_nat n + 1)) as [|Hgt]; [done|].
      destruct (fl_contig _ _ Hfl (Z.of_nat n + 1)) as [d Hd]; [lia|].
      apply received_lookup, Hin in Hd; [lia|done].
    - destruct (decide (Z.of_nat n + 1 ≤ part_number u)) as [|Hlt]; [done|].
      assert ((part_number u, payload (part_number u)) ∈ calls) as Hcall
        by (apply Hin; split; [lia|done]).
      apply received_lookup in Hcall; [|done]. congruence. }
  assert (forall i, 1 ≤ i ≤ Z.of_nat n ->
            part_data (received calls) i = payload i) as Hdata.
  { intros i Hi. unfold part_data.
    assert ((i, payload i) ∈ calls) as Hcall by (by apply Hin).
    apply received_lookup in Hcall; [|done]. by rewrite Hcall. }
  assert (forall (f : str -> str),
            (f ∘ part_data (received calls)) <$> seqZ 1 (Z.of_nat n)
            = (f ∘ payload) <$> seqZ 1 (Z.of_nat n)) as Hmap.
  { intros f. apply list_eq; intros k. rewrite !list_lookup_fmap.
    destruct (seqZ 1 (Z.of_nat n) !! k) as [i|] eqn:Hi; [|done]. simpl.
    apply lookup_seqZ in Hi as [-> Hk]. by rewrite Hdata by lia. }
  eexists l, _, _. split_and!.
  - rewrite (bind_run _ _ _ _ _ Hrun), (complete_upload_session _ _ _ _ _ Hs).
    rewrite Hpn. replace (Z.of_nat n + 1 - 1) with (Z.of_nat n) by lia.
    do 2 f_equal. apply list_eq; intros k. rewrite !list_lookup_fmap.
    destruct (seqZ 1 (Z.of_nat n) !! k) as [i|] eqn:Hi; [|done]. simpl.
    apply lookup_seqZ in Hi as [-> Hk]. by rewrite Hdata by lia.
  - simpl. apply lookup_insert_eq.
  - done.
  - simpl. rewrite (fl_written _ _ Hfl), Hpn. unfold parts_upto.
    replace (Z.of_nat n + 1 - 1) with (Z.of_nat n) by lia.
    f_equal. apply (Hmap (fun x => x)).
  - simpl. intros q buf. rewrite (fl_buffers _ _ Hfl).
    destruct (received calls !! q) as [d|] eqn:Hq; [|done]. simpl.
    intros [= <-]. apply received_lookup, Hin in Hq as [Hq _]; [|done].
    simpl. rewrite bool_decide_eq_true_2; [done|lia].
  - simpl. apply lookup_delete_eq.
Qed.

Lemma all_parts_in_any_order_witness :
  let payload := fun i : Z => repeat "x"%char (Z.to_nat i) in
  exists (l : loc) (u : MultipartUploader) (w' : World),
    (upload_run demo_id demo_path
       [(3, payload 3); (1, payload 1); (2, payload 2)];;
     complete_upload demo_id) empty_world
    = (Return ((fun i => (i, MD5.hexdigest (payload i))) <$> seqZ 1 (Z.of_nat 3)), w')
    /\ heap w' !! l = Some u
    /\ f_closed (file u) = true
    /\ f_written (file u) = mjoin (payload <$> seqZ 1 (Z.of_nat 3))
    /\ (forall q buf, buffers u !! q = Some buf -> data buf = None)
    /\ multipart_uploaders w' !! demo_id = None.
Proof.
  apply (all_parts_in_any_order empty_world demo_id demo_path
           (fun i : Z => repeat "x"%char (Z.to_nat i)) 3).
  - reflexivity.
  - discriminate.
  - vm_compute.
    etrans; [apply Permutation_swap|]. apply perm_skip, Permutation_swap.
Defined.

(** ** Further properties of the listing *)

Lemma startswith_le (k p : str) : startswith k p = true -> str_le p k.
Proof.
  rewrite str_le_spec. revert k.
  induction p as [|c p IH]; intros [|c' k]; simpl; try done.
  intros [Hc Hk]%andb_true_iff. apply bool_decide_eq_true in Hc as ->.
  rewrite Z.compare_refl. by apply IH.
Qed.

(** The keys that start with a prefix form an interval of the order. *)
Lemma startswith_between (p k2 k3 : str) :
  startswith k3 p = true -> str_le p k2 -> str_le k2 k3 ->
  startswith k2 p = true.
Proof.
  rewrite !str_le_spec. revert k2 k3.
  induction p as [|c p IH]; intros k2 k3; [done|].
  destruct k3 as [|c3 k3]; [done|]. simpl.
  intros [Hc Hk]%andb_true_iff. apply bool_decide_eq_true in Hc as ->.
  destruct k2 as [|c2 k2]; [done|]. simpl.
  destruct (ord c ?= ord c2) eqn:H12; [|intros _|done].
  - apply Z.compare_eq, ord_inj in H12 as <-.
    rewrite Z.compare_refl, bool_decide_eq_true_2 by done. simpl. by apply IH.
  - rewrite Z.compare_antisym, H12. simpl. done.
Qed.

Lemma sorted_lookup_lt (a : list str) (i j : nat) (x y : str) :
  StronglySorted str_le a -> NoDup a ->
  (i < j)%nat -> a !! i = Some x -> a !! j = Some y -> str_lt x y = true.
Proof.
  intros Hs Hnd Hij Hi Hj.
  pose proof (sorted_lookup_le a i j x y Hs) as Hle.
  specialize (Hle ltac:(lia) Hi Hj). apply str_le_spec in Hle.
  apply str_lt_spec. destruct (str_compare x y) eqn:Hc; [|done..].
  apply str_compare_eq in Hc as ->.
  pose proof (NoDup_lookup a i j y Hnd Hi Hj). lia.
Qed.

Lemma merge_sort_str_sorted (names : list str) :
  StronglySorted str_le (merge_sort str_le names).
Proof. apply StronglySorted_merge_sort; apply _. Qed.

(** Where the scan starts: every key from there on is above the marker
    and at least the prefix; every key before is at most the marker or
    below the prefix. *)
Lemma start_position_bounds (keys : list str) (prefix marker : str) :
  StronglySorted str_le keys ->
  exists s : nat,
    start_position keys prefix marker = Return s
    /\ (s ≤ length keys)%nat
    /\ (forall j k, (s ≤ j)%nat -> keys !! j = Some k ->
          (nonempty marker = true -> str_lt marker k = true)
          /\ (nonempty prefix = true -> str_le prefix k))
    /\ (forall j k, (j < s)%nat -> keys !! j = Some k ->
          (nonempty marker = true /\ str_lt marker k = false)
          \/ (nonempty prefix = true /\ str_lt k prefix = true)).
Proof.
  intros Hsorted. unfold start_position.
  assert (exists s1 : nat,
    (if nonempty marker then bisect_right keys marker 0 else Return 0%nat) = Return s1
    /\ (s1 ≤ length keys)%nat
    /\ (forall j k, (s1 ≤ j)%nat -> keys !! j = Some k ->
          nonempty marker = true -> str_lt marker k = true)
    /\ (forall j k, (j < s1)%nat -> keys !! j = Some k ->
          nonempty marker = true /\ str_lt marker k = false))
    as (s1 & -> & Hlen1 & Hhigh1 & Hlow1).
  { destruct (nonempty marker).
    - destruct (bisect_right_spec keys Hsorted marker 0)
        as (s1 & Hrun & (Hb & Hlow & _) & Hhigh); [lia|].
      exists s1. split; [done|]. split; [lia|]. split.
      + intros j k Hj Hk _. by apply (Hhigh j).
      + intros j k Hj Hk. split; [done|].
        destruct (str_lt marker k) eqn:Hlt; [|done].
        exfalso. apply (Hlow j k); [lia|done..].
    - exists 0%nat. split; [done|]. split; [lia|]. split; [done|].
      intros j k Hj. lia. }
  destruct (nonempty prefix).
  - destruct (bisect_left_spec keys Hsorted prefix s1 Hlen1)
      as (s & Hrun & (Hb & Hlow & _) & Hhigh).
    exists s. split; [done|]. split; [lia|]. split.
    + intros j k Hj Hk. split; [apply (Hhigh1 j); [lia|done]|].
      intros _. by apply (Hhigh j).
    + intros j k Hj Hk. destruct (decide (j < s1)%nat) as [Hj1|Hj1].
      * left. by apply (Hlow1 j).
      * right. split; [done|].
        destruct (str_lt k prefix) eqn:Hlt; [done|].
        exfalso. apply (Hlow j k); [lia|done..].
  - exists s1. split; [done|]. split; [done|]. split.
    + intros j k Hj Hk. split; [by apply (Hhigh1 j)|done].
    + intros j k Hj Hk. left. by apply (Hlow1 j).
Qed.

(** *** The keys that a listing selects *)

Lemma select_sound (object_names : list str) (prefix marker : str)
    (max_keys : Z) :
  exists (ks : list str) (m : str) (t : bool) (before after : list str),
    select_keys object_names prefix marker max_keys = Return (ks, m, t)
    /\ merge_sort str_le object_names = before ++ ks ++ after
    /\ StronglySorted str_le ks
    /\ (forall k, k ∈ ks ->
          k ∈ object_names /\ startswith k prefix = true
          /\ (nonempty marker = true -> str_lt marker k = true))
    /\ Z.of_nat (length ks) ≤ Z.max 0 max_keys.
Proof.
  set (keys := merge_sort str_le object_names).
  destruct (start_position_bounds keys prefix marker (merge_sort_str_sorted _))
    as (s & Hstart & Hs & Hhigh & _).
  destruct (select_keys_shape object_names prefix marker max_keys)
    as (s' & n & t & Hstart' & Hrun & Hn & Hall & Hmax & _).
  fold keys in Hstart', Hrun, Hn, Hall.
  rewrite Hstart in Hstart'. injection Hstart' as <-.
  assert (keys = take s keys ++ take n (drop s keys) ++ drop n (drop s keys))
    as Hsplit by (by rewrite !take_drop).
  eexists _, _, _, (take s keys), (drop n (drop s keys)).
  split; [exact Hrun|]. split; [done|]. split; [|split].
  - pose proof (merge_sort_str_sorted object_names) as Hsorted. fold keys in Hsorted.
    rewrite Hsplit in Hsorted.
    by apply StronglySorted_app_1_r, StronglySorted_app_1_l in Hsorted.
  - intros k Hk. split; [|split].
    + rewrite <- (merge_sort_Permutation str_le object_names). fold keys.
      rewrite Hsplit. apply elem_of_app. right. apply elem_of_app. by left.
    + rewrite Forall_forall in Hall. by apply Hall.
    + apply elem_of_take in Hk as (i & Hi & _). rewrite lookup_drop in Hi.
      intros Hm. by apply (Hhigh (s + i)%nat k); [lia|done|].
  - rewrite length_take. lia.
Qed.

Lemma select_complete (object_names : list str) (prefix marker : str)
    (max_keys : Z) (ks : list str) (m : str) (k : str) :
  select_keys object_names prefix marker max_keys = Return (ks, m, false) ->
  k ∈ object_names ->
  startswith k prefix = true ->
  (nonempty marker = true -> str_lt marker k = true) ->
  k ∈ ks.
Proof.
  intros Hrun Hk Hpre Hmark.
  set (keys := merge_sort str_le object_names).
  pose proof (merge_sort_str_sorted object_names) as Hsorted. fold keys in Hsorted.
  destruct (start_position_bounds keys prefix marker Hsorted)
    as (s & Hstart & Hs & Hhigh & Hlow).
  destruct (select_keys_shape object_names prefix marker max_keys)
    as (s' & n & t & Hstart' & Hrun' & Hn & Hall & Hmax & Hnext).
  fold keys in Hstart', Hrun', Hn, Hall, Hnext.
  rewrite Hstart in Hstart'. injection Hstart' as <-.
  rewrite Hrun in Hrun'. injection Hrun' as -> -> <-.
  assert (k ∈ keys) as Hin by (unfold keys; by rewrite merge_sort_Permutation).
  apply list_elem_of_lookup in Hin as [j Hj].
  assert (s ≤ j)%nat as Hsj.
  { destruct (decide (s ≤ j)%nat) as [|Hlt]; [done|].
    destruct (Hlow j k) as [[Hm Hle]|[Hp Hlt']]; [lia|done|..].
    - rewrite Hmark in Hle by done. done.
    - apply startswith_le in Hpre. unfold str_le in Hpre. congruence. }
  destruct (decide (j < s + n)%nat) as [Hjn|Hjn].
  { apply elem_of_take. exists (j - s)%nat. rewrite lookup_drop.
    replace (s + (j - s))%nat with j by lia. split; [done|lia]. }
  exfalso.
  destruct (keys !! (s + n)%nat) as [k'|] eqn:Hk'.
  2:{ apply lookup_ge_None in Hk'. apply lookup_lt_Some in Hj. lia. }
  destruct (startswith k' prefix) eqn:Hpre'; [by destruct Hnext|].
  assert (startswith k' prefix = true); [|congruence].
  apply (startswith_between prefix k' k); [done| |].
  - destruct (nonempty prefix) eqn:Hp.
    + by apply (Hhigh (s + n)%nat k'); [lia|done|].
    + destruct prefix; [|done]. done.
  - apply (sorted_lookup_le keys (s + n) j); [done|lia|done..].
Qed.

Lemma select_keys_perm (object_names object_names' : list str)
    (prefix marker : str) (max_keys : Z) :
  object_names ≡ₚ object_names' ->
  merge_sort str_le object_names = merge_sort str_le object_names'.
Proof.
  intros Hperm.
  apply (StronglySorted_unique str_le); try apply merge_sort_str_sorted.
  by rewrite !merge_sort_Permutation.
Qed.

Lemma scan_collects (xs ys : list str) (prefix : str) (max_keys : Z) :
  forall (acc : list str) (marker : str),
    Forall (fun k => startswith k prefix = true) xs ->
    Z.of_nat (length acc + length xs) ≤ max_keys ->
    scan_keys (xs ++ ys) prefix max_keys acc marker
    = scan_keys ys prefix max_keys (acc ++ xs) (default marker (last xs)).
Proof.
  induction xs as [|x xs IH]; intros acc marker Hall Hlen.
  - simpl. by rewrite app_nil_r.
  - inv Hall. cbn [app scan_keys]. rewrite H1. cbn [negb].
    destruct (Z.geb_spec (Z.of_nat (length acc)) max_keys) as [Hge|_].
    { simpl in Hlen. lia. }
    rewrite IH; [|done|rewrite length_app; simpl in *; lia].
    by rewrite <- app_assoc, last_cons_default.
Qed.

Lemma scan_shift (ys : list str) (prefix : str) (budget : Z) (acc : list str) :
  forall (c0 : list str) (marker : str),
    scan_keys ys prefix (Z.of_nat (length acc) + budget) (acc ++ c0) marker
    = let '(c, m, t) := scan_keys ys prefix budget c0 marker in (acc ++ c, m, t).
Proof.
  induction ys as [|y ys IH]; intros c0 marker; [done|].
  cbn [scan_keys]. destruct (startswith y prefix); cbn [negb]; [|done].
  rewrite length_app.
  destruct (Z.geb_spec (Z.of_nat (length c0)) budget) as [Hge|Hlt].
  - rewrite (proj2 (Z.geb_le _ _)) by lia. done.
  - destruct (Z.geb_spec (Z.of_nat (length acc + length c0))
                (Z.of_nat (length acc) + budget)) as [Hge'|_]; [lia|].
    rewrite <- app_assoc. apply IH.
Qed.

Lemma select_next_page (object_names : list str) (prefix marker : str)
    (m m' : Z) (xs : list str) (mk1 : str) :
  NoDup object_names ->
  [] ∉ object_names ->
  0 ≤ m -> 0 ≤ m' ->
  select_keys object_names prefix marker m = Return (xs, mk1, true) ->
  exists (c2 : list str) (mk2 : str) (t2 : bool),
    select_keys object_names prefix mk1 m' = Return (c2, mk2, t2)
    /\ select_keys object_names prefix marker (m + m') = Return (xs ++ c2, mk2, t2).
Proof.
  intros Hnd Hne Hm Hm' Hrun.
  set (keys := merge_sort str_le object_names).
  pose proof (merge_sort_str_sorted object_names) as Hsorted. fold keys in Hsorted.
  assert (NoDup keys) as Hndk by (unfold keys; by rewrite merge_sort_Permutation).
  assert ([] ∉ keys) as Hnek by (unfold keys; by rewrite merge_sort_Permutation).
  destruct (select_keys_shape object_names prefix marker m)
    as (s & n & t & Hstart & Hrun1 & Hn & Hall & Hmax & Hnext).
  fold keys in Hstart, Hrun1, Hn, Hall, Hnext.
  rewrite Hrun in Hrun1. injection Hrun1 as -> -> <-.
  destruct (keys !! (s + n)%nat) as [k'|] eqn:Hk'; [|done].
  destruct (startswith k' prefix) eqn:Hpre'; [|done].
  destruct Hnext as [_ Hfull].
  assert (Z.of_nat n = m) as Hnm by lia.
  set (xs := take n (drop s keys)) in *.
  assert (length xs = n) as Hlen.
  { unfold xs. rewrite length_take, length_drop. lia. }
  assert (drop s keys = xs ++ drop (s + n) keys) as Hsplit.
  { unfold xs. by rewrite <- (drop_drop keys n s), take_drop. }
  (* the second page starts right after the first *)
  assert (start_position keys prefix (default marker (last xs))
          = Return (if decide (n = 0%nat) then s else (s + n)%nat)) as Hstart2.
  { destruct (decide (n = 0%nat)) as [->|Hn0].
    { unfold xs. by rewrite take_0. }
    assert (exists lastk, last xs = Some lastk
              /\ keys !! (s + n - 1)%nat = Some lastk) as (lastk & Hlast & Hlastk).
    { rewrite last_lookup, Hlen. unfold xs.
      rewrite lookup_take_lt, lookup_drop by lia.
      replace (s + Init.Nat.pred n)%nat with (s + n - 1)%nat by lia.
      destruct (lookup_lt_is_Some_2 keys (s + n - 1)) as [k Hk]; [lia|].
      exists k. by rewrite Hk. }
    rewrite Hlast. change (default marker (Some lastk)) with lastk.
    assert (nonempty lastk = true) as Hlne.
    { destruct lastk; [|done]. exfalso. apply Hnek.
      by eapply list_elem_of_lookup_2. }
    destruct (start_position_bounds keys prefix lastk Hsorted)
      as (s2 & Hs2 & Hlen2 & Hhigh2 & Hlow2).
    rewrite Hs2. f_equal.
    destruct (decide (s2 ≤ s + n)%nat) as [Hle|Hgt].
    - destruct (decide (s + n ≤ s2)%nat) as [|Hlt]; [lia|]. exfalso.
      destruct (lookup_lt_is_Some_2 keys s2) as [k2 Hk2]; [lia|].
      destruct (Hhigh2 s2 k2) as [Habove _]; [lia|done|].
      specialize (Habove Hlne).
      pose proof (sorted_lookup_le keys s2 (s + n - 1) k2 lastk Hsorted) as Hle2.
      specialize (Hle2 ltac:(lia) Hk2 Hlastk). unfold str_le in Hle2. congruence.
    - exfalso. destruct (Hlow2 (s + n)%nat k') as [[_ Hnot]|[_ Hbelow]]; [lia|done|..].
      + pose proof (sorted_lookup_lt keys (s + n - 1) (s + n) lastk k' Hsorted Hndk).
        specialize (H ltac:(lia) Hlastk Hk'). congruence.
      + apply startswith_le in Hpre'. unfold str_le in Hpre'. congruence. }
  destruct (scan_keys (drop (s + n) keys) prefix m' [] (default marker (last xs)))
    as [[c2 mk2] t2] eqn:Hscan2.
  exists c2, mk2, t2.
  split.
  - unfold select_keys. fold keys. rewrite Hstart2.
    destruct (decide (n = 0%nat)) as [->|Hn0].
    + rewrite Nat.add_0_r in Hscan2. by rewrite Hscan2.
    + by rewrite Hscan2.
  - unfold select_keys. fold keys. rewrite Hstart, Hsplit.
    rewrite (scan_collects xs _ prefix (m + m') [] marker); [|done|simpl; lia].
    rewrite app_nil_l.
    replace (m + m') with (Z.of_nat (length xs) + m') by lia.
    rewrite <- (app_nil_r xs) at 2.
    rewrite (scan_shift _ prefix m' xs [] _), Hscan2. done.
Qed.

(** *** Properties of the listing *)

Lemma listing_permutation cwd stat app bucket (object_names object_names' : list str)
    (prefix marker : str) (max_keys terse : Z) :
  object_names ≡ₚ object_names' ->
  list_keys cwd stat app bucket object_names prefix marker max_keys terse
  = list_keys cwd stat app bucket object_names' prefix marker max_keys terse.
Proof.
  intros Hperm. unfold list_keys.
  by rewrite (select_keys_perm object_names object_names' prefix marker max_keys).
Qed.

(** A listing returns when every entry can be made. *)
Lemma list_keys_returns cwd stat app bucket (object_names : list str)
    (prefix marker : str) (max_keys terse : Z) :
  (forall k, k ∈ object_names ->
     exists c, entry cwd stat app bucket terse k = Return c) ->
  exists r,
    list_keys cwd stat app bucket object_names prefix marker max_keys terse
    = Return r.
Proof.
  intros Hall.
  destruct (select_sound object_names prefix marker max_keys)
    as (ks & m & t & before & after & Hsel & _ & _ & Hin & _).
  rewrite list_keys_select, Hsel.
  destruct (entries _ _ _ _ _ ks) as [es|e] eqn:Hes; [by eexists|].
  destruct (entries_Raise _ _ _ _ _ _ _ Hes) as (k & Hk & He).
  destruct (Hall k) as [c Hc]; [by apply Hin|]. congruence.
Qed.

(** X7. A listing that returns holds the entries of a block of
    consecutive keys of the sorted key sequence: the keys are in
    ascending order, each is one of the object names, starts with the
    prefix and, for a non-empty marker, is above the marker, and there
    are at most max_keys of them (none for a max_keys that is not
    positive). A listing raises only when the request is not terse and
    the entry of such a key raises, OSError from os.stat or ValueError
    from the date; it then raises the same. *)
Theorem listing_sound (cwd : str) (stat : str -> option stat_result)
    (app : S3Application) (bucket_name : str) (object_names : list str)
    (prefix marker : str) (max_keys terse : Z) :
  let selected := fun k : str =>
    k ∈ object_names /\ startswith k prefix = true
    /\ (nonempty marker = true -> str_lt marker k = true) in
  match list_keys cwd stat app bucket_name object_names
                  prefix marker max_keys terse with
  | Return r =>
      exists before after : list str,
        Name r = bucket_name /\ Prefix r = prefix /\ MaxKeys r = max_keys
        /\ merge_sort str_le object_names = before ++ (Key <$> Contents r) ++ after
        /\ StronglySorted str_le (Key <$> Contents r)
        /\ (forall k, k ∈ Key <$> Contents r -> selected k)
        /\ Z.of_nat (length (Contents r)) ≤ Z.max 0 max_keys
        /\ Forall (fun c => entry cwd stat app bucket_name terse (Key c) = Return c)
                  (Contents r)
  | Raise e =>
      terse = 0 /\ (e = OSError \/ e = ValueError)
      /\ exists k, selected k
           /\ entry cwd stat app bucket_name terse k = Raise e
  end.
Proof.
  intros selected.
  destruct (select_sound object_names prefix marker max_keys)
    as (ks & m & t & before & after & Hsel & Hsplit & Hsorted & Hin & Hlen).
  rewrite list_keys_select, Hsel.
  destruct (entries _ _ _ _ _ ks) as [es|e] eqn:Hes.
  - exists before, after. cbn [Name Prefix MaxKeys Contents].
    pose proof (entries_keys _ _ _ _ _ _ _ Hes) as Hkeys. rewrite Hkeys.
    split; [done|]. split; [done|]. split; [done|]. split; [done|].
    split; [done|]. split; [done|].
    split; [by rewrite <- Hkeys, length_fmap in Hlen|].
    apply entries_Return in Hes. rewrite <- Hkeys in Hes.
    clear -Hes. induction es as [|c es IH]; [constructor|].
    rewrite fmap_cons in Hes. inv Hes. constructor; [done|]. by apply IH.
  - destruct (entries_Raise _ _ _ _ _ _ _ Hes) as (k & Hk & He).
    destruct (entry_raises _ _ _ _ _ _ _ He) as [Ht Hexn].
    split; [done|]. split; [done|]. exists k. split; [by apply Hin|done].
Qed.

(** X8. A listing that is not truncated is complete: it contains every
    object name that starts with the prefix and, for a non-empty
    marker, is above the marker. *)
Theorem untruncated_listing_complete (cwd : str)
    (stat : str -> option stat_result) (app : S3Application)
    (bucket_name : str) (object_names : list str)
    (prefix marker : str) (max_keys terse : Z) (r : ListBucketResult) (k : str) :
  list_keys cwd stat app bucket_name object_names prefix marker max_keys terse
  = Return r ->
  IsTruncated r = false ->
  k ∈ object_names ->
  startswith k prefix = true ->
  (nonempty marker = true -> str_lt marker k = true) ->
  k ∈ Key <$> Contents r.
Proof.
  intros Hrun Htrunc Hk Hpre Hmark.
  rewrite list_keys_select in Hrun.
  destruct (select_keys _ _ _ _) as [[[ks m] t]|] eqn:Hsel; [|done].
  destruct (entries _ _ _ _ _ ks) as [es|] eqn:Hes; [|done].
  injection Hrun as <-. cbn [IsTruncated Contents] in *. subst t.
  rewrite (entries_keys _ _ _ _ _ _ _ Hes).
  by eapply select_complete.
Qed.

Lemma untruncated_listing_complete_witness :
  b"ab" ∈ Key <$> Contents (mkListing (b"b") (b"a") (b"ab") 50 false
                              (demo_entry 0 <$> [b"a"; b"ab"])).
Proof.
  apply (untruncated_listing_complete demo_cwd demo_stat (demo_app 0) (b"b")
           demo_bucket (b"a") (b"") 50 0
           (mkListing (b"b") (b"a") (b"ab") 50 false
              (demo_entry 0 <$> [b"a"; b"ab"])) (b"ab")).
  - vm_compute. reflexivity.
  - reflexivity.
  - unfold demo_bucket. do 3 apply list_elem_of_further. apply list_elem_of_here.
  - vm_compute. reflexivity.
  - simpl. discriminate.
Defined.

(** X9. The listing does not depend on the order in which the walk of
    the bucket directory found the files. *)
Theorem listing_ignores_walk_order (cwd : str)
    (stat : str -> option stat_result) (app : S3Application)
    (bucket_name : str) (object_names object_names' : list str)
    (prefix marker : str) (max_keys terse : Z) :
  object_names ≡ₚ object_names' ->
  list_keys cwd stat app bucket_name object_names prefix marker max_keys terse
  = list_keys cwd stat app bucket_name object_names' prefix marker max_keys terse.
Proof.
  apply listing_permutation.
Qed.

Lemma listing_ignores_walk_order_witness :
  list_keys demo_cwd demo_stat (demo_app 0) (b"b")
            [b"c"; b"a"; b"b"; b"ab"] (b"a") (b"") 1 0
  = list_keys demo_cwd demo_stat (demo_app 0) (b"b")
              [b"a"; b"c"; b"b"; b"ab"] (b"a") (b"") 1 0.
Proof.
  apply (listing_ignores_walk_order demo_cwd demo_stat (demo_app 0) (b"b")
           [b"c"; b"a"; b"b"; b"ab"] [b"a"; b"c"; b"b"; b"ab"] (b"a") (b"") 1 0).
  apply Permutation_swap.
Defined.

(** X10. Paging with the returned marker continues where the page
    stopped. For distinct, non-empty object names and values of
    max_keys m and m' that are not negative: when a listing with
    max_keys m is truncated, the listing that starts from its marker
    with max_keys m' returns exactly what the one listing with max_keys
    m + m' returns after the first page, with the same truncation flag
    and the same marker; and where the second page raises, at the entry
    of one of its keys, the one listing raises the same. *)
Theorem next_page_continues (cwd : str) (stat : str -> option stat_result)
    (app : S3Application) (bucket_name : str) (object_names : list str)
    (prefix marker : str) (m m' terse : Z) (r1 : ListBucketResult) :
  NoDup object_names ->
  [] ∉ object_names ->
  0 ≤ m -> 0 ≤ m' ->
  list_keys cwd stat app bucket_name object_names prefix marker m terse
  = Return r1 ->
  IsTruncated r1 = true ->
  match list_keys cwd stat app bucket_name object_names
                  prefix (Marker r1) m' terse with
  | Return r2 =>
      exists r12 : ListBucketResult,
        list_keys cwd stat app bucket_name object_names
                  prefix marker (m + m') terse = Return r12
        /\ Contents r12 = Contents r1 ++ Contents r2
        /\ IsTruncated r12 = IsTruncated r2
        /\ Marker r12 = Marker r2
  | Raise e =>
      list_keys cwd stat app bucket_name object_names
                prefix marker (m + m') terse = Raise e
  end.
Proof.
  intros Hnd Hne Hm Hm' Hrun Htrunc.
  rewrite list_keys_select in Hrun.
  destruct (select_keys _ _ marker m) as [[[xs mk1] t1]|] eqn:Hsel; [|done].
  destruct (entries _ _ _ _ _ xs) as [es1|] eqn:Hes1; [|done].
  injection Hrun as <-. cbn [IsTruncated Contents Marker] in *. subst t1.
  destruct (select_next_page object_names prefix marker m m' xs mk1)
    as (c2 & mk2 & t2 & Hsel2 & Hsel12); [done..|].
  rewrite !list_keys_select, Hsel2, Hsel12, entries_app, Hes1.
  destruct (entries _ _ _ _ _ c2) as [es2|e]; [|done].
  eexists. split; [reflexivity|]. done.
Qed.

Lemma next_page_continues_witness :
  let r1 := mkListing (b"b") (b"") (b"ab") 2 true (demo_entry 0 <$> [b"a"; b"ab"]) in
  match demo_listing demo_bucket (b"") (Marker r1) 1 0 with
  | Return r2 =>
      exists r12 : ListBucketResult,
        demo_listing demo_bucket (b"") (b"") (2 + 1) 0 = Return r12
        /\ Contents r12 = Contents r1 ++ Contents r2
        /\ IsTruncated r12 = IsTruncated r2
        /\ Marker r12 = Marker r2
  | Raise e => demo_listing demo_bucket (b"") (b"") (2 + 1) 0 = Raise e
  end.
Proof.
  apply (next_page_continues demo_cwd demo_stat (demo_app 0) (b"b") demo_bucket
           (b"") (b"") 2 1 0
           (mkListing (b"b") (b"") (b"ab") 2 true (demo_entry 0 <$> [b"a"; b"ab"]))).
  - unfold demo_bucket. repeat (apply NoDup_cons; split;
      [intros H; repeat (apply elem_of_cons in H as [H|H]; [discriminate H|]);
       by apply elem_of_nil in H|]). apply NoDup_nil_2.
  - unfold demo_bucket. intros H.
    repeat (apply elem_of_cons in H as [H|H]; [discriminate H|]).
    by apply elem_of_nil in H.
  - lia.
  - lia.
  - vm_compute. reflexivity.
  - reflexivity.
Defined.

(** The second page of a bucket in which the file of the key c is gone,
    and the same keys in one listing. *)
Example next_page_raises :
  let stat := fun p => if bool_decide (p = b"/tmp/s3/b/c") then None else demo_stat p in
  list_keys demo_cwd stat (demo_app 0) (b"b") demo_bucket (b"") (b"") 2 0
  = Return (mkListing (b"b") (b"") (b"ab") 2 true (demo_entry 0 <$> [b"a"; b"ab"]))
  /\ list_keys demo_cwd stat (demo_app 0) (b"b") demo_bucket (b"") (b"ab") 2 0
     = Raise OSError
  /\ list_keys demo_cwd stat (demo_app 0) (b"b") demo_bucket (b"") (b"") 4 0
     = Raise OSError.
Proof. vm_compute. done. Qed.

(** ** Further properties of the path mapping *)

(** The path of a storable key is the bucket directory, the shard
    directories, a slash and the key; the skip of the listing is the
    length of what comes before the key. *)
Lemma object_path_shape (cwd : str) (app : S3Application) (bucket k : str) :
  let bucket_dir := abspath cwd (join (directory app) bucket) in
  isabs (directory app) = true ->
  endswith bucket_dir (b"/") = false ->
  bucket_depth app ≤ 16 ->
  storable_key (bucket_depth app) k ->
  exists shards : str,
    _object_path cwd app bucket k = (bucket_dir ++ shards ++ b"/") ++ k
    /\ Z.to_nat (shard_skip bucket_dir (bucket_depth app))
       = length (bucket_dir ++ shards ++ b"/").
Proof.
  intros bucket_dir Habs Hend Hdepth Hkey. unfold storable_key in Hkey.
  destruct (bucket_depth app <? 1) eqn:Hd.
  - apply Z.ltb_lt in Hd. exists [].
    assert (isabs (join (directory app) bucket) = true) as HJ
      by (by apply join_absolute).
    assert (bucket_dir = normpath (join (directory app) bucket)) as Hbd
      by (by apply abspath_absolute).
    unfold _object_path, shard_skip. rewrite (proj2 (Z.ltb_lt _ _)) by done.
    unfold range. rewrite seqZ_nil by lia. cbn [foldl].
    rewrite abspath_absolute by (by apply join_absolute).
    rewrite normpath_join_normal; [|by apply isabs_head|done|].
    2:{ rewrite <- Hbd. rewrite endswith_slash in Hend.
        by apply bool_decide_eq_false in Hend. }
    rewrite <- Hbd. split.
    + by rewrite <- app_assoc.
    + rewrite !length_app. simpl. lia.
  - apply Z.ltb_ge in Hd.
    destruct (object_path_sharded_shape cwd app bucket k) as (shards & Hp & Hs);
      [lia|done..|].
    exists shards. fold bucket_dir in Hp, Hs. rewrite Hp, Hs, Nat2Z.id.
    split; [|done]. by rewrite <- !app_assoc.
Qed.

Lemma strip_object_path (cwd : str) (app : S3Application) (bucket k : str) :
  isabs (directory app) = true ->
  endswith (abspath cwd (join (directory app) bucket)) (b"/") = false ->
  bucket_depth app ≤ 16 ->
  storable_key (bucket_depth app) k ->
  strip_shard_prefix cwd app bucket (_object_path cwd app bucket k) = k.
Proof.
  intros Habs Hend Hdepth Hkey.
  destruct (object_path_shape cwd app bucket k Habs Hend Hdepth Hkey)
    as (shards & Hp & Hs).
  unfold strip_shard_prefix. rewrite Hp, Hs. apply drop_app_length.
Qed.

(** *** Normal forms *)

Lemma split_slash_slashfree (s : str) :
  Forall (Forall (fun c => c ≠ slash)) (split_slash s).
Proof.
  induction s as [|c s IH]; simpl; [by repeat constructor|].
  case_bool_decide as Hc; [by constructor|].
  destruct (split_slash_cons s) as (comp & comps & Hs). rewrite Hs in *.
  inv IH. constructor; [|done]. by constructor.
Qed.

Lemma split_slash_one (h : str) :
  Forall (fun c => c ≠ slash) h -> split_slash h = [h].
Proof.
  induction 1 as [|c h Hc _ IH]; [done|]. simpl.
  by rewrite bool_decide_eq_false_2, IH.
Qed.

Lemma split_join_slash (cs : list str) :
  cs ≠ [] -> Forall (Forall (fun c => c ≠ slash)) cs ->
  split_slash (join_slash cs) = cs.
Proof.
  intros Hne Hall. induction Hall as [|comp cs Hcomp Hcs IH]; [done|].
  destruct cs as [|comp' cs].
  - simpl. by apply split_slash_one.
  - change (join_slash (comp :: comp' :: cs))
      with (comp ++ slash :: join_slash (comp' :: cs)).
    rewrite split_slash_app, split_slash_one, IH by done. done.
Qed.

Lemma removelast_Forall {A} (P : A -> Prop) (l : list A) :
  Forall P l -> Forall P (removelast l).
Proof.
  induction 1 as [|x l Hx Hl IH]; [constructor|].
  simpl. destruct l; [constructor|]. by constructor.
Qed.

(** The components that normpath keeps for an absolute path are clean. *)
Lemma normpath_step_clean (n : nat) (comps : list str) :
  n ≠ 0%nat ->
  Forall (Forall (fun c => c ≠ slash)) comps ->
  forall acc, Forall clean acc -> Forall clean (foldl (normpath_step n) acc comps).
Proof.
  intros Hn Hcomps. induction Hcomps as [|comp comps Hcomp _ IH]; intros acc Hacc;
    [done|].
  simpl. apply IH. unfold normpath_step.
  case_bool_decide as H1; [done|]. case_bool_decide as H2; [done|]. simpl.
  case_bool_decide as H3; simpl.
  - rewrite (bool_decide_eq_false_2 (n = 0%nat)) by done. simpl.
    case_bool_decide as H4; [|by apply removelast_Forall].
    exfalso. apply last_Some_elem_of in H4.
    rewrite Forall_forall in Hacc. destruct (Hacc _ H4) as [(_ & _ & Hdd) _]. done.
  - apply Forall_app. split; [done|]. by repeat constructor.
Qed.

Lemma normpath_step_empties (n k : nat) (acc : list str) (comps : list str) :
  foldl (normpath_step n) acc (replicate k [] ++ comps)
  = foldl (normpath_step n) acc comps.
Proof. induction k as [|k IH]; [done|]. simpl. apply IH. Qed.

Lemma split_slash_leading (k : nat) (s : str) :
  split_slash (repeat slash k ++ s) = replicate k [] ++ split_slash s.
Proof. induction k as [|k IH]; [done|]. simpl. by rewrite IH. Qed.

Lemma clean_plain (cs : list str) : Forall clean cs -> Forall plain cs.
Proof. intros H. eapply Forall_impl; [done|]. by intros ? [? _]. Qed.

Lemma clean_slashfree (cs : list str) :
  Forall clean cs -> Forall (Forall (fun c => c ≠ slash)) cs.
Proof. intros H. eapply Forall_impl; [done|]. by intros ? [_ ?]. Qed.

Lemma initial_slashes_render (n : nat) (cs : list str) :
  n = 1%nat \/ n = 2%nat -> Forall clean cs ->
  initial_slashes (repeat slash n ++ join_slash cs) = n.
Proof.
  intros Hn Hcs.
  assert (head (join_slash cs) ≠ Some slash) as Hhead.
  { destruct Hcs as [|comp cs [(Hne & _) Hfree] _]; [done|].
    destruct comp as [|c comp]; [done|]. inv Hfree.
    destruct cs; simpl; congruence. }
  destruct (join_slash cs) as [|c rest].
  - by destruct Hn as [-> | ->].
  - assert (c ≠ slash) as Hc by (intros ->; by apply Hhead).
    destruct Hn as [-> | ->]; unfold initial_slashes; simpl;
      by rewrite (bool_decide_eq_false_2 (c = "/"%char)).
Qed.

Lemma initial_slashes_range (p : str) :
  isabs p = true -> initial_slashes p = 1%nat \/ initial_slashes p = 2%nat.
Proof.
  unfold initial_slashes, isabs. intros ->. destruct (_ && _); auto.
Qed.

(** An absolute path: what normpath returns, through its components. *)
Lemma normpath_absolute_shape (p : str) :
  isabs p = true ->
  exists (n : nat) (cs : list str),
    (n = 1%nat \/ n = 2%nat) /\ Forall clean cs
    /\ normpath p = repeat slash n ++ join_slash cs
    /\ foldl (normpath_step n) [] (split_slash p) = cs
    /\ initial_slashes p = n.
Proof.
  intros Hp. exists (initial_slashes p), (foldl (normpath_step (initial_slashes p)) []
                                       (split_slash p)).
  pose proof (initial_slashes_range p Hp) as Hn.
  split; [done|]. split.
  { apply normpath_step_clean; [lia|apply split_slash_slashfree|constructor]. }
  split; [|done]. unfold normpath.
  assert (nonempty p = true) as -> by (by destruct p). cbn [negb]. cbv zeta.
  match goal with |- context [nonempty ?x] => assert (nonempty x = true) as -> end;
    [|done].
  by destruct Hn as [-> | ->].
Qed.

(** normpath changes nothing in what it has returned for an absolute
    path. *)
Lemma normpath_idempotent (p : str) :
  isabs p = true -> normpath (normpath p) = normpath p.
Proof.
  intros Hp. destruct (normpath_absolute_shape p Hp) as (n & cs & Hn & Hcs & Heq & _).
  rewrite Heq. unfold normpath at 1.
  assert (nonempty (repeat slash n ++ join_slash cs) = true) as Hne
    by (by destruct Hn as [-> | ->]).
  rewrite Hne. cbn [negb]. cbv zeta.
  rewrite initial_slashes_render by done.
  rewrite split_slash_leading.
  destruct (decide (cs = [])) as [->|Hcsne].
  - simpl. rewrite (normpath_step_empties n n [] [[]]). simpl.
    rewrite app_nil_r. by destruct Hn as [-> | ->].
  - rewrite split_join_slash by (done || by apply clean_slashfree).
    rewrite normpath_step_empties, normpath_step_plain by (by apply clean_plain).
    simpl. by rewrite Hne.
Qed.

(** *** Keys in normal form stay in their bucket *)

Lemma hex_digit_not_dot (n : Z) : 0 ≤ n < 16 -> MD5.hex_digit n ≠ "."%char.
Proof.
  intros Hn.
  assert (n ∈ seqZ 0 16) as Hin.
  { apply list_elem_of_lookup. exists (Z.to_nat n). apply lookup_seqZ. lia. }
  clear Hn. vm_compute in Hin.
  repeat (apply elem_of_cons in Hin as [->|Hin]; [by vm_compute|]).
  by apply elem_of_nil in Hin.
Qed.

Lemma hexdigest_not_dot (msg : str) :
  Forall (fun c => c ≠ "."%char) (MD5.hexdigest msg).
Proof.
  unfold MD5.hexdigest. destruct (MD5.digest_words msg) as [[[a0 b0] c0] d0].
  unfold MD5.hex_word, MD5.hex_byte.
  repeat (apply Forall_app; split); repeat constructor; apply hex_digit_not_dot.
  all: try (change 15 with (Z.ones 4); rewrite Z.land_ones by lia;
            apply Z.mod_pos_bound; lia).
  all: rewrite Z.shiftr_div_pow2 by lia; change (2 ^ 4) with 16;
    match goal with |- context [Z.land ?w 255] =>
      pose proof (land_255_range w) end;
    split; [apply Z.div_pos; lia|apply Z.div_lt_upper_bound; lia].
Qed.

Lemma shard_component_clean (h : str) (i : Z) :
  Forall (fun c => c ≠ slash) h -> Forall (fun c => c ≠ "."%char) h ->
  0 ≤ i -> 2 * (i + 1) ≤ Z.of_nat (length h) ->
  clean (take (Z.to_nat (2 * (i + 1))) h).
Proof.
  intros Hslash Hdot Hi Hlen.
  set (comp := take (Z.to_nat (2 * (i + 1))) h).
  assert (length comp = Z.to_nat (2 * (i + 1))) as Hclen
    by (unfold comp; rewrite length_take; lia).
  assert (Forall (fun c => c ≠ "."%char) comp) as Hcdot by (by apply Forall_take).
  split; [|by apply Forall_take].
  split; [|split].
  - intros Heq. rewrite Heq in Hclen. simpl in Hclen. lia.
  - intros Heq. rewrite Heq in Hclen. simpl in Hclen. lia.
  - intros Heq. rewrite Heq in Hcdot. by inv Hcdot.
Qed.

Lemma shard_fold_components (h : str) (ks : list Z) :
  Forall (fun c => c ≠ slash) h ->
  (forall i, i ∈ ks -> 0 ≤ i /\ 2 * (i + 1) ≤ Z.of_nat (length h)) ->
  forall p : str,
    p ≠ [] -> last p ≠ Some slash ->
    foldl (fun path i => join path (take (Z.to_nat (2 * (i + 1))) h)) p ks
    = p ++ mjoin ((fun i => slash :: take (Z.to_nat (2 * (i + 1))) h) <$> ks).
Proof.
  intros Hh. induction ks as [|i ks IH]; intros Hks p Hp Hlast.
  - simpl. by rewrite app_nil_r.
  - destruct (Hks i) as [Hi Hlen]; [by left|].
    set (comp := take (Z.to_nat (2 * (i + 1))) h).
    assert (Forall (fun c => c ≠ slash) comp) as Hcomp by (by apply Forall_take).
    assert (comp ≠ []) as Hne.
    { intros Heq. assert (length comp = Z.to_nat (2 * (i + 1))) as Hclen
        by (unfold comp; rewrite length_take; lia).
      rewrite Heq in Hclen. simpl in Hclen. lia. }
    cbn [foldl fmap list_fmap mjoin list_join]. fold comp.
    rewrite (join_relative p comp Hp Hlast (head_not_slash _ Hcomp)).
    rewrite IH.
    + by rewrite <- !app_assoc.
    + intros j Hj. apply Hks. by right.
    + by destruct p.
    + rewrite app_assoc, last_app.
      destruct (last comp) eqn:Hl; [|by apply last_None in Hl].
      rewrite <- Hl. by apply last_not_slash.
Qed.

Lemma join_shards (cs : list str) (k : str) :
  mjoin ((fun comp => slash :: comp) <$> cs) ++ slash :: k
  = slash :: join_slash (cs ++ split_slash k).
Proof.
  induction cs as [|comp cs IH].
  - simpl. by rewrite join_slash_split.
  - change (mjoin ((fun comp => slash :: comp) <$> comp :: cs))
      with ((slash :: comp) ++ mjoin ((fun comp => slash :: comp) <$> cs)).
    rewrite <- app_assoc, IH. cbn [app].
    destruct (split_slash_cons k) as (c0 & cs0 & Hk).
    change (join_slash (comp :: cs ++ split_slash k))
      with (match cs ++ split_slash k with
            | [] => comp
            | _ :: _ => comp ++ slash :: join_slash (cs ++ split_slash k)
            end).
    rewrite Hk. by destruct cs.
Qed.

(** The path of a key in normal form, by components. *)
Lemma object_path_components (cwd : str) (app : S3Application) (bucket k : str) :
  let bucket_dir := abspath cwd (join (directory app) bucket) in
  isabs (directory app) = true ->
  endswith bucket_dir (b"/") = false ->
  bucket_depth app ≤ 16 ->
  normal_key k ->
  exists cs : list str,
    Forall plain (cs ++ split_slash k)
    /\ Forall (Forall (fun c => c ≠ slash)) (cs ++ split_slash k)
    /\ _object_path cwd app bucket k
       = bucket_dir ++ slash :: join_slash (cs ++ split_slash k).
Proof.
  intros bucket_dir Habs Hend Hdepth Hkey.
  pose proof Hend as Hend'. rewrite endswith_slash in Hend'.
  apply bool_decide_eq_false in Hend'.
  destruct (bucket_depth app <? 1) eqn:Hd.
  - apply Z.ltb_lt in Hd. exists []. rewrite !app_nil_l.
    split; [done|]. split; [apply split_slash_slashfree|].
    assert (isabs (join (directory app) bucket) = true) as HJ
      by (by apply join_absolute).
    assert (bucket_dir = normpath (join (directory app) bucket)) as Hbd
      by (by apply abspath_absolute).
    unfold _object_path. rewrite (proj2 (Z.ltb_lt _ _)) by done.
    rewrite abspath_absolute by (by apply join_absolute).
    rewrite normpath_join_normal; [|by apply isabs_head|done|by rewrite <- Hbd].
    by rewrite <- Hbd, join_slash_split.
  - apply Z.ltb_ge in Hd.
    set (h := MD5.hexdigest k).
    set (ks := range 0 (bucket_depth app)).
    assert (forall i, i ∈ ks -> 0 ≤ i /\ 2 * (i + 1) ≤ Z.of_nat (length h)) as Hks.
    { intros i [n [-> Hn]%lookup_seqZ]%list_elem_of_lookup.
      unfold h. rewrite hexdigest_length. lia. }
    exists ((fun i => take (Z.to_nat (2 * (i + 1))) h) <$> ks).
    assert (Forall clean ((fun i => take (Z.to_nat (2 * (i + 1))) h) <$> ks))
      as Hclean.
    { apply Forall_fmap, Forall_forall. intros i Hi. destruct (Hks i Hi).
      apply shard_component_clean; try done.
      - apply hexdigest_not_slash.
      - apply hexdigest_not_dot. }
    split; [apply Forall_app; split; [by apply clean_plain|done]|].
    split; [apply Forall_app; split;
            [by apply clean_slashfree|apply split_slash_slashfree]|].
    unfold _object_path. rewrite (proj2 (Z.ltb_ge _ _)) by done. cbv zeta.
    fold bucket_dir h ks.
    assert (bucket_dir ≠ []) as Hbne by apply normpath_nonempty.
    rewrite (shard_fold_components h ks (hexdigest_not_slash k) Hks) by done.
    assert (ks ≠ []) as Hksne.
    { unfold ks, range. rewrite seqZ_cons by lia. done. }
    rewrite join_relative.
    + rewrite <- app_assoc. f_equal.
      rewrite <- join_shards. f_equal.
      by rewrite <- list_fmap_compose.
    + by destruct bucket_dir.
    + rewrite <- (shard_fold_components h ks (hexdigest_not_slash k) Hks) by done.
      destruct (shard_fold h ks (hexdigest_not_slash k) Hks bucket_dir 0 Hbne Hend')
        as (shards & Hpath & _ & Hlast).
      by rewrite Hpath.
    + destruct (normal_key_head k Hkey) as (c & k' & -> & Hc). by intros [= ?].
Qed.

Lemma join_relative_cons (a p : str) :
  a ≠ [] -> last a ≠ Some slash -> head p ≠ Some slash ->
  join a p = a ++ slash :: p.
Proof. apply join_relative. Qed.

Lemma filter_all {A} (P : A -> Prop) `{!forall x, Decision (P x)} (l : list A) :
  Forall P l -> filter P l = l.
Proof.
  induction 1 as [|x l Hx _ IH]; [done|].
  by rewrite filter_cons_True, IH.
Qed.

(** A key in normal form does not start with a slash. *)
Lemma normal_key_storable (depth : Z) (k : str) :
  normal_key k -> storable_key depth k.
Proof.
  intros Hk. unfold storable_key. destruct (depth <? 1); [done|].
  destruct (normal_key_head k Hk) as (c & k' & -> & Hc).
  simpl. by rewrite bool_decide_eq_false_2.
Qed.

(** The path of a key in normal form is a normalised path. *)
Lemma object_path_normal (cwd : str) (app : S3Application) (bucket k : str) :
  isabs (directory app) = true ->
  endswith (abspath cwd (join (directory app) bucket)) (b"/") = false ->
  bucket_depth app ≤ 16 ->
  normal_key k ->
  normpath (_object_path cwd app bucket k) = _object_path cwd app bucket k.
Proof.
  intros Habs Hend Hdepth Hkey.
  destruct (object_path_components cwd app bucket k Habs Hend Hdepth Hkey)
    as (cs & Hplain & Hfree & Hpath).
  set (bucket_dir := abspath cwd (join (directory app) bucket)) in *.
  set (tcomps := cs ++ split_slash k) in *.
  assert (tcomps ≠ []) as Htne.
  { unfold tcomps. destruct (split_slash_cons k) as (? & ? & ->). by destruct cs. }
  assert (isabs (join (directory app) bucket) = true) as HJ
    by (by apply join_absolute).
  assert (bucket_dir = normpath (join (directory app) bucket)) as Hbd
    by (by apply abspath_absolute).
  assert (normpath bucket_dir = bucket_dir) as Hidem
    by (rewrite Hbd; by apply normpath_idempotent).
  assert (isabs bucket_dir = true) as Hbabs
    by (rewrite Hbd; by apply normpath_absolute).
  assert (bucket_dir ≠ []) as Hbne by (by destruct bucket_dir).
  pose proof Hend as Hend'. rewrite endswith_slash in Hend'.
  apply bool_decide_eq_false in Hend'.
  assert (split_slash (join_slash tcomps) = tcomps) as Hsplit
    by (by apply split_join_slash).
  assert (head (join_slash tcomps) ≠ Some slash) as Hhead.
  { destruct tcomps as [|comp rest]; [done|].
    inv Hplain. inv Hfree. destruct comp as [|c comp]; [by destruct H1|].
    inv H3. destruct rest; simpl; congruence. }
  rewrite Hpath.
  rewrite <- (join_relative_cons bucket_dir (join_slash tcomps)) by done.
  rewrite normpath_join_normal; [|by apply isabs_head| |by rewrite Hidem].
  - rewrite Hidem. symmetry. by apply join_relative_cons.
  - unfold normal_key. by rewrite Hsplit.
Qed.

(** X13. With an absolute storage directory and a bucket directory that
    is not the file-system root, a key in normal form cannot leave its
    bucket, at any shard depth up to 16: its path is already normalised, runs through all the
    directories of the bucket directory and at least one more name, and
    put lets it through whenever the bucket directory exists inside the
    storage directory and the path is not a directory. *)
Theorem normal_key_stays_in_bucket (cwd : str) (isdir : str -> bool)
    (app : S3Application) (bucket k : str) :
  let bucket_dir := abspath cwd (join (directory app) bucket) in
  let path := _object_path cwd app bucket k in
  isabs (directory app) = true ->
  endswith bucket_dir (b"/") = false ->
  bucket_depth app ≤ 16 ->
  normal_key k ->
  descendant bucket_dir path = true
  /\ normpath path = path
  /\ startswith path (bucket_dir ++ b"/") = true
  /\ (startswith bucket_dir (directory app) = true ->
      isdir bucket_dir = true -> isdir path = false ->
      ObjectHandler_put_path cwd isdir app bucket k = Return path).
Proof.
  intros bucket_dir path Habs Hend Hdepth Hkey.
  destruct (object_path_components cwd app bucket k Habs Hend Hdepth Hkey)
    as (cs & Hplain & Hfree & Hpath).
  fold bucket_dir path in Hpath.
  set (tcomps := cs ++ split_slash k) in *.
  assert (tcomps ≠ []) as Htne.
  { unfold tcomps. destruct (split_slash_cons k) as (? & ? & ->). by destruct cs. }
  assert (isabs (join (directory app) bucket) = true) as HJ
    by (by apply join_absolute).
  assert (bucket_dir = normpath (join (directory app) bucket)) as Hbd
    by (by apply abspath_absolute).
  assert (normpath bucket_dir = bucket_dir) as Hidem
    by (rewrite Hbd; by apply normpath_idempotent).
  assert (isabs bucket_dir = true) as Hbabs
    by (rewrite Hbd; by apply normpath_absolute).
  assert (bucket_dir ≠ []) as Hbne by (by destruct bucket_dir).
  pose proof Hend as Hend'. rewrite endswith_slash in Hend'.
  apply bool_decide_eq_false in Hend'.
  assert (split_slash (join_slash tcomps) = tcomps) as Hsplit
    by (by apply split_join_slash).
  assert (head (join_slash tcomps) ≠ Some slash) as Hhead.
  { destruct tcomps as [|comp rest]; [done|].
    inv Hplain. inv Hfree. destruct comp as [|c comp]; [by destruct H1|].
    inv H3. destruct rest; simpl; congruence. }
  assert (normpath path = path) as Hnorm.
  { rewrite Hpath.
    rewrite <- (join_relative_cons bucket_dir (join_slash tcomps)) by done.
    rewrite normpath_join_normal; [|by apply isabs_head| |by rewrite Hidem].
    - rewrite Hidem. symmetry. by apply join_relative_cons.
    - unfold normal_key. by rewrite Hsplit. }
  assert (components path = components bucket_dir ++ tcomps) as Hcomps.
  { unfold components. rewrite Hnorm, Hidem, Hpath, split_slash_app, Hsplit.
    rewrite filter_app. f_equal. apply filter_all.
    eapply Forall_impl; [exact Hplain|]. by intros comp [? _]. }
  split; [|split; [done|split]].
  - unfold descendant. rewrite Hcomps.
    rewrite bool_decide_eq_true_2 by (by apply prefix_app_r).
    rewrite bool_decide_eq_false_2; [done|].
    intros Heq. apply Htne.
    apply (app_inv_head (components bucket_dir)). by rewrite app_nil_r.
  - rewrite Hpath.
    replace (bucket_dir ++ slash :: join_slash tcomps)
      with ((bucket_dir ++ b"/") ++ join_slash tcomps) by (by rewrite <- app_assoc).
    apply startswith_app.
  - intros Hstart Hisdir Hfile. unfold ObjectHandler_put_path.
    fold bucket_dir path. rewrite Hstart, Hisdir, Hfile. cbn [negb orb].
    rewrite Hpath at 1. by rewrite startswith_app.
Qed.

Lemma normal_key_stays_in_bucket_witness :
  let bucket_dir := abspath demo_cwd (join (directory (demo_app 2)) (b"b")) in
  let path := _object_path demo_cwd (demo_app 2) (b"b") (b"dir/hello") in
  descendant bucket_dir path = true
  /\ normpath path = path
  /\ startswith path (bucket_dir ++ b"/") = true
  /\ (startswith bucket_dir (directory (demo_app 2)) = true ->
      demo_isdir bucket_dir = true -> demo_isdir path = false ->
      ObjectHandler_put_path demo_cwd demo_isdir (demo_app 2) (b"b") (b"dir/hello")
      = Return path).
Proof.
  apply (normal_key_stays_in_bucket demo_cwd demo_isdir (demo_app 2) (b"b")
           (b"dir/hello")).
  - vm_compute. reflexivity.
  - vm_compute. reflexivity.
  - simpl. lia.
  - simpl. repeat constructor; discriminate.
Defined.

(** *** The round trip from a key to its path and back *)

(** C3, amended. With an absolute storage directory, a bucket directory
    that is not the file-system root and at most 16 shard levels, the
    path of a key in normal form is a normalised path, the name under
    which the walk of the bucket finds the file, and cutting the bucket
    directory and the shard directories from its front gives back the
    key. The number of characters cut is the length of the bucket
    directory plus one, plus 2 * (i + 1) + 1 for every shard level i. *)
Theorem shard_prefix_round_trip (cwd : str) (app : S3Application)
    (bucket k : str) :
  let bucket_dir := abspath cwd (join (directory app) bucket) in
  let path := _object_path cwd app bucket k in
  isabs (directory app) = true ->
  endswith bucket_dir (b"/") = false ->
  bucket_depth app ≤ 16 ->
  normal_key k ->
  normpath path = path
  /\ strip_shard_prefix cwd app bucket path = k
  /\ shard_skip bucket_dir (bucket_depth app)
     = Z.of_nat (length bucket_dir) + 1
       + foldr Z.add 0 ((fun i => 2 * (i + 1) + 1) <$> range 0 (bucket_depth app)).
Proof.
  intros bucket_dir path Habs Hend Hdepth Hkey.
  split; [by apply object_path_normal|]. split.
  - apply strip_object_path; [done..|]. by apply normal_key_storable.
  - unfold shard_skip. generalize (Z.of_nat (length bucket_dir) + 1).
    generalize (range 0 (bucket_depth app)). intros ks.
    induction ks as [|i ks IH]; intros z; [simpl; lia|].
    rewrite fmap_cons. cbn [foldl foldr]. rewrite IH. lia.
Qed.

Lemma shard_prefix_round_trip_witness :
  (let app := demo_app 2 in
   let bucket_dir := abspath demo_cwd (join (directory app) (b"b")) in
   let path := _object_path demo_cwd app (b"b") (b"dir/hello") in
   normpath path = path
   /\ strip_shard_prefix demo_cwd app (b"b") path = b"dir/hello"
   /\ shard_skip bucket_dir (bucket_depth app)
      = Z.of_nat (length bucket_dir) + 1
        + foldr Z.add 0 ((fun i => 2 * (i + 1) + 1) <$> range 0 (bucket_depth app)))
  /\ (let app := demo_app 0 in
      let bucket_dir := abspath demo_cwd (join (directory app) (b"b")) in
      let path := _object_path demo_cwd app (b"b") (b"dir/hello") in
      normpath path = path
      /\ strip_shard_prefix demo_cwd app (b"b") path = b"dir/hello"
      /\ shard_skip bucket_dir (bucket_depth app)
         = Z.of_nat (length bucket_dir) + 1
           + foldr Z.add 0 ((fun i => 2 * (i + 1) + 1) <$> range 0 (bucket_depth app))).
Proof.
  split.
  - apply (shard_prefix_round_trip demo_cwd (demo_app 2) (b"b") (b"dir/hello")).
    + vm_compute. reflexivity.
    + vm_compute. reflexivity.
    + simpl. lia.
    + simpl. repeat constructor; discriminate.
  - apply (shard_prefix_round_trip demo_cwd (demo_app 0) (b"b") (b"dir/hello")).
    + vm_compute. reflexivity.
    + vm_compute. reflexivity.
    + simpl. lia.
    + simpl. repeat constructor; discriminate.
Defined.

(** *** Keys and files *)

(** X11. Different keys in normal form name different files: for an
    absolute storage directory, a bucket directory that is not the
    file-system root and at most 16 shard levels, two keys in normal
    form whose paths normalise to the same path are the same key. *)
Theorem object_paths_distinct (cwd : str) (app : S3Application)
    (bucket k1 k2 : str) :
  isabs (directory app) = true ->
  endswith (abspath cwd (join (directory app) bucket)) (b"/") = false ->
  bucket_depth app ≤ 16 ->
  normal_key k1 ->
  normal_key k2 ->
  normpath (_object_path cwd app bucket k1)
  = normpath (_object_path cwd app bucket k2) ->
  k1 = k2.
Proof.
  intros Habs Hend Hdepth Hk1 Hk2 Heq.
  rewrite !object_path_normal in Heq by done.
  rewrite <- (strip_object_path cwd app bucket k1);
    [|done..|by apply normal_key_storable].
  rewrite <- (strip_object_path cwd app bucket k2);
    [|done..|by apply normal_key_storable].
  by rewrite Heq.
Qed.

Lemma object_paths_distinct_witness : b"a/b" = b"a/b".
Proof.
  apply (object_paths_distinct demo_cwd (demo_app 3) (b"b") (b"a/b") (b"a/b")).
  - vm_compute. reflexivity.
  - vm_compute. reflexivity.
  - simpl. lia.
  - simpl. repeat constructor; discriminate.
  - simpl. repeat constructor; discriminate.
  - reflexivity.
Defined.

(** Keys that are not in normal form can share a file: a//b and a/b
    without sharding; with one shard level ../x and .././x, whose paths
    differ as strings. *)
Example object_paths_collide :
  _object_path demo_cwd (demo_app 0) (b"b") (b"a//b")
  = _object_path demo_cwd (demo_app 0) (b"b") (b"a/b")
  /\ _object_path demo_cwd (demo_app 1) (b"b") (b"../x")
     ≠ _object_path demo_cwd (demo_app 1) (b"b") (b".././x")
  /\ normpath (_object_path demo_cwd (demo_app 1) (b"b") (b"../x"))
     = b"/tmp/s3/b/x"
  /\ normpath (_object_path demo_cwd (demo_app 1) (b"b") (b".././x"))
     = b"/tmp/s3/b/x".
Proof. vm_compute. split; [done|]. split; [discriminate|done]. Qed.

(** *** Stored objects are listed under their keys *)

(** X12. A bucket directory that exists inside the storage directory
    and holds exactly the files of the keys [ks], all in normal form,
    found by the walk in any order: every file name is a normalised
    path, as the walk yields it; the listing is the listing of the keys
    [ks] themselves, cutting the bucket and shard directories from the
    file names gives the keys back before they are sorted and paged;
    and the listing returns a result when the request is terse, or when
    os.stat succeeds on every file found, with a modification time that
    a date can hold. *)
Theorem stored_keys_are_listed (cwd : str) (isdir : str -> bool)
    (stat : str -> option stat_result) (app : S3Application) (bucket : str)
    (ks files : list str) (prefix marker : str) (max_keys terse : Z) :
  let bucket_dir := abspath cwd (join (directory app) bucket) in
  isabs (directory app) = true ->
  endswith bucket_dir (b"/") = false ->
  bucket_depth app ≤ 16 ->
  Forall normal_key ks ->
  startswith bucket_dir (directory app) = true ->
  isdir bucket_dir = true ->
  files ≡ₚ _object_path cwd app bucket <$> ks ->
  Forall (fun f => normpath f = f) files
  /\ BucketHandler_get cwd isdir stat app bucket files prefix marker max_keys terse
     = list_keys cwd stat app bucket ks prefix marker max_keys terse
  /\ ((terse = 0 ->
       forall f, f ∈ files ->
         exists info date, stat f = Some info
                           /\ utcfromtimestamp (st_mtime info) = Return date) ->
      exists r,
        BucketHandler_get cwd isdir stat app bucket files prefix marker max_keys terse
        = Return r).
Proof.
  intros bucket_dir Habs Hend Hdepth Hks Hstart Hisdir Hperm.
  assert (BucketHandler_get cwd isdir stat app bucket files prefix marker max_keys terse
          = list_keys cwd stat app bucket ks prefix marker max_keys terse) as Hget.
  { unfold BucketHandler_get. fold bucket_dir. rewrite Hstart, Hisdir. cbn [negb orb].
    apply listing_permutation.
    rewrite Hperm, <- list_fmap_compose.
    assert ((strip_shard_prefix cwd app bucket ∘ _object_path cwd app bucket) <$> ks
            = ks) as ->; [|done].
    clear Hperm. induction Hks as [|k ks Hk _ IH]; [done|].
    cbn [fmap list_fmap compose].
    rewrite strip_object_path; [|done..|by apply normal_key_storable].
    f_equal. apply IH. }
  rewrite Forall_forall in Hks.
  split; [|split; [done|]].
  - apply Forall_forall. intros f Hf. rewrite Hperm in Hf.
    apply list_elem_of_fmap in Hf as (k & -> & Hk).
    apply object_path_normal; [done..|]. by apply Hks.
  - intros Hstat. rewrite Hget. apply list_keys_returns.
    intros k Hk. destruct (Z.eq_dec terse 0) as [Ht|Ht].
    + destruct (Hstat Ht (_object_path cwd app bucket k)) as (info & date & Hi & Hd).
      { rewrite Hperm. apply list_elem_of_fmap. by exists k. }
      eexists. unfold entry. by rewrite Ht, Hi, Hd.
    + eexists. by apply entry_terse.
Qed.

Lemma stored_keys_are_listed_witness :
  let files := [b"/tmp/s3/b/5d/5d41/hello"; b"/tmp/s3/b/90/9001/abc"] in
  Forall (fun f => normpath f = f) files
  /\ BucketHandler_get demo_cwd demo_isdir demo_stat (demo_app 2) (b"b")
       files (b"") (b"") 10 0
     = list_keys demo_cwd demo_stat (demo_app 2) (b"b")
         [b"abc"; b"hello"] (b"") (b"") 10 0
  /\ ((0 = 0 ->
       forall f, f ∈ files ->
         exists info date, demo_stat f = Some info
                           /\ utcfromtimestamp (st_mtime info) = Return date) ->
      exists r,
        BucketHandler_get demo_cwd demo_isdir demo_stat (demo_app 2) (b"b")
          files (b"") (b"") 10 0
        = Return r).
Proof.
  apply (stored_keys_are_listed demo_cwd demo_isdir demo_stat (demo_app 2) (b"b")
           [b"abc"; b"hello"]).
  - vm_compute. reflexivity.
  - vm_compute. reflexivity.
  - simpl. lia.
  - repeat constructor; discriminate.
  - vm_compute. reflexivity.
  - vm_compute. reflexivity.
  - vm_compute. apply Permutation_swap.
Defined.

Example bucket_listing_examples :
  BucketHandler_get demo_cwd demo_isdir demo_stat (demo_app 0) (b"nobucket") []
    (b"") (b"") 10 0 = Raise (HTTPError 404)
  /\ BucketHandler_get demo_cwd demo_isdir demo_stat (demo_app 0) (b"..") []
       (b"") (b"") 10 0 = Raise (HTTPError 404)
  /\ BucketHandler_get demo_cwd demo_isdir demo_stat (demo_app 2) (b"b")
       [b"/tmp/s3/b/5d/5d41/hello"; b"/tmp/s3/b/90/9001/abc"] (b"") (b"") 10 0
     = Return (mkListing (b"b") (b"") (b"hello") 10 false
                 (demo_entry 0 <$> [b"abc"; b"hello"])).
Proof. vm_compute. done. Qed.

(** The key a//b stored with one shard level: the file is found as
    .../a/b and listed as a/b, and the entry of a/b looks for a file in
    another shard directory. *)
Example stored_key_not_normal :
  let app := demo_app 1 in
  let file := normpath (_object_path demo_cwd app (b"b") (b"a//b")) in
  let stat := fun p => if bool_decide (p = file) then Some demo_info else None in
  strip_shard_prefix demo_cwd app (b"b") file = b"a/b"
  /\ _object_path demo_cwd app (b"b") (b"a/b") ≠ file
  /\ BucketHandler_get demo_cwd demo_isdir stat app (b"b") [file] (b"") (b"") 10 0
     = Raise OSError.
Proof. vm_compute. split; [done|]. split; [discriminate|done]. Qed.
